(** * ConcussionTracker: the head-collision detector of [collision_CV/collision_detector.py]

    A shallow embedding of the per-frame pipeline of the detector: hit boxes,
    Euler angles, per-slot velocities, the pairwise overlap test, the
    temporal confirmation of a contact and the pre-event clip buffer.

    Number model.  Python [float]s and NumPy [float64]s are idealised as real
    numbers ([R]); Python [int]s are [Z].  The landmark pixel coordinates the
    source stores in an [np.int32] array are products of a normalised
    coordinate and the frame size and stay far inside the 32-bit range, so
    they are kept on [Z] as well.

    External calls.  [cv2.Rodrigues] and [np.arctan2] are parameters of the
    development; the result of [cv2.solvePnP] and the outcome of opening a
    [cv2.VideoWriter] come with the input of a frame.  [os.makedirs] either
    returns or raises, and an exception it raises ends the main loop:
    [loop_iteration] and [main_loop] carry that outcome, [process_frame],
    [run] and [trace] are about the iterations that complete.  Drawing
    (labels, axes, helmets) changes pixels only and is left out: a frame is a
    token of an abstract type. *)

From Stdlib Require Import Reals ZArith List Bool Sorted Lia Lra Psatz.
Import ListNotations.

Open Scope R_scope.

(** ** Comparisons and conversions of the host language *)

Definition Rltb (x y : R) : bool := if Rlt_dec x y then true else false.
Definition Rleb (x y : R) : bool := if Rle_dec x y then true else false.

(** [int(x)] on a float: truncation toward zero. *)
Definition python_int (x : R) : Z :=
  if Rle_dec 0 x then Zfloor x else Zceil x.

(** [np.clip(x, lo, hi)] is [minimum(maximum(x, lo), hi)]. *)
Definition np_clip (x lo hi : R) : R := Rmin (Rmax x lo) hi.

(** [math.degrees]. *)
Definition degrees (x : R) : R := x * (180 / PI).

(** ** Configuration (module-level constants of the script) *)

Definition BOX_PADDING : Z := 20.
Definition COLLISION_IOU_THRESHOLD : R := 0.05.
Definition HITBOX_SCALE : R := 1.2.
Definition CLIP_PRE_SECONDS : R := 5.0.
Definition DEPTH_DIFF_MAX : R := 200.0.
Definition DIST_3D_MAX : R := 400.0.
Definition FRAMES_CONFIRM : Z := 2.

(** [clip_fps]: the assignment from the camera's frame rate (line 110) comes
    before the module-level [clip_fps = 20.0] (line 140), which runs
    unconditionally; the main loop therefore always sees 20.0. *)
Definition clip_fps : R := 20.0.

(** ** Vectors and matrices *)

Record Vec3 : Type := mkVec3 { vx : R; vy : R; vz : R }.

Definition vsub (a b : Vec3) : Vec3 :=
  mkVec3 (vx a - vx b) (vy a - vy b) (vz a - vz b).

Definition vscale (c : R) (a : Vec3) : Vec3 :=
  mkVec3 (c * vx a) (c * vy a) (c * vz a).

(** [np.linalg.norm(v.ravel())]. *)
Definition norm (v : Vec3) : R :=
  sqrt (vx v * vx v + vy v * vy v + vz v * vz v).

Definition Mat3 : Type := nat -> nat -> R.

Definition entry (m : Mat3) (i j : nat) : R := m i j.

(** ** Boxes and intersection over union *)

Definition Box : Type := (Z * Z * Z * Z)%type.

Definition _intersect_area_xyxy (a b : Box) : Z :=
  let '(ax1, ay1, ax2, ay2) := a in
  let '(bx1, by1, bx2, by2) := b in
  let ix1 := Z.max ax1 bx1 in
  let iy1 := Z.max ay1 by1 in
  let ix2 := Z.min ax2 bx2 in
  let iy2 := Z.min ay2 by2 in
  let iw := Z.max 0 (ix2 - ix1) in
  let ih := Z.max 0 (iy2 - iy1) in
  (iw * ih)%Z.

Definition compute_iou (box_a box_b : Box) : R :=
  let '(ax1, ay1, ax2, ay2) := box_a in
  let '(bx1, by1, bx2, by2) := box_b in
  let inter := _intersect_area_xyxy (ax1, ay1, ax2, ay2) (bx1, by1, bx2, by2) in
  if (inter <=? 0)%Z then 0
  else
    let area_a := (Z.max 0 (ax2 - ax1) * Z.max 0 (ay2 - ay1))%Z in
    let area_b := (Z.max 0 (bx2 - bx1) * Z.max 0 (by2 - by1))%Z in
    let union := (area_a + area_b - inter)%Z in
    if (union <=? 0)%Z then 0
    else IZR inter / IZR union.

(** ** Landmarks and hit boxes (lines 330-349) *)

Record Landmark : Type := mkLandmark { lm_x : R; lm_y : R }.

(** A face mesh result always carries landmarks: the list is kept non-empty
    by construction (first landmark and the others). *)
Record LandmarkSet : Type := mkLandmarkSet {
  lm_first : Landmark;
  lm_others : list Landmark
}.

Definition landmark (ls : LandmarkSet) : list Landmark :=
  lm_first ls :: lm_others ls.

Section Hitbox.

(** Frame size, read once from the first captured frame. *)
Variables w h : Z.

Definition x_px (lm : Landmark) : Z := python_int (lm_x lm * IZR w).
Definition y_px (lm : Landmark) : Z := python_int (lm_y lm * IZR h).

(** [arr.min()] and [arr.max()] of a non-empty column. *)
Definition column_min (z : Z) (zs : list Z) : Z := fold_left Z.min zs z.
Definition column_max (z : Z) (zs : list Z) : Z := fold_left Z.max zs z.

Definition hitbox (ls : LandmarkSet) : Box :=
  let xs0 := x_px (lm_first ls) in
  let xs := map x_px (lm_others ls) in
  let ys0 := y_px (lm_first ls) in
  let ys := map y_px (lm_others ls) in
  let base_xmin := IZR (column_min xs0 xs - BOX_PADDING) in
  let base_ymin := IZR (column_min ys0 ys - BOX_PADDING) in
  let base_xmax := IZR (column_max xs0 xs + BOX_PADDING) in
  let base_ymax := IZR (column_max ys0 ys + BOX_PADDING) in
  let c_x := 0.5 * (base_xmin + base_xmax) in
  let c_y := 0.5 * (base_ymin + base_ymax) in
  let half_w := 0.5 * (base_xmax - base_xmin) * HITBOX_SCALE in
  let half_h := 0.5 * (base_ymax - base_ymin) * HITBOX_SCALE in
  let x_min := python_int (np_clip (c_x - half_w) 0 (IZR (w - 1))) in
  let x_max := python_int (np_clip (c_x + half_w) 0 (IZR (w - 1))) in
  let y_min := python_int (np_clip (c_y - half_h) 0 (IZR (h - 1))) in
  let y_max := python_int (np_clip (c_y + half_h) 0 (IZR (h - 1))) in
  (x_min, y_min, x_max, y_max).

End Hitbox.

(** ** Euler angles (lines 148-162) *)

Section Euler.

Variable Rodrigues : Vec3 -> Mat3.
Variable arctan2 : R -> R -> R.

Definition rotationVectorToEuler (rvec : Vec3) : R * R * R :=
  let Rm := Rodrigues rvec in
  let sy := sqrt (entry Rm 0 0 * entry Rm 0 0 + entry Rm 1 0 * entry Rm 1 0) in
  let singular := Rltb sy 1e-6 in
  let xyz :=
    if negb singular then
      (arctan2 (entry Rm 2 1) (entry Rm 2 2),
       arctan2 (- entry Rm 2 0) sy,
       arctan2 (entry Rm 1 0) (entry Rm 0 0))
    else
      (arctan2 (- entry Rm 1 2) (entry Rm 1 1),
       arctan2 (- entry Rm 2 0) sy,
       0) in
  (degrees (fst (fst xyz)), degrees (snd (fst xyz)), degrees (snd xyz)).

End Euler.

(** ** Faces, detections and the state of the main loop *)

(** One entry of [results.multi_face_landmarks], together with what
    [cv2.solvePnP] returned for its six model landmarks:
    [success, rvec, tvec]. *)
Record Face : Type := mkFace {
  face_landmarks : LandmarkSet;
  pnp_success : bool;
  pnp_rvec : Vec3;
  pnp_tvec : Vec3
}.

(** The dictionaries appended to [detections] (the cosmetic
    [tentative_size] is dropped). *)
Record Detection : Type := mkDetection {
  fi : nat;
  bbox : Box;
  rvec : Vec3;
  tvec : Vec3;
  pitch : R;
  yaw : R;
  roll : R
}.

(** [prev_rvecs], [prev_tvecs], [prev_time]. *)
Record PoseHistory : Type := mkPoseHistory {
  prev_rvecs : list (option Vec3);
  prev_tvecs : list (option Vec3);
  prev_time : R
}.

(** [collision_count], [currently_overlapping], [overlap_streak]. *)
Record CollisionState : Type := mkCollisionState {
  collision_count : Z;
  currently_overlapping : bool;
  overlap_streak : Z
}.

(** What the second pass computes for one detection. *)
Record Kinematics : Type := mkKinematics {
  k_fi : nat;
  ang_vel : option (R * R * R);
  trans_vel : option R
}.

(** What one iteration of the main loop did: the velocities of the second
    pass, the raw test [is_collision_now] when it was evaluated, whether the
    branch [confirmed and not currently_overlapping] was taken, and the
    return value of [_start_collision_clip] when it was called. *)
Record FrameOutput : Type := mkFrameOutput {
  kinematics : list Kinematics;
  raw_test : option bool;
  fired : bool;
  clip_attempt : option bool
}.

Definition no_output : FrameOutput := mkFrameOutput [] None false None.

(** [l[i] = x]; the main loop pads the lists first, so the index is always
    in range there (lemma [first_pass_fi_lt]). *)
Fixpoint list_assign {A : Type} (l : list A) (i : nat) (x : A) : list A :=
  match l, i with
  | [], _ => []
  | _ :: tl, O => x :: tl
  | y :: tl, S i' => y :: list_assign tl i' x
  end.

(** [while len(l) < n: l.append(None)]. *)
Definition pad_none {A : Type} (l : list (option A)) (n : nat) : list (option A) :=
  l ++ repeat None (n - length l).

(** ** Temporal confirmation (lines 473-483 and 488) *)

Definition temporal_confirmation (is_collision_now : bool) (cs : CollisionState)
  : CollisionState * bool :=
  let streak := if is_collision_now then (overlap_streak cs + 1)%Z else 0%Z in
  let confirmed := (FRAMES_CONFIRM <=? streak)%Z in
  let fires := confirmed && negb (currently_overlapping cs) in
  (mkCollisionState
     (if fires then (collision_count cs + 1)%Z else collision_count cs)
     confirmed
     streak,
   fires).

Definition initial_collision_state : CollisionState :=
  mkCollisionState 0 false 0.

(** The block fed with a sequence of raw tests: the flags [fires], in order. *)
Fixpoint confirmation_run (cs : CollisionState) (raw : list bool) : list bool :=
  match raw with
  | [] => []
  | b :: rest =>
      let '(cs', fires) := temporal_confirmation b cs in
      fires :: confirmation_run cs' rest
  end.

(** Positions of [true] in a list of flags, counted from [i]. *)
Fixpoint true_indices (i : nat) (flags : list bool) : list nat :=
  match flags with
  | [] => []
  | b :: rest => (if b then [i] else []) ++ true_indices (S i) rest
  end.

(** ** Pairwise overlap and 3D proximity (lines 452-471) *)

(** The index pairs of [for i in range(n): for j in range(i+1, n)], in the
    order the loops visit them. *)
Definition pairs (n : nat) : list (nat * nat) :=
  flat_map (fun i => map (fun j => (i, j)) (seq (S i) (n - S i))) (seq 0 n).

Definition scan_pair (iou_of : nat * nat -> R)
    (acc : R * option (nat * nat)) (ij : nat * nat) : R * option (nat * nat) :=
  let iou := iou_of ij in
  if Rltb (fst acc) iou then (iou, Some ij) else acc.

Definition pair_iou (d0 : Detection) (detections : list Detection)
    (ij : nat * nat) : R :=
  compute_iou (bbox (nth (fst ij) detections d0))
              (bbox (nth (snd ij) detections d0)).

(** [(max_iou, best_pair)] after the two loops. *)
Definition best_overlap (d0 : Detection) (detections : list Detection)
  : R * option (nat * nat) :=
  fold_left (scan_pair (pair_iou d0 detections))
            (pairs (length detections)) (0, None).

Definition zdiff (t1 t2 : Vec3) : R := Rabs (vz t1 - vz t2).
Definition d3 (t1 t2 : Vec3) : R := norm (vsub t1 t2).

Definition is_close3d (t1 t2 : Vec3) : bool :=
  Rltb (zdiff t1 t2) DEPTH_DIFF_MAX && Rltb (d3 t1 t2) DIST_3D_MAX.

(** [is_collision_now] as lines 453-471 leave it.  The first pattern is
    [len(detections) >= 2]; its head only serves as the default of [nth],
    whose indices are in range. *)
Definition is_collision_now (detections : list Detection) : bool :=
  match detections with
  | d0 :: _ :: _ =>
      let '(max_iou, best_pair) := best_overlap d0 detections in
      match best_pair with
      | Some (a, b) =>
          if Rleb COLLISION_IOU_THRESHOLD max_iou then
            is_close3d (tvec (nth a detections d0)) (tvec (nth b detections d0))
          else false
      | None => false
      end
  | _ => false
  end.

(** ** The pipeline *)

(** A call either returns or raises.  The only call of the loop body that is
    modelled as raising is [os.makedirs] (line 275): nothing between it and
    the [try ... finally] of lines 308-518 catches the exception, so it ends
    the main loop. *)
Inductive Outcome (A : Type) : Type :=
| Done (a : A)
| Raised.

Arguments Done {A}.
Arguments Raised {A}.

(** [_ensure_clip_dir] (lines 269-276); the path it returns only names the
    file, which [named_at] stands for.  [makedirs_ok] tells whether
    [os.makedirs(out_dir, exist_ok=True)] returns. *)
Definition _ensure_clip_dir (makedirs_ok : bool) : Outcome unit :=
  if makedirs_ok then Done tt else Raised.

Section Pipeline.

(** Pixel buffers (with their overlays) are opaque. *)
Variable Frame : Type.
Variables w h : Z.
Variable Rodrigues : Vec3 -> Mat3.
Variable arctan2 : R -> R -> R.

(** An opened [cv2.VideoWriter]: the time its file name is formatted from,
    the frame size, and the frames written so far. *)
Record VideoWriter : Type := mkVideoWriter {
  named_at : R;
  frame_size : Z * Z;
  written : list Frame
}.

(** [prebuffer], [clip_active], [clip_writer]; [released] lists the sinks
    closed so far, oldest first. *)
Record ClipState : Type := mkClipState {
  prebuffer : list (R * Frame);
  clip_active : bool;
  clip_writer : option VideoWriter;
  released : list VideoWriter
}.

Record State : Type := mkState {
  hist : PoseHistory;
  coll : CollisionState;
  clip : ClipState
}.

(** What one iteration reads from the outside: [time.time()], the face
    mesh result ([[]] when [multi_face_landmarks] is [None] or empty), the
    frame as it is when pushed to the buffer, and whether a
    [cv2.VideoWriter] opened in this iteration [isOpened()]. *)
Record FrameInput : Type := mkFrameInput {
  now : R;
  multi_face_landmarks : list Face;
  rendered : Frame;
  writer_opens : bool
}.

(** *** First pass (lines 329-379) *)

Fixpoint first_pass (idx : nat) (faces : list Face) : list Detection :=
  match faces with
  | [] => []
  | face :: rest =>
      let bb := hitbox w h (face_landmarks face) in
      if negb (pnp_success face) then first_pass (S idx) rest
      else
        let angles := rotationVectorToEuler Rodrigues arctan2 (pnp_rvec face) in
        mkDetection idx bb (pnp_rvec face) (pnp_tvec face)
          (fst (fst angles)) (snd (fst angles)) (snd angles)
        :: first_pass (S idx) rest
  end.

(** *** Velocities (lines 403-411) *)

Definition ang_vel_of (prev_rvec : option Vec3) (dt : R) (dd : Detection)
  : option (R * R * R) :=
  match prev_rvec with
  | Some pr =>
      if Rltb 1e-6 dt then
        let prev_angles := rotationVectorToEuler Rodrigues arctan2 pr in
        Some (Rabs (pitch dd - fst (fst prev_angles)) / dt,
              Rabs (yaw dd - snd (fst prev_angles)) / dt,
              Rabs (roll dd - snd prev_angles) / dt)
      else None
  | None => None
  end.

Definition trans_vel_of (prev_tvec : option Vec3) (dt : R) (dd : Detection)
  : option R :=
  match prev_tvec with
  | Some pt =>
      if Rltb 1e-6 dt then Some (norm (vsub (tvec dd) pt) / dt) else None
  | None => None
  end.

(** One iteration of [for dd in detections] (lines 388-450). *)
Definition second_pass_step (now_ dt : R)
    (acc : PoseHistory * list Kinematics) (dd : Detection)
  : PoseHistory * list Kinematics :=
  let '(hs, outs) := acc in
  let prev_rvec := nth (fi dd) (prev_rvecs hs) None in
  let prev_tvec := nth (fi dd) (prev_tvecs hs) None in
  let k := mkKinematics (fi dd)
             (ang_vel_of prev_rvec dt dd) (trans_vel_of prev_tvec dt dd) in
  (mkPoseHistory
     (list_assign (prev_rvecs hs) (fi dd) (Some (rvec dd)))
     (list_assign (prev_tvecs hs) (fi dd) (Some (tvec dd)))
     now_,
   outs ++ [k]).

Definition second_pass (now_ dt : R) (hs : PoseHistory)
    (detections : list Detection) : PoseHistory * list Kinematics :=
  fold_left (second_pass_step now_ dt) detections (hs, []).

(** *** Clip recorder (lines 278-305) *)

Definition in_window (min_ts now_ts : R) (e : R * Frame) : bool :=
  Rleb min_ts (fst e) && Rleb (fst e) now_ts.

Definition _start_collision_clip (now_ts : R) (size : Z * Z)
    (makedirs_ok opens : bool) (cs : ClipState) : Outcome (ClipState * bool) :=
  match _ensure_clip_dir makedirs_ok with
  | Raised => Raised
  | Done _ =>
      if negb opens then Done (cs, false)
      else
        let min_ts := now_ts - CLIP_PRE_SECONDS in
        let writer :=
          mkVideoWriter now_ts size
            (map snd (filter (in_window min_ts now_ts) (prebuffer cs))) in
        Done (mkClipState (prebuffer cs) true (Some writer) (released cs), true)
  end.

Definition _finish_collision_clip (cs : ClipState) : ClipState :=
  if clip_active cs then
    match clip_writer cs with
    | Some wr => mkClipState (prebuffer cs) false None (released cs ++ [wr])
    | None => cs
    end
  else cs.

(** *** Ring buffer (lines 499-502) *)

Definition max_pre_frames : Z :=
  Z.max 1 (python_int (CLIP_PRE_SECONDS * clip_fps)).

(** [while len(prebuffer) > max_pre_frames: prebuffer.popleft()]; returns
    the entries popped, in the order they were popped, and what stays.  The
    loop never pops from an empty deque, [max_pre_frames] being at least 1. *)
Fixpoint evict (buf : list (R * Frame)) : list (R * Frame) * list (R * Frame) :=
  match buf with
  | [] => ([], [])
  | e :: tl =>
      if (max_pre_frames <? Z.of_nat (length buf))%Z then
        let '(popped, kept) := evict tl in (e :: popped, kept)
      else ([], buf)
  end.

Definition push (buf : list (R * Frame)) (ts : R) (fr : Frame)
  : list (R * Frame) * list (R * Frame) :=
  evict (buf ++ [(ts, fr)]).

(** *** One iteration of the main loop (lines 310-502) *)

(** Lines 485-487: the clip of a confirmation, started and finished at once. *)
Definition clip_on_confirmation (now_ : R) (makedirs_ok opens : bool)
    (cs : ClipState) : Outcome (ClipState * option bool) :=
  if negb (clip_active cs) then
    match _start_collision_clip now_ (w, h) makedirs_ok opens cs with
    | Raised => Raised
    | Done res =>
        Done (if snd res then _finish_collision_clip (fst res) else fst res,
              Some (snd res))
    end
  else Done (cs, None).

(** Lines 382-496, entered with a non-empty [detections].  When the clip
    raises, [collision_count] has been incremented (line 483) and line 488
    has not run; the variables are not looked at again. *)
Definition detections_block (now_ dt : R) (makedirs_ok opens : bool)
    (detections : list Detection) (st : State) : Outcome (State * FrameOutput) :=
  let pass := second_pass now_ dt (hist st) detections in
  let raw := is_collision_now detections in
  let conf := temporal_confirmation raw (coll st) in
  if snd conf then
    match clip_on_confirmation now_ makedirs_ok opens (clip st) with
    | Raised => Raised
    | Done res =>
        Done (mkState (fst pass) (fst conf) (fst res),
              mkFrameOutput (snd pass) (Some raw) true (snd res))
    end
  else
    Done (mkState (fst pass) (fst conf) (clip st),
          mkFrameOutput (snd pass) (Some raw) false None).

(** Lines 319-496. *)
Definition faces_block (now_ dt : R) (makedirs_ok opens : bool)
    (faces : list Face) (st : State) : Outcome (State * FrameOutput) :=
  match faces with
  | [] => Done (st, no_output)
  | _ :: _ =>
      let num_faces := length faces in
      let hs0 := mkPoseHistory (pad_none (prev_rvecs (hist st)) num_faces)
                               (pad_none (prev_tvecs (hist st)) num_faces)
                               (prev_time (hist st)) in
      let st0 := mkState hs0 (coll st) (clip st) in
      let detections := first_pass 0 faces in
      match detections with
      | [] => Done (st0, no_output)
      | _ :: _ => detections_block now_ dt makedirs_ok opens detections st0
      end
  end.

(** The body of [while True] for one captured frame; [makedirs_ok] is the
    outcome [os.makedirs] would have in this iteration. *)
Definition loop_iteration (makedirs_ok : bool) (st : State) (fr : FrameInput)
  : Outcome (State * FrameOutput) :=
  let dt := now fr - prev_time (hist st) in
  match faces_block (now fr) dt makedirs_ok (writer_opens fr)
          (multi_face_landmarks fr) st with
  | Raised => Raised
  | Done res =>
      let st1 := fst res in
      let kept := snd (push (prebuffer (clip st1)) (now fr) (rendered fr)) in
      Done (mkState (hist st1) (coll st1)
              (mkClipState kept (clip_active (clip st1)) (clip_writer (clip st1))
                 (released (clip st1))),
            snd res)
  end.

(** The main loop over the captured frames, each with the outcome
    [os.makedirs] would have: the state at the top of the loop when the
    frames are exhausted, or [Raised] when an iteration raised. *)
Fixpoint main_loop (st : State) (inputs : list (bool * FrameInput))
  : Outcome State :=
  match inputs with
  | [] => Done st
  | (makedirs_ok, fr) :: rest =>
      match loop_iteration makedirs_ok st fr with
      | Raised => Raised
      | Done res => main_loop (fst res) rest
      end
  end.

(** An iteration that completes, by components: with [os.makedirs]
    returning the body never raises (lemma [loop_iteration_completes], so the
    second branch is never taken), and an iteration that completes although
    [os.makedirs] would raise has not called it (lemma
    [loop_iteration_outcome]). *)
Definition process_frame (st : State) (fr : FrameInput) : State * FrameOutput :=
  let res :=
    match loop_iteration true st fr with
    | Done res => res
    | Raised => (st, no_output)
    end in
  (fst res, snd res).

(** State at the top of the main loop before the first iteration; [t0] is
    the [time.time()] of line 130. *)
Definition initial_state (t0 : R) : State :=
  mkState (mkPoseHistory [] [] t0)
          initial_collision_state
          (mkClipState [] false None []).

(** One record per completed iteration: state before, input, output, state
    after. *)
Record Step : Type := mkStep {
  pre : State;
  input : FrameInput;
  output : FrameOutput;
  post : State
}.

Fixpoint trace (st : State) (frames : list FrameInput) : list Step :=
  match frames with
  | [] => []
  | fr :: rest =>
      let '(st', out) := process_frame st fr in
      mkStep st fr out st' :: trace st' rest
  end.

Definition run (st : State) (frames : list FrameInput) : State :=
  fold_left (fun s fr => fst (process_frame s fr)) frames st.

(** The successfully posed faces of a frame. *)
Definition detections_of (fr : FrameInput) : list Detection :=
  first_pass 0 (multi_face_landmarks fr).

End Pipeline.

Arguments mkVideoWriter {Frame}.
Arguments named_at {Frame}.
Arguments frame_size {Frame}.
Arguments written {Frame}.
Arguments mkClipState {Frame}.
Arguments prebuffer {Frame}.
Arguments clip_active {Frame}.
Arguments clip_writer {Frame}.
Arguments released {Frame}.
Arguments mkState {Frame}.
Arguments hist {Frame}.
Arguments coll {Frame}.
Arguments clip {Frame}.
Arguments mkFrameInput {Frame}.
Arguments now {Frame}.
Arguments multi_face_landmarks {Frame}.
Arguments rendered {Frame}.
Arguments writer_opens {Frame}.
Arguments mkStep {Frame}.
Arguments pre {Frame}.
Arguments input {Frame}.
Arguments output {Frame}.
Arguments post {Frame}.
Arguments in_window {Frame}.
Arguments _start_collision_clip {Frame}.
Arguments _finish_collision_clip {Frame}.
Arguments evict {Frame}.
Arguments push {Frame}.
Arguments clip_on_confirmation {Frame}.
Arguments detections_block {Frame}.
Arguments faces_block {Frame}.
Arguments loop_iteration {Frame}.
Arguments main_loop {Frame}.
Arguments process_frame {Frame}.
Arguments initial_state {Frame}.
Arguments trace {Frame}.
Arguments run {Frame}.
Arguments detections_of {Frame}.

(** ** Overlay geometry and alerts (lines 181-243, 364-385 and 437-444)

    Of the drawing code only the integer geometry is kept: which rectangle
    of the frame [draw_helmet] blends into and which part of the resized
    helmet image it reads.  Pixel values are not modelled. *)

Definition HELMET_Y_OFFSET : R := 0.12.
Definition ANGULAR_VEL_THRESHOLD : R := 40.0.
Definition TRANSLATION_THRESHOLD : R := 50.0.

(** Lines 365-368: [(tentative_w, tentative_h)] of a face box. *)
Definition tentative_size (bb : Box) : Z * Z :=
  let '(x_min, y_min, x_max, y_max) := bb in
  let bw := (x_max - x_min)%Z in
  let bh := (y_max - y_min)%Z in
  (Z.max 1 (python_int ((IZR bw * 0.9) * 2.0)),
   Z.max 1 (python_int ((IZR bh * 0.6) * 2.0))).

(** Lines 383-385: the two [max(... for d in detections)] of a non-empty
    list of detections. *)
Definition common_size (d : Detection) (ds : list Detection) : Z * Z :=
  (fold_left Z.max (map (fun x => fst (tentative_size (bbox x))) ds)
     (fst (tentative_size (bbox d))),
   fold_left Z.max (map (fun x => snd (tentative_size (bbox x))) ds)
     (snd (tentative_size (bbox d)))).

(** What [draw_helmet] blends: the size the helmet image is resized to, the
    rectangle [img[y0:y1, x0:x1]] written, and the corner
    [(x0 - top_left_x, y0 - top_left_y)] of the slice read from the resized
    helmet (the slice has the size of the rectangle). *)
Record HelmetBlend : Type := mkHelmetBlend {
  resized_to : Z * Z;
  roi : Box;
  crop_corner : Z * Z
}.

(** [draw_helmet] on an image of [img_w] by [img_h] pixels; [helm_loaded]
    says whether the helmet image chosen by [helmet_idx] is not [None].
    [None]: nothing is drawn. *)
Definition draw_helmet (img_w img_h : Z) (bb : Box) (helm_loaded : bool)
    (target_size : option (Z * Z)) : option HelmetBlend :=
  let '(x_min, y_min, x_max, y_max) := bb in
  let bw := (x_max - x_min)%Z in
  let bh := (y_max - y_min)%Z in
  let cx := python_int (IZR (x_min + x_max) / 2) in
  let cy := python_int (IZR y_min + IZR bh * (0.05 + HELMET_Y_OFFSET)) in
  let helm_w := python_int (IZR bw * 0.9) in
  let helm_h := python_int (IZR bh * 0.6) in
  if helm_loaded then
    let target :=
      match target_size with
      | Some ts => ts
      | None => (Z.max 1 (python_int (IZR helm_w * 2.0)),
                 Z.max 1 (python_int (IZR helm_h * 2.0)))
      end in
    let target_w := fst target in
    let target_h := snd target in
    let top_left_x := python_int (IZR cx - IZR target_w / 2) in
    let top_left_y := python_int (IZR cy - IZR target_h / 2) in
    let x0 := Z.max 0 top_left_x in
    let y0 := Z.max 0 top_left_y in
    let x1 := Z.min img_w (top_left_x + target_w) in
    let y1 := Z.min img_h (top_left_y + target_h) in
    let roi_w := (x1 - x0)%Z in
    let roi_h := (y1 - y0)%Z in
    if (0 <? roi_w)%Z && (0 <? roi_h)%Z then
      Some (mkHelmetBlend (target_w, target_h) (x0, y0, x1, y1)
              (x0 - top_left_x, y0 - top_left_y)%Z)
    else None
  else None.

(** Lines 438-444: the two alert tests on the velocities of a detection. *)
Definition rotation_alert (k : Kinematics) : bool :=
  match ang_vel k with
  | Some (a, b, c) => Rltb ANGULAR_VEL_THRESHOLD (Rmax a (Rmax b c))
  | None => false
  end.

Definition translation_alert (k : Kinematics) : bool :=
  match trans_vel k with
  | Some v => Rltb TRANSLATION_THRESHOLD v
  | None => false
  end.

Definition alert (k : Kinematics) : bool :=
  rotation_alert k || translation_alert k.


(** ** Notions used by the statements *)

(** Newest timestamp minus oldest timestamp of a buffer. *)
Definition duration {Frame : Type} (buf : list (R * Frame)) : R :=
  match buf with
  | [] => 0
  | e :: _ => fst (last buf e) - fst e
  end.

(** Lexicographic order on index pairs: the order the two loops visit them. *)
Definition visited_before (p q : nat * nat) : Prop :=
  (fst p < fst q)%nat \/ (fst p = fst q /\ (snd p < snd q)%nat).

(** The slot's stored pose is missing (first sighting). *)
Definition no_previous_pose (hs : PoseHistory) (slot : nat) : Prop :=
  nth slot (prev_rvecs hs) None = None.

(** No frame of [frames] has a posed face in slot [slot]. *)
Definition never_posed {Frame : Type} (w h : Z) (Rodrigues : Vec3 -> Mat3)
    (arctan2 : R -> R -> R) (frames : list (FrameInput Frame)) (slot : nat)
  : Prop :=
  forall f d,
    In f frames -> In d (detections_of w h Rodrigues arctan2 f) -> fi d <> slot.

(** Intersection over union as the specification words it: the area two
    rectangles share over the area they cover together, a rectangle without
    interior having area 0, and 0 when they share nothing. *)
Definition rect_area (b : Box) : Z :=
  let '(x1, y1, x2, y2) := b in
  if (x1 <? x2)%Z && (y1 <? y2)%Z then ((x2 - x1) * (y2 - y1))%Z else 0%Z.

Definition rect_meet (a b : Box) : Box :=
  let '(ax1, ay1, ax2, ay2) := a in
  let '(bx1, by1, bx2, by2) := b in
  (Z.max ax1 bx1, Z.max ay1 by1, Z.min ax2 bx2, Z.min ay2 by2).

Definition intersection_over_union (a b : Box) : R :=
  let shared := rect_area (rect_meet a b) in
  let covered := (rect_area a + rect_area b - shared)%Z in
  if (shared =? 0)%Z then 0 else IZR shared / IZR covered.

(** The sink [_start_collision_clip] fills when it opens: named after
    [now_ts], holding the buffered frames of the window in buffer order. *)
Definition clip_of {Frame : Type} (size : Z * Z) (now_ts : R)
    (buf : list (R * Frame)) : VideoWriter Frame :=
  mkVideoWriter now_ts size
    (map snd (filter (in_window (now_ts - CLIP_PRE_SECONDS) now_ts) buf)).

(** No sink is open: the state of the recorder between two iterations. *)
Definition recorder_idle {Frame : Type} (cs : ClipState Frame) : Prop :=
  clip_active cs = false /\ clip_writer cs = None.

(** What the second pass reports for [dd] when slot [fi dd] is looked up in
    the history [hs] the iteration started with. *)
Definition slot_kinematics (Rodrigues : Vec3 -> Mat3) (arctan2 : R -> R -> R)
    (hs : PoseHistory) (dt : R) (dd : Detection) : Kinematics :=
  mkKinematics (fi dd)
    (ang_vel_of Rodrigues arctan2 (nth (fi dd) (prev_rvecs hs) None) dt dd)
    (trans_vel_of (nth (fi dd) (prev_tvecs hs) None) dt dd).

(** The stores of lines 448-450, one detection after the other. *)
Definition store_pose (now_ : R) (hs : PoseHistory) (dd : Detection) : PoseHistory :=
  mkPoseHistory
    (list_assign (prev_rvecs hs) (fi dd) (Some (rvec dd)))
    (list_assign (prev_tvecs hs) (fi dd) (Some (tvec dd)))
    now_.

Definition pad_history (hs : PoseHistory) (n : nat) : PoseHistory :=
  mkPoseHistory (pad_none (prev_rvecs hs) n) (pad_none (prev_tvecs hs) n)
    (prev_time hs).

(** Both per-slot lists have the same shape. *)
Definition history_aligned (hs : PoseHistory) : Prop :=
  length (prev_rvecs hs) = length (prev_tvecs hs) /\
  forall i, nth i (prev_rvecs hs) None = None <-> nth i (prev_tvecs hs) None = None.

(** A box that lies inside a [w] by [h] image, with ordered corners. *)
Definition within_frame (w h : Z) (b : Box) : Prop :=
  let '(x_min, y_min, x_max, y_max) := b in
  (0 <= x_min <= x_max /\ x_max <= w - 1 /\
   0 <= y_min <= y_max /\ y_max <= h - 1)%Z.

(** The pixel [(x, y)] lies in the box, borders included. *)
Definition box_contains (b : Box) (x y : Z) : Prop :=
  let '(x_min, y_min, x_max, y_max) := b in
  (x_min <= x <= x_max /\ y_min <= y <= y_max)%Z.


(** The rectangle blended lies in the image and is not empty, and the slice
    read from the resized helmet lies inside it. *)
Definition blend_in_bounds (img_w img_h : Z) (b : HelmetBlend) : Prop :=
  let '(x0, y0, x1, y1) := roi b in
  (0 <= x0 < x1 /\ x1 <= img_w /\ 0 <= y0 < y1 /\ y1 <= img_h /\
   0 <= fst (crop_corner b) /\
   fst (crop_corner b) + (x1 - x0) <= fst (resized_to b) /\
   0 <= snd (crop_corner b) /\
   snd (crop_corner b) + (y1 - y0) <= snd (resized_to b))%Z.


(** ** Sample inputs of the closed examples

    A 640 by 480 stream of opaque frames; two faces whose meshes coincide on
    screen and whose poses are 100 mm apart in depth.  [Rodrigues_fixed] and
    [half_angle_arctan2] stand in for the two external functions where an
    example needs closed terms. *)

Definition sample_landmarks : LandmarkSet :=
  mkLandmarkSet (mkLandmark 0.5 0.5) [].

Definition Rodrigues_fixed : Vec3 -> Mat3 :=
  fun _ i j => if Nat.eqb i j then 1 else 0.

(** The matrix of a quarter turn about the vertical axis: gimbal lock. *)
Definition Rodrigues_gimbal : Vec3 -> Mat3 :=
  fun _ i j =>
    match i, j with
    | 0%nat, 2%nat => 1
    | 1%nat, 1%nat => 1
    | 2%nat, 0%nat => -1
    | _, _ => 0
    end.

Definition half_angle_arctan2 (y x : R) : R :=
  2 * atan (y / (sqrt (x * x + y * y) + x)).

Definition face_near : Face :=
  mkFace sample_landmarks true (mkVec3 0 0 0) (mkVec3 0 0 500).

Definition face_side : Face :=
  mkFace sample_landmarks true (mkVec3 0 0 0) (mkVec3 100 0 600).

Definition face_side_later : Face :=
  mkFace sample_landmarks true (mkVec3 0 0 0) (mkVec3 100 0 900).

Definition frame_two_faces (t : R) : FrameInput unit :=
  mkFrameInput t [face_near; face_side] tt true.

(** The same two faces, in an iteration where the clip file cannot be opened. *)
Definition frame_two_faces_locked (t : R) : FrameInput unit :=
  mkFrameInput t [face_near; face_side] tt false.

Definition frame_one_face (t : R) : FrameInput unit :=
  mkFrameInput t [face_near] tt true.

Definition frame_no_face (t : R) : FrameInput unit :=
  mkFrameInput t [] tt true.

Definition frame_two_faces_later (t : R) : FrameInput unit :=
  mkFrameInput t [face_near; face_side_later] tt true.

(** Contact, contact, nobody in view, contact, contact. *)
Definition stream_with_empty_frame : list (FrameInput unit) :=
  [frame_two_faces 1; frame_two_faces 2; frame_no_face 3;
   frame_two_faces 4; frame_two_faces 5].

(** Seven frames with a posed face each, whose raw tests are
    [false, true, true, false, true, true, true]. *)
Definition stream_of_seven : list (FrameInput unit) :=
  [frame_one_face 1; frame_two_faces 2; frame_two_faces 3; frame_one_face 4;
   frame_two_faces 5; frame_two_faces 6; frame_two_faces 7].

Definition sample_step := process_frame (Frame:=unit) 640 480 Rodrigues_fixed half_angle_arctan2.
Definition sample_run := run (Frame:=unit) 640 480 Rodrigues_fixed half_angle_arctan2.
Definition sample_detections :=
  detections_of (Frame:=unit) 640 480 Rodrigues_fixed half_angle_arctan2.

(** * Properties *)

(** ** Comparisons *)

Lemma Rltb_true_iff (x y : R) : Rltb x y = true <-> x < y.
Proof.
  unfold Rltb. destruct (Rlt_dec x y); split; intros; auto; discriminate.
Qed.

Lemma Rltb_false_iff (x y : R) : Rltb x y = false <-> y <= x.
Proof.
  unfold Rltb. destruct (Rlt_dec x y); split; intros; auto; try discriminate; lra.
Qed.

Lemma Rleb_true_iff (x y : R) : Rleb x y = true <-> x <= y.
Proof.
  unfold Rleb. destruct (Rle_dec x y); split; intros; auto; discriminate.
Qed.

Lemma Rleb_false_iff (x y : R) : Rleb x y = false <-> y < x.
Proof.
  unfold Rleb. destruct (Rle_dec x y); split; intros; auto; try discriminate; lra.
Qed.

Lemma python_int_IZR (z : Z) : python_int (IZR z) = z.
Proof.
  unfold python_int. destruct (Rle_dec 0 (IZR z)).
  - apply ZfloorZ.
  - unfold Zceil. replace (- IZR z) with (IZR (- z)) by (rewrite opp_IZR; ring).
    rewrite ZfloorZ. lia.
Qed.

Lemma python_int_nonneg (x : R) : 0 <= x -> python_int x = Zfloor x.
Proof.
  intros Hx. unfold python_int. destruct (Rle_dec 0 x); [reflexivity | contradiction].
Qed.

Lemma max_pre_frames_value : max_pre_frames = 100%Z.
Proof.
  unfold max_pre_frames, CLIP_PRE_SECONDS, clip_fps.
  replace (5.0 * 20.0) with (IZR 100) by lra.
  rewrite python_int_IZR. reflexivity.
Qed.

(** ** Hit boxes *)

Lemma column_min_le_max_from (zs : list Z) :
  forall a b : Z, (a <= b)%Z -> (fold_left Z.min zs a <= fold_left Z.max zs b)%Z.
Proof.
  induction zs as [| z zs IH]; intros a b Hab; cbn.
  - exact Hab.
  - apply IH. lia.
Qed.

Lemma column_min_le_max (z : Z) (zs : list Z) :
  (column_min z zs <= column_max z zs)%Z.
Proof.
  unfold column_min, column_max. apply column_min_le_max_from. lia.
Qed.

Lemma np_clip_bounds (x lo hi : R) : lo <= hi -> lo <= np_clip x lo hi <= hi.
Proof.
  intros Hlh. unfold np_clip, Rmin, Rmax.
  destruct (Rle_dec x lo); destruct (Rle_dec _ hi); lra.
Qed.

Lemma np_clip_mono (x y lo hi : R) :
  x <= y -> np_clip x lo hi <= np_clip y lo hi.
Proof.
  intros Hxy. unfold np_clip, Rmin, Rmax.
  destruct (Rle_dec x lo); destruct (Rle_dec y lo);
    repeat match goal with |- context [Rle_dec ?a ?b] => destruct (Rle_dec a b) end;
    lra.
Qed.

(** One axis of the clamped box: both ends inside [0, n-1], in order. *)
Lemma clipped_axis (n : Z) (c half : R) :
  (1 <= n)%Z -> 0 <= half ->
  (0 <= python_int (np_clip (c - half) 0 (IZR (n - 1)))
     <= python_int (np_clip (c + half) 0 (IZR (n - 1))) /\
   python_int (np_clip (c + half) 0 (IZR (n - 1))) <= n - 1)%Z.
Proof.
  intros Hn Hhalf.
  assert (Hhi : 0 <= IZR (n - 1)) by (apply IZR_le; lia).
  pose proof (np_clip_bounds (c - half) 0 (IZR (n - 1)) Hhi) as [Ha0 Ha1].
  pose proof (np_clip_bounds (c + half) 0 (IZR (n - 1)) Hhi) as [Hb0 Hb1].
  assert (Hab : np_clip (c - half) 0 (IZR (n - 1)) <= np_clip (c + half) 0 (IZR (n - 1)))
    by (apply np_clip_mono; lra).
  rewrite !python_int_nonneg by assumption.
  repeat split.
  - apply Zfloor_lub. exact Ha0.
  - apply Zfloor_le. exact Hab.
  - pose proof (Zfloor_le _ _ Hb1) as Hfl. rewrite ZfloorZ in Hfl. exact Hfl.
Qed.

(** C10. In a frame of width [w] and height [h] (an image: both at least
    one pixel), the hit box of every face satisfies
    [0 <= x_min <= x_max <= w-1] and [0 <= y_min <= y_max <= h-1]; so does
    the box of every detection the first pass collects. *)
Theorem hitbox_within_frame :
  forall (w h : Z), (1 <= w)%Z -> (1 <= h)%Z ->
    (forall ls : LandmarkSet, within_frame w h (hitbox w h ls)) /\
    (forall Rodrigues arctan2 idx faces d,
        In d (first_pass w h Rodrigues arctan2 idx faces) ->
        within_frame w h (bbox d)).
Proof.
  intros w h Hw Hh.
  assert (Hbox : forall ls : LandmarkSet, within_frame w h (hitbox w h ls)).
  { intros ls. unfold within_frame, hitbox.
    set (xlo := column_min (x_px w (lm_first ls)) (map (x_px w) (lm_others ls))).
    set (xhi := column_max (x_px w (lm_first ls)) (map (x_px w) (lm_others ls))).
    set (ylo := column_min (y_px h (lm_first ls)) (map (y_px h) (lm_others ls))).
    set (yhi := column_max (y_px h (lm_first ls)) (map (y_px h) (lm_others ls))).
    assert (Hx : IZR (xlo - BOX_PADDING) <= IZR (xhi + BOX_PADDING)).
    { apply IZR_le. pose proof (column_min_le_max (x_px w (lm_first ls))
                                  (map (x_px w) (lm_others ls))).
      unfold BOX_PADDING. fold xlo xhi in H. lia. }
    assert (Hy : IZR (ylo - BOX_PADDING) <= IZR (yhi + BOX_PADDING)).
    { apply IZR_le. pose proof (column_min_le_max (y_px h (lm_first ls))
                                  (map (y_px h) (lm_others ls))).
      unfold BOX_PADDING. fold ylo yhi in H. lia. }
    assert (Hhw : 0 <= 0.5 * (IZR (xhi + BOX_PADDING) - IZR (xlo - BOX_PADDING)) * HITBOX_SCALE)
      by (unfold HITBOX_SCALE; nra).
    assert (Hhh : 0 <= 0.5 * (IZR (yhi + BOX_PADDING) - IZR (ylo - BOX_PADDING)) * HITBOX_SCALE)
      by (unfold HITBOX_SCALE; nra).
    pose proof (clipped_axis w
                  (0.5 * (IZR (xlo - BOX_PADDING) + IZR (xhi + BOX_PADDING)))
                  _ Hw Hhw) as Hxs.
    pose proof (clipped_axis h
                  (0.5 * (IZR (ylo - BOX_PADDING) + IZR (yhi + BOX_PADDING)))
                  _ Hh Hhh) as Hys.
    cbv zeta. split; [apply Hxs |]. split; [apply Hxs |].
    split; [apply Hys | apply Hys]. }
  split; [exact Hbox |].
  intros Rodrigues arctan2 idx faces. revert idx.
  induction faces as [| face rest IH]; intros idx d Hin; cbn in Hin.
  - contradiction.
  - destruct (pnp_success face); cbn in Hin.
    + destruct Hin as [<- | Hin]; [apply Hbox | eapply IH; exact Hin].
    + eapply IH; exact Hin.
Qed.


(** ** The sample inputs, evaluated *)

Lemma np_clip_inside (x lo hi : R) : lo <= x <= hi -> np_clip x lo hi = x.
Proof.
  intros [Hlo Hhi]. unfold np_clip, Rmin, Rmax.
  destruct (Rle_dec x lo); destruct (Rle_dec _ hi); lra.
Qed.

Lemma sample_hitbox :
  hitbox 640 480 sample_landmarks = (296, 216, 344, 264)%Z.
Proof.
  unfold hitbox, sample_landmarks, x_px, y_px, column_min, column_max,
    BOX_PADDING, HITBOX_SCALE.
  cbn [lm_first lm_others lm_x lm_y map fold_left].
  replace (0.5 * IZR 640) with (IZR 320) by lra.
  replace (0.5 * IZR 480) with (IZR 240) by lra.
  rewrite !python_int_IZR.
  change (320 - 20)%Z with 300%Z. change (320 + 20)%Z with 340%Z.
  change (240 - 20)%Z with 220%Z. change (240 + 20)%Z with 260%Z.
  change (640 - 1)%Z with 639%Z. change (480 - 1)%Z with 479%Z.
  rewrite !np_clip_inside by lra.
  replace (0.5 * (300 + 340) - 0.5 * (340 - 300) * 1.2) with (IZR 296) by lra.
  replace (0.5 * (300 + 340) + 0.5 * (340 - 300) * 1.2) with (IZR 344) by lra.
  replace (0.5 * (220 + 260) - 0.5 * (260 - 220) * 1.2) with (IZR 216) by lra.
  replace (0.5 * (220 + 260) + 0.5 * (260 - 220) * 1.2) with (IZR 264) by lra.
  rewrite !python_int_IZR. reflexivity.
Qed.

(** C10, at the sample landmarks in a 640 by 480 frame. *)
Lemma hitbox_within_frame_witness :
  within_frame 640 480 (hitbox 640 480 sample_landmarks).
Proof.
  apply (hitbox_within_frame 640 480); lia.
Defined.


(** ** The scan for the best pair *)

Lemma visited_before_irrefl (p : nat * nat) : ~ visited_before p p.
Proof. unfold visited_before. lia. Qed.

Lemma visited_before_asym (p q : nat * nat) :
  visited_before p q -> ~ visited_before q p.
Proof. unfold visited_before. lia. Qed.

Lemma visited_before_total (p q : nat * nat) :
  p = q \/ visited_before p q \/ visited_before q p.
Proof.
  destruct p as [a b], q as [c d]. unfold visited_before. cbn.
  destruct (Nat.eq_dec a c) as [-> | Hac]; destruct (Nat.eq_dec b d) as [-> | Hbd];
    auto; right; lia.
Qed.

Lemma in_pairs (n i j : nat) : In (i, j) (pairs n) <-> (i < j < n)%nat.
Proof.
  unfold pairs. rewrite in_flat_map. split.
  - intros (i' & Hi' & Hin). apply in_map_iff in Hin as (j' & Heq & Hj').
    injection Heq as <- <-. apply in_seq in Hi'. apply in_seq in Hj'. lia.
  - intros Hij. exists i. split; [apply in_seq; lia |].
    apply in_map_iff. exists j. split; [reflexivity | apply in_seq; lia].
Qed.

Lemma sorted_app {A : Type} (Rel : A -> A -> Prop) (l1 l2 : list A) :
  StronglySorted Rel l1 -> StronglySorted Rel l2 ->
  (forall x y, In x l1 -> In y l2 -> Rel x y) ->
  StronglySorted Rel (l1 ++ l2).
Proof.
  intros H1 H2 Hcross. induction H1 as [| x l1 Hs IH Hall]; cbn.
  - exact H2.
  - constructor.
    + apply IH. intros a b Ha Hb. apply Hcross; [right; exact Ha | exact Hb].
    + apply Forall_app. split; [exact Hall |].
      apply Forall_forall. intros y Hy. apply Hcross; [left; reflexivity | exact Hy].
Qed.

Lemma sorted_split {A : Type} (Rel : A -> A -> Prop) (l1 l2 : list A) (p : A) :
  StronglySorted Rel (l1 ++ p :: l2) -> forall q, In q l2 -> Rel p q.
Proof.
  induction l1 as [| x l1 IH]; cbn; intros Hs q Hq.
  - apply StronglySorted_inv in Hs as [_ Hall].
    rewrite Forall_forall in Hall. apply Hall, Hq.
  - apply StronglySorted_inv in Hs as [Hs _]. apply IH; assumption.
Qed.

Lemma row_sorted (i : nat) :
  forall len start, StronglySorted visited_before (map (fun j => (i, j)) (seq start len)).
Proof.
  induction len as [| len IH]; intros start; cbn; constructor.
  - apply IH.
  - apply Forall_forall. intros q Hq. apply in_map_iff in Hq as (j & <- & Hj).
    apply in_seq in Hj. right. cbn. lia.
Qed.

Lemma rows_sorted (n : nat) :
  forall len start,
    StronglySorted visited_before
      (flat_map (fun i => map (fun j => (i, j)) (seq (S i) (n - S i))) (seq start len)).
Proof.
  induction len as [| len IH]; intros start; cbn [seq flat_map].
  - constructor.
  - apply sorted_app; [apply row_sorted | apply IH |].
    intros x y Hx Hy. apply in_map_iff in Hx as (j & <- & Hj).
    apply in_flat_map in Hy as (i' & Hi' & Hy).
    apply in_map_iff in Hy as (j' & <- & Hj').
    apply in_seq in Hi'. left. cbn. lia.
Qed.

Lemma pairs_sorted (n : nat) : StronglySorted visited_before (pairs n).
Proof. apply rows_sorted. Qed.

(** In a split of [pairs n] at [p], what comes before [p] in the visiting
    order is exactly the left part. *)
Lemma pairs_before (n : nat) (l1 l2 : list (nat * nat)) (p q : nat * nat) :
  pairs n = l1 ++ p :: l2 ->
  In q (pairs n) -> visited_before q p -> In q l1.
Proof.
  intros Hsplit Hin Hbefore. rewrite Hsplit in Hin.
  apply in_app_or in Hin as [Hin | [<- | Hin]].
  - exact Hin.
  - exfalso. exact (visited_before_irrefl _ Hbefore).
  - exfalso. pose proof (pairs_sorted n) as Hs. rewrite Hsplit in Hs.
    exact (visited_before_asym _ _ Hbefore (sorted_split _ _ _ _ Hs q Hin)).
Qed.

(** The accumulator after the loops: an upper bound of every pair's value,
    and either untouched or set at the first pair that reaches it. *)
Lemma scan_fold (f : nat * nat -> R) (l : list (nat * nat)) :
  forall (m0 : R) (b0 : option (nat * nat)),
    (forall p, In p l -> f p <= fst (fold_left (scan_pair f) l (m0, b0))) /\
    m0 <= fst (fold_left (scan_pair f) l (m0, b0)) /\
    (fold_left (scan_pair f) l (m0, b0) = (m0, b0) \/
     exists l1 p l2,
       l = l1 ++ p :: l2 /\
       fold_left (scan_pair f) l (m0, b0) = (f p, Some p) /\
       m0 < f p /\
       forall q, In q l1 -> f q < f p).
Proof.
  induction l as [| a l IH]; intros m0 b0; cbn [fold_left].
  - split; [intros p [] |]. split; [cbn; lra | left; reflexivity].
  - unfold scan_pair at 2 4 6 8. cbn [fst].
    destruct (Rltb m0 (f a)) eqn:Hlt.
    + apply Rltb_true_iff in Hlt.
      destruct (IH (f a) (Some a)) as (Hub & Hge & Hcase).
      split; [intros p [<- | Hp]; [exact Hge | apply Hub, Hp] |].
      split; [lra |]. right.
      destruct Hcase as [Heq | (l1 & p & l2 & Hl & Heq & Hm & Hfirst)].
      * exists [], a, l.
        split; [reflexivity |]. split; [exact Heq |]. split; [exact Hlt |].
        intros q [].
      * exists (a :: l1), p, l2. rewrite Hl.
        split; [reflexivity |]. rewrite <- Hl. split; [exact Heq |].
        split; [lra |].
        intros q [<- | Hq]; [exact Hm | apply Hfirst, Hq].
    + apply Rltb_false_iff in Hlt.
      destruct (IH m0 b0) as (Hub & Hge & Hcase).
      split; [intros p [<- | Hp]; [lra | apply Hub, Hp] |].
      split; [exact Hge |].
      destruct Hcase as [Heq | (l1 & p & l2 & Hl & Heq & Hm & Hfirst)].
      * left. exact Heq.
      * right. exists (a :: l1), p, l2. rewrite Hl.
        split; [reflexivity |]. rewrite <- Hl. split; [exact Heq |].
        split; [exact Hm |].
        intros q [<- | Hq]; [lra | apply Hfirst, Hq].
Qed.


Lemma pair_iou_nth (d0 : Detection) (dets : list Detection) (i j : nat)
    (di dj : Detection) :
  nth_error dets i = Some di -> nth_error dets j = Some dj ->
  pair_iou d0 dets (i, j) = compute_iou (bbox di) (bbox dj).
Proof.
  intros Hi Hj. unfold pair_iou. cbn [fst snd].
  rewrite (nth_error_nth _ _ d0 Hi), (nth_error_nth _ _ d0 Hj). reflexivity.
Qed.

Lemma is_close3d_true (t1 t2 : Vec3) :
  is_close3d t1 t2 = true <->
  Rabs (vz t1 - vz t2) < DEPTH_DIFF_MAX /\ norm (vsub t1 t2) < DIST_3D_MAX.
Proof.
  unfold is_close3d, zdiff, d3. rewrite andb_true_iff, !Rltb_true_iff. reflexivity.
Qed.

(** The raw test, for any list of detections. *)
Lemma is_collision_now_iff (dets : list Detection) :
  is_collision_now dets = true <->
  exists a b da db,
    (a < b)%nat /\ nth_error dets a = Some da /\ nth_error dets b = Some db /\
    (forall i j di dj,
        (i < j)%nat -> nth_error dets i = Some di -> nth_error dets j = Some dj ->
        compute_iou (bbox di) (bbox dj) <= compute_iou (bbox da) (bbox db)) /\
    (forall i j di dj,
        (i < j)%nat -> nth_error dets i = Some di -> nth_error dets j = Some dj ->
        visited_before (i, j) (a, b) ->
        compute_iou (bbox di) (bbox dj) < compute_iou (bbox da) (bbox db)) /\
    COLLISION_IOU_THRESHOLD <= compute_iou (bbox da) (bbox db) /\
    Rabs (vz (tvec da) - vz (tvec db)) < DEPTH_DIFF_MAX /\
    norm (vsub (tvec da) (tvec db)) < DIST_3D_MAX.
Proof.
  destruct dets as [| d0 [| d1 ds]].
  - split; [discriminate |].
    intros (a & b & da & db & _ & Ha & _). destruct a; discriminate.
  - split; [discriminate |].
    intros (a & b & da & db & Hab & _ & Hb & _).
    destruct b as [| [| b]]; [lia | discriminate | discriminate].
  - remember (d0 :: d1 :: ds) as dets eqn:Hdets.
    assert (Hunfold : is_collision_now dets =
              match snd (best_overlap d0 dets) with
              | Some (a, b) =>
                  if Rleb COLLISION_IOU_THRESHOLD (fst (best_overlap d0 dets)) then
                    is_close3d (tvec (nth a dets d0)) (tvec (nth b dets d0))
                  else false
              | None => false
              end).
    { rewrite Hdets. unfold is_collision_now. rewrite <- Hdets.
      destruct (best_overlap d0 dets) as [m best]. reflexivity. }
    rewrite Hunfold. clear Hunfold. unfold best_overlap.
    set (f := pair_iou d0 dets).
    destruct (scan_fold f (pairs (length dets)) 0 None) as (Hub & Hge & Hcase).
    assert (Hlookup : forall i, (i < length dets)%nat ->
                                nth_error dets i = Some (nth i dets d0))
      by (intros i Hi; apply nth_error_nth'; exact Hi).
    assert (Hinpairs : forall i j di dj, (i < j)%nat ->
              nth_error dets i = Some di -> nth_error dets j = Some dj ->
              In (i, j) (pairs (length dets)) /\
              f (i, j) = compute_iou (bbox di) (bbox dj)).
    { intros i j di dj Hij Hi Hj. split.
      - apply in_pairs. split; [exact Hij |].
        apply nth_error_Some. rewrite Hj. discriminate.
      - apply pair_iou_nth; assumption. }
    split.
    + destruct Hcase as [Heq | (l1 & p & l2 & Hl & Heq & Hm & Hfirst)];
        rewrite Heq; cbn [fst snd]; [discriminate |].
      destruct p as [a b].
      destruct (Rleb COLLISION_IOU_THRESHOLD (f (a, b))) eqn:Hthr; [| discriminate].
      intros Hclose. apply Rleb_true_iff in Hthr. apply is_close3d_true in Hclose.
      assert (Hab : In (a, b) (pairs (length dets)))
        by (rewrite Hl; apply in_elt).
      apply in_pairs in Hab.
      assert (Hfab : f (a, b) = compute_iou (bbox (nth a dets d0)) (bbox (nth b dets d0)))
        by (apply pair_iou_nth; apply Hlookup; lia).
      exists a, b, (nth a dets d0), (nth b dets d0).
      split; [lia |]. split; [apply Hlookup; lia |]. split; [apply Hlookup; lia |].
      rewrite <- Hfab. rewrite Heq in Hub. cbn [fst] in Hub.
      split.
      { intros i j di dj Hij Hi Hj.
        destruct (Hinpairs i j di dj Hij Hi Hj) as [Hin Hf].
        rewrite <- Hf. apply Hub, Hin. }
      split.
      { intros i j di dj Hij Hi Hj Hbefore.
        destruct (Hinpairs i j di dj Hij Hi Hj) as [Hin Hf].
        rewrite <- Hf. apply Hfirst.
        eapply pairs_before; eassumption. }
      split; [exact Hthr | exact Hclose].
    + intros (a & b & da & db & Hab & Ha & Hb & Hmax & Hfirst & Hthr & Hclose).
      destruct (Hinpairs a b da db Hab Ha Hb) as [Hin Hf].
      assert (Hpos : 0 < f (a, b))
        by (rewrite Hf; unfold COLLISION_IOU_THRESHOLD in Hthr; lra).
      destruct Hcase as [Heq | (l1 & p & l2 & Hl & Heq & Hm & Hbefore)].
      { exfalso. pose proof (Hub _ Hin) as Hle. rewrite Heq in Hle. cbn in Hle. lra. }
      assert (Hp : In p (pairs (length dets))) by (rewrite Hl; apply in_elt).
      assert (Hpeq : p = (a, b)).
      { destruct p as [i j]. pose proof Hp as Hij. apply in_pairs in Hij.
        pose proof (Hub _ Hin) as Hle. rewrite Heq in Hle. cbn [fst] in Hle.
        assert (Hfij : f (i, j) = compute_iou (bbox (nth i dets d0)) (bbox (nth j dets d0)))
          by (apply pair_iou_nth; apply Hlookup; lia).
        destruct (visited_before_total (i, j) (a, b)) as [Heq' | [Hlt | Hgt]].
        - exact Heq'.
        - exfalso.
          assert (Hstrict : f (i, j) < f (a, b)).
          { rewrite Hfij, Hf. apply Hfirst with (i := i) (j := j);
              [lia | apply Hlookup; lia | apply Hlookup; lia | exact Hlt]. }
          lra.
        - exfalso.
          assert (Hstrict : f (a, b) < f (i, j)).
          { apply Hbefore. eapply pairs_before; eassumption. }
          assert (Hle' : f (i, j) <= f (a, b)).
          { rewrite Hfij, Hf. apply Hmax with (i := i) (j := j);
              [lia | apply Hlookup; lia | apply Hlookup; lia]. }
          lra. }
      rewrite Heq, Hpeq. cbn [fst snd].
      assert (Hb1 : Rleb COLLISION_IOU_THRESHOLD (f (a, b)) = true)
        by (apply Rleb_true_iff; rewrite Hf; exact Hthr).
      rewrite Hb1.
      rewrite (nth_error_nth _ _ d0 Ha), (nth_error_nth _ _ d0 Hb).
      apply is_close3d_true. exact Hclose.
Qed.


(** ** The pairwise test on two detections *)

Lemma pairs_two : pairs 2 = [(0, 1)]%nat.
Proof. reflexivity. Qed.

Lemma is_collision_now_two (d0 d1 : Detection) :
  is_collision_now [d0; d1] =
  Rltb 0 (compute_iou (bbox d0) (bbox d1)) &&
  Rleb COLLISION_IOU_THRESHOLD (compute_iou (bbox d0) (bbox d1)) &&
  is_close3d (tvec d0) (tvec d1).
Proof.
  unfold is_collision_now, best_overlap.
  cbn [length]. rewrite pairs_two. cbn [fold_left].
  unfold scan_pair, pair_iou. cbn [fst snd nth].
  destruct (Rltb 0 (compute_iou (bbox d0) (bbox d1))); cbn [andb].
  - destruct (Rleb _ _); reflexivity.
  - reflexivity.
Qed.

Lemma norm_lt (v : Vec3) (c : R) :
  0 <= c ->
  (norm v < c <-> vx v * vx v + vy v * vy v + vz v * vz v < c * c).
Proof.
  intros Hc. unfold norm.
  set (q := vx v * vx v + vy v * vy v + vz v * vz v).
  assert (Hq : 0 <= q) by (unfold q; nra).
  rewrite <- (sqrt_square c Hc) at 1.
  split; intros Hlt.
  - apply sqrt_lt_0_alt. exact Hlt.
  - apply sqrt_lt_1_alt. lra.
Qed.

Lemma sample_iou :
  compute_iou (296, 216, 344, 264)%Z (296, 216, 344, 264)%Z = 1.
Proof.
  unfold compute_iou, _intersect_area_xyxy.
  change (Z.max 0 (Z.min 344 344 - Z.max 296 296) *
          Z.max 0 (Z.min 264 264 - Z.max 216 216))%Z with 2304%Z.
  change (Z.max 0 (344 - 296) * Z.max 0 (264 - 216))%Z with 2304%Z.
  change (2304 <=? 0)%Z with false.
  change (2304 + 2304 - 2304 <=? 0)%Z with false.
  change (2304 + 2304 - 2304)%Z with 2304%Z.
  cbv iota. lra.
Qed.

Lemma sample_close3d :
  is_close3d (mkVec3 0 0 500) (mkVec3 100 0 600) = true.
Proof.
  unfold is_close3d, zdiff, d3. apply andb_true_intro. split.
  - apply Rltb_true_iff. cbn [vz]. unfold DEPTH_DIFF_MAX.
    unfold Rabs. destruct (Rcase_abs (500 - 600)); lra.
  - apply Rltb_true_iff. apply norm_lt; unfold DIST_3D_MAX; cbn; lra.
Qed.

Lemma sample_pair_collides (i j : nat) (bx : Box) (rv rv' : Vec3) (p y r p' y' r' : R) :
  bx = (296, 216, 344, 264)%Z ->
  is_collision_now
    [mkDetection i bx rv (mkVec3 0 0 500) p y r;
     mkDetection j bx rv' (mkVec3 100 0 600) p' y' r'] = true.
Proof.
  intros ->. rewrite is_collision_now_two. cbn [bbox tvec].
  rewrite sample_iou, sample_close3d.
  assert (H0 : Rltb 0 1 = true) by (apply Rltb_true_iff; lra).
  assert (H1 : Rleb COLLISION_IOU_THRESHOLD 1 = true)
    by (apply Rleb_true_iff; unfold COLLISION_IOU_THRESHOLD; lra).
  rewrite H0, H1. reflexivity.
Qed.


(** ** Euler angles *)

Lemma degrees_0 : degrees 0 = 0.
Proof. unfold degrees. apply Rmult_0_l. Qed.

(** C5. With [Rm] the rotation matrix of the rotation vector and
    [sy = sqrt (R00^2 + R10^2)], the conversion returns, in degrees:
    when [sy >= 1e-6], pitch [atan2 (R21, R22)], yaw [atan2 (-R20, sy)] and
    roll [atan2 (R10, R00)]; when [sy < 1e-6], pitch [atan2 (-R12, R11)],
    yaw [atan2 (-R20, sy)] and roll 0. *)
Theorem euler_angles_by_branch :
  forall (Rodrigues : Vec3 -> Mat3) (arctan2 : R -> R -> R) (rvec : Vec3),
    let Rm := Rodrigues rvec in
    let sy := sqrt (entry Rm 0 0 * entry Rm 0 0 + entry Rm 1 0 * entry Rm 1 0) in
    (1e-6 <= sy ->
     rotationVectorToEuler Rodrigues arctan2 rvec =
     (degrees (arctan2 (entry Rm 2 1) (entry Rm 2 2)),
      degrees (arctan2 (- entry Rm 2 0) sy),
      degrees (arctan2 (entry Rm 1 0) (entry Rm 0 0)))) /\
    (sy < 1e-6 ->
     rotationVectorToEuler Rodrigues arctan2 rvec =
     (degrees (arctan2 (- entry Rm 1 2) (entry Rm 1 1)),
      degrees (arctan2 (- entry Rm 2 0) sy),
      0)).
Proof.
  intros Rodrigues arctan2 rvec Rm sy. unfold rotationVectorToEuler.
  fold Rm. fold sy. split; intros Hsy.
  - assert (Hb : Rltb sy 1e-6 = false) by (apply Rltb_false_iff; exact Hsy).
    rewrite Hb. reflexivity.
  - assert (Hb : Rltb sy 1e-6 = true) by (apply Rltb_true_iff; exact Hsy).
    rewrite Hb. cbn [negb fst snd]. rewrite degrees_0. reflexivity.
Qed.

(** C5 on two matrices: the identity (regular branch) and a quarter turn
    about the vertical axis (singular branch). *)
Lemma euler_angles_by_branch_witness :
  rotationVectorToEuler Rodrigues_fixed half_angle_arctan2 (mkVec3 0 0 0) =
  (degrees (half_angle_arctan2 0 1),
   degrees (half_angle_arctan2 (- 0) (sqrt (1 * 1 + 0 * 0))),
   degrees (half_angle_arctan2 0 1)) /\
  rotationVectorToEuler Rodrigues_gimbal half_angle_arctan2 (mkVec3 0 (PI / 2) 0) =
  (degrees (half_angle_arctan2 (- 0) 1),
   degrees (half_angle_arctan2 (- -1) (sqrt (0 * 0 + 0 * 0))),
   0).
Proof.
  split.
  - apply (proj1 (euler_angles_by_branch Rodrigues_fixed half_angle_arctan2 (mkVec3 0 0 0))).
    unfold entry, Rodrigues_fixed. cbn [Nat.eqb].
    replace (1 * 1 + 0 * 0) with 1 by ring. rewrite sqrt_1. lra.
  - apply (proj2 (euler_angles_by_branch Rodrigues_gimbal half_angle_arctan2
                    (mkVec3 0 (PI / 2) 0))).
    unfold entry, Rodrigues_gimbal.
    replace (0 * 0 + 0 * 0) with 0 by ring. rewrite sqrt_0. lra.
Defined.


(** ** Lists indexed by slot *)

Lemma list_assign_length {A : Type} (l : list A) :
  forall i x, length (list_assign l i x) = length l.
Proof.
  induction l as [| y tl IH]; intros [| i] x; cbn; auto.
Qed.

Lemma nth_list_assign_same {A : Type} (l : list A) :
  forall i x d, (i < length l)%nat -> nth i (list_assign l i x) d = x.
Proof.
  induction l as [| y tl IH]; intros [| i] x d Hi; cbn in *; try lia; auto.
  apply IH. lia.
Qed.

Lemma nth_list_assign_other {A : Type} (l : list A) :
  forall i j x d, i <> j -> nth j (list_assign l i x) d = nth j l d.
Proof.
  induction l as [| y tl IH]; intros [| i] [| j] x d Hij; cbn; auto; try lia.
Qed.

Lemma list_assign_out_of_range {A : Type} (l : list A) :
  forall i x, (length l <= i)%nat -> list_assign l i x = l.
Proof.
  induction l as [| y tl IH]; intros [| i] x Hi; cbn in *; auto; try lia.
  f_equal. apply IH. lia.
Qed.

Lemma nth_pad_none {A : Type} (l : list (option A)) (n i : nat) :
  nth i (pad_none l n) None = nth i l None.
Proof.
  unfold pad_none. destruct (Nat.lt_ge_cases i (length l)) as [Hlt | Hge].
  - apply app_nth1. exact Hlt.
  - rewrite app_nth2 by exact Hge. rewrite (nth_overflow l None Hge).
    apply nth_repeat.
Qed.

Lemma pad_none_length {A : Type} (l : list (option A)) (n : nat) :
  length (pad_none l n) = Nat.max (length l) n.
Proof.
  unfold pad_none. rewrite length_app, repeat_length. lia.
Qed.

(** ** Temporal confirmation *)

Lemma temporal_confirmation_streak (b : bool) (cs : CollisionState) :
  overlap_streak (fst (temporal_confirmation b cs)) =
  if b then (overlap_streak cs + 1)%Z else 0%Z.
Proof. reflexivity. Qed.

Lemma temporal_confirmation_flag (b : bool) (cs : CollisionState) :
  currently_overlapping (fst (temporal_confirmation b cs)) =
  (FRAMES_CONFIRM <=? overlap_streak (fst (temporal_confirmation b cs)))%Z.
Proof. reflexivity. Qed.

(** The branch is taken exactly on a rising edge of the flag. *)
Lemma temporal_confirmation_edge (b : bool) (cs : CollisionState) :
  snd (temporal_confirmation b cs) = true <->
  currently_overlapping cs = false /\
  currently_overlapping (fst (temporal_confirmation b cs)) = true.
Proof.
  unfold temporal_confirmation; cbn.
  destruct (currently_overlapping cs);
    destruct (FRAMES_CONFIRM <=? _)%Z; cbn; intuition congruence.
Qed.

Lemma temporal_confirmation_count (b : bool) (cs : CollisionState) :
  collision_count (fst (temporal_confirmation b cs)) =
  (collision_count cs + if snd (temporal_confirmation b cs) then 1 else 0)%Z.
Proof.
  unfold temporal_confirmation; cbn.
  destruct (_ && _); lia.
Qed.

(** Once confirmed, a further true raw test keeps the flag and cannot fire. *)
Lemma temporal_confirmation_held (cs : CollisionState) :
  currently_overlapping cs = true ->
  (FRAMES_CONFIRM <= overlap_streak cs)%Z ->
  snd (temporal_confirmation true cs) = false /\
  currently_overlapping (fst (temporal_confirmation true cs)) = true /\
  (FRAMES_CONFIRM <= overlap_streak (fst (temporal_confirmation true cs)))%Z.
Proof.
  intros Hflag Hstreak. unfold temporal_confirmation; cbn.
  rewrite Hflag.
  assert (Hc : (FRAMES_CONFIRM <=? overlap_streak cs + 1)%Z = true)
    by (apply Z.leb_le; lia).
  rewrite Hc. cbn. repeat split; lia.
Qed.

Lemma confirmation_run_sample :
  confirmation_run initial_collision_state
    [false; true; true; false; true; true; true]
  = [false; false; true; false; false; true; false].
Proof.
  unfold initial_collision_state. cbn. reflexivity.
Qed.

(** ** One iteration, component by component *)

Section PipelineFacts.

Variable Frame : Type.
Variables w h : Z.
Variable Rodrigues : Vec3 -> Mat3.
Variable arctan2 : R -> R -> R.

Local Abbreviation step := (process_frame (Frame:=Frame) w h Rodrigues arctan2).
Local Abbreviation dets_of := (detections_of (Frame:=Frame) w h Rodrigues arctan2).
Local Abbreviation trace_of := (trace (Frame:=Frame) w h Rodrigues arctan2).
Local Abbreviation run_of := (run (Frame:=Frame) w h Rodrigues arctan2).

(** With [os.makedirs] returning, the clip of a confirmation returns. *)
Lemma clip_on_confirmation_returns (now_ : R) (opens : bool)
    (cs : ClipState Frame) :
  clip_on_confirmation w h now_ true opens cs =
  Done
    (if negb (clip_active cs) then
       (if opens then
          _finish_collision_clip
            (mkClipState (prebuffer cs) true
               (Some (mkVideoWriter now_ (w, h)
                        (map snd
                           (filter (in_window (now_ - CLIP_PRE_SECONDS) now_)
                              (prebuffer cs)))))
               (released cs))
        else cs,
        Some opens)
     else (cs, None)).
Proof.
  unfold clip_on_confirmation, _start_collision_clip, _ensure_clip_dir.
  destruct (clip_active cs), opens; reflexivity.
Qed.

Ltac open_frame :=
  unfold process_frame, loop_iteration, faces_block, detections_of;
  cbn -[temporal_confirmation is_collision_now second_pass
        clip_on_confirmation first_pass push pad_none].

Ltac split_block :=
  unfold detections_block;
  rewrite clip_on_confirmation_returns;
  cbn -[temporal_confirmation is_collision_now second_pass
        clip_on_confirmation first_pass push pad_none];
  destruct (temporal_confirmation _ _) as [? [|]];
  cbn -[temporal_confirmation is_collision_now second_pass
        clip_on_confirmation first_pass push pad_none].

Lemma process_frame_coll (st : State Frame) (fr : FrameInput Frame) :
  coll (fst (step st fr)) =
  match dets_of fr with
  | [] => coll st
  | _ :: _ => fst (temporal_confirmation (is_collision_now (dets_of fr)) (coll st))
  end.
Proof.
  open_frame.
  destruct (multi_face_landmarks fr) as [| f fs]; [reflexivity |].
  destruct (first_pass w h Rodrigues arctan2 0 (f :: fs)) as [| d ds];
    [reflexivity |].
  split_block; reflexivity.
Qed.

Lemma process_frame_fired (st : State Frame) (fr : FrameInput Frame) :
  fired (snd (step st fr)) =
  match dets_of fr with
  | [] => false
  | _ :: _ => snd (temporal_confirmation (is_collision_now (dets_of fr)) (coll st))
  end.
Proof.
  open_frame.
  destruct (multi_face_landmarks fr) as [| f fs]; [reflexivity |].
  destruct (first_pass w h Rodrigues arctan2 0 (f :: fs)) as [| d ds];
    [reflexivity |].
  split_block; reflexivity.
Qed.

Lemma process_frame_raw_test (st : State Frame) (fr : FrameInput Frame) :
  raw_test (snd (step st fr)) =
  match dets_of fr with
  | [] => None
  | _ :: _ => Some (is_collision_now (dets_of fr))
  end.
Proof.
  open_frame.
  destruct (multi_face_landmarks fr) as [| f fs]; [reflexivity |].
  destruct (first_pass w h Rodrigues arctan2 0 (f :: fs)) as [| d ds];
    [reflexivity |].
  split_block; reflexivity.
Qed.

Lemma clip_on_confirmation_idle (now_ : R) (opens : bool) (cs : ClipState Frame) :
  recorder_idle cs ->
  clip_on_confirmation w h now_ true opens cs =
  Done
    (if opens then
       mkClipState (prebuffer cs) false None
         (released cs ++ [clip_of (w, h) now_ (prebuffer cs)])
     else cs,
     Some opens).
Proof.
  intros [Hactive Hwriter].
  rewrite clip_on_confirmation_returns. unfold _finish_collision_clip.
  rewrite Hactive. destruct opens; reflexivity.
Qed.

Lemma process_frame_clip (st : State Frame) (fr : FrameInput Frame) :
  recorder_idle (clip st) ->
  clip (fst (step st fr)) =
  mkClipState
    (snd (push (prebuffer (clip st)) (now fr) (rendered fr)))
    false None
    (released (clip st) ++
       if fired (snd (step st fr)) && writer_opens fr
       then [clip_of (w, h) (now fr) (prebuffer (clip st))] else [])
  /\ clip_attempt (snd (step st fr)) =
     if fired (snd (step st fr)) then Some (writer_opens fr) else None.
Proof.
  intros Hidle. pose proof Hidle as [Hactive Hwriter].
  open_frame.
  destruct (multi_face_landmarks fr) as [| f fs].
  { cbn. rewrite Hactive, Hwriter, app_nil_r. split; reflexivity. }
  destruct (first_pass w h Rodrigues arctan2 0 (f :: fs)) as [| d ds].
  { cbn. rewrite Hactive, Hwriter, app_nil_r. split; reflexivity. }
  unfold detections_block;
  cbn -[temporal_confirmation is_collision_now second_pass
        clip_on_confirmation first_pass push pad_none].
  destruct (temporal_confirmation _ _) as [coll1 [|]];
  cbn -[temporal_confirmation is_collision_now second_pass
        clip_on_confirmation first_pass push pad_none].
  - rewrite clip_on_confirmation_idle by exact Hidle.
    cbn -[push]. destruct (writer_opens fr); cbn -[push].
    + split; reflexivity.
    + rewrite Hactive, Hwriter, app_nil_r. split; reflexivity.
  - cbn -[push]. rewrite Hactive, Hwriter, app_nil_r. split; reflexivity.
Qed.

Lemma process_frame_idle (st : State Frame) (fr : FrameInput Frame) :
  recorder_idle (clip st) -> recorder_idle (clip (fst (step st fr))).
Proof.
  intros Hidle. destruct (process_frame_clip st fr Hidle) as [Hclip _].
  rewrite Hclip. split; reflexivity.
Qed.

(** *** Runs and traces *)

Lemma run_cons (st : State Frame) (fr : FrameInput Frame) (rest : list (FrameInput Frame)) :
  run_of st (fr :: rest) = run_of (fst (step st fr)) rest.
Proof. reflexivity. Qed.

Lemma run_app (st : State Frame) (fs1 fs2 : list (FrameInput Frame)) :
  run_of st (fs1 ++ fs2) = run_of (run_of st fs1) fs2.
Proof. unfold run. apply fold_left_app. Qed.

Lemma run_invariant (Inv : State Frame -> Prop) :
  (forall st fr, Inv st -> Inv (fst (step st fr))) ->
  forall frames st, Inv st -> Inv (run_of st frames).
Proof.
  intros Hstep frames. induction frames as [| fr rest IH]; intros st Hst.
  - exact Hst.
  - rewrite run_cons. apply IH, Hstep, Hst.
Qed.

Lemma trace_cons (st : State Frame) (fr : FrameInput Frame) (rest : list (FrameInput Frame)) :
  trace_of st (fr :: rest) =
  mkStep st fr (snd (step st fr)) (fst (step st fr))
  :: trace_of (fst (step st fr)) rest.
Proof.
  cbn [trace]. destruct (process_frame w h Rodrigues arctan2 st fr). reflexivity.
Qed.

(** Every record of a trace is one iteration, taken from a state that
    inherits any invariant of the loop. *)
Lemma trace_nth (Inv : State Frame -> Prop) :
  (forall st fr, Inv st -> Inv (fst (step st fr))) ->
  forall frames st k s,
    Inv st ->
    nth_error (trace_of st frames) k = Some s ->
    Inv (pre s) /\
    nth_error frames k = Some (input s) /\
    output s = snd (step (pre s) (input s)) /\
    post s = fst (step (pre s) (input s)).
Proof.
  intros Hstep frames.
  induction frames as [| fr rest IH]; intros st k s Hst Hk.
  - destruct k; discriminate.
  - rewrite trace_cons in Hk. destruct k as [| k]; cbn in Hk.
    + injection Hk as <-. cbn. auto.
    + cbn [nth_error]. eapply IH; [apply Hstep, Hst | exact Hk].
Qed.

Lemma trace_succ (frames : list (FrameInput Frame)) :
  forall st k s s',
    nth_error (trace_of st frames) k = Some s ->
    nth_error (trace_of st frames) (S k) = Some s' ->
    pre s' = post s.
Proof.
  induction frames as [| fr rest IH]; intros st k s s' Hk HSk.
  - destruct k; discriminate.
  - rewrite trace_cons in Hk, HSk. destruct k as [| k]; cbn in Hk, HSk.
    + injection Hk as <-. destruct rest as [| fr' rest'].
      * discriminate.
      * rewrite trace_cons in HSk. injection HSk as <-. reflexivity.
    + eapply IH; eassumption.
Qed.

(** *** Slots of the first pass, stores of the second pass *)

Lemma first_pass_fi_range (faces : list Face) :
  forall idx d,
    In d (first_pass w h Rodrigues arctan2 idx faces) ->
    (idx <= fi d < idx + length faces)%nat.
Proof.
  induction faces as [| face rest IH]; intros idx d Hin; cbn in Hin.
  - contradiction.
  - cbn [length]. destruct (pnp_success face); cbn in Hin.
    + destruct Hin as [<- | Hin]; [cbn; lia |].
      apply IH in Hin. lia.
    + apply IH in Hin. lia.
Qed.

(** Used by [list_assign]: the index of every detection is inside the
    padded lists. *)
Lemma first_pass_fi_lt (faces : list Face) (d : Detection) :
  In d (first_pass w h Rodrigues arctan2 0 faces) -> (fi d < length faces)%nat.
Proof.
  intros Hin. apply first_pass_fi_range in Hin. lia.
Qed.

(** Later detections of a frame sit in later slots. *)
Lemma first_pass_increasing (faces : list Face) :
  forall idx d ds,
    first_pass w h Rodrigues arctan2 idx faces = d :: ds ->
    exists idx' rest,
      ds = first_pass w h Rodrigues arctan2 idx' rest /\ (fi d < idx')%nat /\
      (idx' + length rest <= idx + length faces)%nat.
Proof.
  induction faces as [| face rest IH]; intros idx d ds Heq; cbn in Heq.
  - discriminate.
  - destruct (pnp_success face); cbn in Heq.
    + injection Heq as <- <-. exists (S idx), rest. cbn. repeat split; lia.
    + destruct (IH (S idx) d ds Heq) as (idx' & rest' & Hds & Hlt & Hlen).
      exists idx', rest'. cbn. repeat split; auto; lia.
Qed.

Lemma second_pass_fold (now_ dt : R) (faces : list Face) :
  forall idx hs outs,
    fold_left (second_pass_step Rodrigues arctan2 now_ dt)
      (first_pass w h Rodrigues arctan2 idx faces) (hs, outs) =
    (fold_left (store_pose now_) (first_pass w h Rodrigues arctan2 idx faces) hs,
     outs ++ map (slot_kinematics Rodrigues arctan2 hs dt)
               (first_pass w h Rodrigues arctan2 idx faces)).
Proof.
  remember (length faces) as n eqn:Hn. revert faces Hn.
  induction n as [n IHn] using lt_wf_ind. intros faces Hn idx hs outs.
  destruct (first_pass w h Rodrigues arctan2 idx faces) as [| d ds] eqn:Hfp.
  - cbn. rewrite app_nil_r. reflexivity.
  - destruct (first_pass_increasing faces idx d ds Hfp)
      as (idx' & rest & Hds & Hlt & Hlen).
    assert (Hshort : (length rest < n)%nat).
    { assert (Hin : In d (first_pass w h Rodrigues arctan2 idx faces))
        by (rewrite Hfp; left; reflexivity).
      apply first_pass_fi_range in Hin. lia. }
    cbn [fold_left map]. unfold second_pass_step at 2.
    fold (slot_kinematics Rodrigues arctan2 hs dt d).
    fold (store_pose now_ hs d).
    rewrite Hds.
    rewrite (IHn (length rest) Hshort rest eq_refl idx' (store_pose now_ hs d)).
    rewrite <- app_assoc. cbn [app]. f_equal. f_equal. f_equal.
    apply map_ext_in. intros d' Hd'.
    apply first_pass_fi_range in Hd'.
    unfold slot_kinematics, store_pose. cbn [prev_rvecs prev_tvecs].
    rewrite !nth_list_assign_other by lia. reflexivity.
Qed.

Lemma process_frame_kinematics (st : State Frame) (fr : FrameInput Frame) :
  kinematics (snd (step st fr)) =
  map (slot_kinematics Rodrigues arctan2 (hist st) (now fr - prev_time (hist st)))
      (dets_of fr).
Proof.
  open_frame.
  destruct (multi_face_landmarks fr) as [| f fs] eqn:Hfaces; [reflexivity |].
  destruct (first_pass w h Rodrigues arctan2 0 (f :: fs)) as [| d ds] eqn:Hfp;
    [reflexivity |].
  unfold detections_block, second_pass.
  rewrite <- Hfp, second_pass_fold, clip_on_confirmation_returns.
  cbn -[temporal_confirmation is_collision_now clip_on_confirmation first_pass
        pad_none slot_kinematics].
  destruct (temporal_confirmation _ _) as [c [|]];
    cbn [snd kinematics]; apply map_ext; intros dd;
    unfold slot_kinematics; cbn [prev_rvecs prev_tvecs];
    rewrite !nth_pad_none; reflexivity.
Qed.

Lemma process_frame_hist (st : State Frame) (fr : FrameInput Frame) :
  hist (fst (step st fr)) =
  match multi_face_landmarks fr with
  | [] => hist st
  | _ :: _ =>
      fold_left (store_pose (now fr))
        (dets_of fr)
        (pad_history (hist st) (length (multi_face_landmarks fr)))
  end.
Proof.
  open_frame.
  destruct (multi_face_landmarks fr) as [| f fs] eqn:Hfaces; [reflexivity |].
  destruct (first_pass w h Rodrigues arctan2 0 (f :: fs)) as [| d ds] eqn:Hfp;
    [reflexivity |].
  unfold detections_block, second_pass.
  rewrite <- Hfp, second_pass_fold, clip_on_confirmation_returns.
  cbn -[temporal_confirmation is_collision_now clip_on_confirmation first_pass
        pad_none slot_kinematics].
  destruct (temporal_confirmation _ _) as [c [|]]; reflexivity.
Qed.

Lemma store_pose_aligned (now_ : R) (hs : PoseHistory) (dd : Detection) :
  history_aligned hs -> history_aligned (store_pose now_ hs dd).
Proof.
  intros [Hlen Hnone]. unfold history_aligned, store_pose.
  cbn [prev_rvecs prev_tvecs]. rewrite !list_assign_length. split; [exact Hlen |].
  intros i. destruct (Nat.eq_dec (fi dd) i) as [<- | Hne].
  - destruct (Nat.lt_ge_cases (fi dd) (length (prev_rvecs hs))) as [Hlt | Hge].
    + rewrite !nth_list_assign_same by lia. split; discriminate.
    + rewrite !list_assign_out_of_range by lia. apply Hnone.
  - rewrite !nth_list_assign_other by exact Hne. apply Hnone.
Qed.

Lemma process_frame_aligned (st : State Frame) (fr : FrameInput Frame) :
  history_aligned (hist st) -> history_aligned (hist (fst (step st fr))).
Proof.
  intros Hal. rewrite process_frame_hist.
  destruct (multi_face_landmarks fr) as [| f fs]; [exact Hal |].
  assert (Hpad : history_aligned (pad_history (hist st) (length (f :: fs)))).
  { destruct Hal as [Hlen Hnone]. unfold history_aligned, pad_history.
    cbn [prev_rvecs prev_tvecs]. rewrite !pad_none_length. split; [lia |].
    intros i. rewrite !nth_pad_none. apply Hnone. }
  revert Hpad. generalize (pad_history (hist st) (length (f :: fs))).
  induction (dets_of fr) as [| d ds IH]; intros hs Hhs; cbn [fold_left].
  - exact Hhs.
  - apply IH, store_pose_aligned, Hhs.
Qed.

Lemma run_aligned (t0 : R) (frames : list (FrameInput Frame)) :
  history_aligned (hist (run_of (initial_state t0) frames)).
Proof.
  apply (run_invariant (fun st => history_aligned (hist st))).
  - intros st fr. apply process_frame_aligned.
  - cbn. split; [reflexivity |]. intros [| i]; split; reflexivity.
Qed.


(** *** The kinematic estimator *)

Lemma norm_vscale (c : R) (v : Vec3) : 0 <= c -> norm (vscale c v) = c * norm v.
Proof.
  intros Hc. unfold norm, vscale. cbn [vx vy vz].
  replace (c * vx v * (c * vx v) + c * vy v * (c * vy v) + c * vz v * (c * vz v))
    with ((c * c) * (vx v * vx v + vy v * vy v + vz v * vz v)) by ring.
  rewrite sqrt_mult by nra. rewrite (sqrt_square c Hc). reflexivity.
Qed.

Lemma ang_vel_of_none (prev_rvec : option Vec3) (dt : R) (dd : Detection) :
  ang_vel_of Rodrigues arctan2 prev_rvec dt dd = None <->
  prev_rvec = None \/ dt <= 1e-6.
Proof.
  unfold ang_vel_of. destruct prev_rvec as [pr |].
  - destruct (Rltb 1e-6 dt) eqn:Hdt.
    + apply Rltb_true_iff in Hdt. split; [discriminate |].
      intros [Hnone | Hle]; [discriminate | lra].
    + apply Rltb_false_iff in Hdt. split; auto.
  - split; auto.
Qed.

Lemma trans_vel_of_none (prev_tvec : option Vec3) (dt : R) (dd : Detection) :
  trans_vel_of prev_tvec dt dd = None <-> prev_tvec = None \/ dt <= 1e-6.
Proof.
  unfold trans_vel_of. destruct prev_tvec as [pt |].
  - destruct (Rltb 1e-6 dt) eqn:Hdt.
    + apply Rltb_true_iff in Hdt. split; [discriminate |].
      intros [Hnone | Hle]; [discriminate | lra].
    + apply Rltb_false_iff in Hdt. split; auto.
  - split; auto.
Qed.

(** The velocities of a frame in terms of the history the iteration starts
    with: with [dt] the difference between the frame's time and [prev_time],
    the two per-slot lists agree on whether the slot has a stored pose; both
    velocities are absent exactly when the slot has none or [dt <= 1e-6];
    otherwise they are computed from the stored vectors. *)
Lemma slot_velocities_from_history :
  forall (t0 : R) (frames : list (FrameInput Frame)) (fr : FrameInput Frame),
    let st := run w h Rodrigues arctan2 (initial_state t0) frames in
    let dt := now fr - prev_time (hist st) in
    Forall2
      (fun (dd : Detection) (k : Kinematics) =>
         k_fi k = fi dd /\
         (no_previous_pose (hist st) (fi dd) <->
          nth (fi dd) (prev_tvecs (hist st)) None = None) /\
         (ang_vel k = None <-> no_previous_pose (hist st) (fi dd) \/ dt <= 1e-6) /\
         (trans_vel k = None <-> no_previous_pose (hist st) (fi dd) \/ dt <= 1e-6) /\
         (forall prev_r prev_t,
             nth (fi dd) (prev_rvecs (hist st)) None = Some prev_r ->
             nth (fi dd) (prev_tvecs (hist st)) None = Some prev_t ->
             1e-6 < dt ->
             ang_vel k =
               Some (Rabs (pitch dd - fst (fst (rotationVectorToEuler Rodrigues arctan2 prev_r))) / dt,
                     Rabs (yaw dd - snd (fst (rotationVectorToEuler Rodrigues arctan2 prev_r))) / dt,
                     Rabs (roll dd - snd (rotationVectorToEuler Rodrigues arctan2 prev_r)) / dt) /\
             trans_vel k = Some (norm (vscale (/ dt) (vsub (tvec dd) prev_t)))))
      (detections_of w h Rodrigues arctan2 fr)
      (kinematics (snd (process_frame w h Rodrigues arctan2 st fr))).
Proof.
  intros t0 frames fr st dt.
  rewrite process_frame_kinematics. fold dt.
  pose proof (run_aligned t0 frames) as [_ Hnone]. fold st in Hnone.
  induction (dets_of fr) as [| dd ds IH]; cbn [map]; constructor; [| exact IH].
  unfold slot_kinematics, no_previous_pose. cbn [k_fi ang_vel trans_vel].
  split; [reflexivity |]. split; [apply Hnone |].
  split; [apply ang_vel_of_none |].
  split; [rewrite trans_vel_of_none, Hnone; reflexivity |].
  intros prev_r prev_t Hr Ht Hdt. rewrite Hr, Ht.
  unfold ang_vel_of, trans_vel_of.
  assert (Hb : Rltb 1e-6 dt = true) by (apply Rltb_true_iff; exact Hdt).
  rewrite Hb. split; [reflexivity |].
  rewrite norm_vscale.
  - f_equal. unfold Rdiv. ring.
  - left. apply Rinv_0_lt_compat. lra.
Qed.


(** *** Iterations that raise *)

(** With [os.makedirs] returning, the body of the loop returns. *)
Lemma loop_iteration_completes (st : State Frame) (fr : FrameInput Frame) :
  loop_iteration w h Rodrigues arctan2 true st fr = Done (step st fr).
Proof.
  unfold process_frame.
  assert (Hres : exists res, loop_iteration w h Rodrigues arctan2 true st fr = Done res).
  { unfold loop_iteration, faces_block.
    destruct (multi_face_landmarks fr) as [| f fs]; [eexists; reflexivity |].
    destruct (first_pass w h Rodrigues arctan2 0 (f :: fs)) as [| d ds];
      [eexists; reflexivity |].
    unfold detections_block. rewrite clip_on_confirmation_returns.
    destruct (snd (temporal_confirmation _ _)); eexists; reflexivity. }
  destruct Hres as [[st' out] Hres]. rewrite Hres. reflexivity.
Qed.

(** The body raises exactly when the frame confirms a collision, no clip
    is open and [os.makedirs] raises; otherwise it does what it does when
    [os.makedirs] returns. *)
Lemma loop_iteration_outcome (makedirs_ok : bool) (st : State Frame)
    (fr : FrameInput Frame) :
  loop_iteration w h Rodrigues arctan2 makedirs_ok st fr =
  if fired (snd (step st fr)) && negb (clip_active (clip st)) && negb makedirs_ok
  then Raised
  else Done (step st fr).
Proof.
  destruct makedirs_ok.
  { rewrite andb_false_r. apply loop_iteration_completes. }
  rewrite andb_true_r, <- loop_iteration_completes, process_frame_fired.
  unfold loop_iteration, faces_block, detections_of.
  destruct (multi_face_landmarks fr) as [| f fs]; [reflexivity |].
  destruct (first_pass w h Rodrigues arctan2 0 (f :: fs)) as [| d ds];
    [reflexivity |].
  unfold detections_block. cbn [coll clip].
  destruct (snd (temporal_confirmation _ _)); [| reflexivity].
  unfold clip_on_confirmation.
  destruct (clip_active (clip st)); reflexivity.
Qed.

Lemma main_loop_completes (frames : list (FrameInput Frame)) :
  forall st,
    main_loop w h Rodrigues arctan2 st (map (pair true) frames) =
    Done (run_of st frames).
Proof.
  induction frames as [| fr rest IH]; intros st; cbn [map main_loop].
  - reflexivity.
  - rewrite loop_iteration_completes, IH. reflexivity.
Qed.

(** Every state the loop reaches is the state after a run of iterations
    that completed. *)
Lemma main_loop_reaches (inputs : list (bool * FrameInput Frame)) :
  forall st st',
    main_loop w h Rodrigues arctan2 st inputs = Done st' ->
    st' = run_of st (map snd inputs).
Proof.
  induction inputs as [| [ok fr] rest IH]; intros st st' Hrun; cbn [map main_loop] in *.
  - injection Hrun as <-. reflexivity.
  - rewrite loop_iteration_outcome in Hrun.
    destruct (fired (snd (step st fr)) && negb (clip_active (clip st)) && negb ok);
      [discriminate |].
    apply IH in Hrun. exact Hrun.
Qed.

(** *** Confirmation along a trace *)

Opaque process_frame.

(** What the loop maintains between iterations. *)
Lemma loop_invariant_step (st : State Frame) (fr : FrameInput Frame) :
  recorder_idle (clip st) /\ (0 <= overlap_streak (coll st))%Z ->
  recorder_idle (clip (fst (step st fr))) /\
  (0 <= overlap_streak (coll (fst (step st fr))))%Z.
Proof.
  intros [Hidle Hstreak]. split; [apply process_frame_idle, Hidle |].
  rewrite process_frame_coll. destruct (dets_of fr); [exact Hstreak |].
  rewrite temporal_confirmation_streak. destruct (is_collision_now _); lia.
Qed.

Lemma loop_invariant_initial (t0 : R) :
  recorder_idle (clip (initial_state (Frame:=Frame) t0)) /\
  (0 <= overlap_streak (coll (initial_state (Frame:=Frame) t0)))%Z.
Proof. cbn. repeat split. lia. Qed.

Lemma raw_true_has_detections (fr : FrameInput Frame) :
  is_collision_now (dets_of fr) = true ->
  exists d ds, dets_of fr = d :: ds.
Proof.
  destruct (dets_of fr) as [| d ds]; [discriminate | eauto].
Qed.

(** While the raw test stays true from a confirmed state, nothing fires. *)
Lemma held_no_refire (frames : list (FrameInput Frame)) :
  forall st j sj,
    currently_overlapping (coll st) = true ->
    (FRAMES_CONFIRM <= overlap_streak (coll st))%Z ->
    nth_error (trace_of st frames) j = Some sj ->
    (forall k sk, (k <= j)%nat -> nth_error (trace_of st frames) k = Some sk ->
                  is_collision_now (dets_of (input sk)) = true) ->
    fired (output sj) = false.
Proof.
  induction frames as [| fr rest IH]; intros st j sj Hflag Hstreak Hj Hraw.
  - destruct j; discriminate.
  - assert (Hfr : is_collision_now (dets_of fr) = true).
    { apply (Hraw 0%nat (mkStep st fr (snd (step st fr)) (fst (step st fr)))).
      - lia.
      - rewrite trace_cons. reflexivity. }
    destruct (raw_true_has_detections fr Hfr) as (d & ds & Hdets).
    destruct (temporal_confirmation_held (coll st) Hflag Hstreak)
      as (Hno & Hflag' & Hstreak').
    rewrite trace_cons in Hj. destruct j as [| j]; cbn [nth_error] in Hj.
    + injection Hj as <-. cbn [output]. rewrite process_frame_fired, Hdets.
      rewrite <- Hdets, Hfr. exact Hno.
    + apply (IH (fst (step st fr)) j sj).
      * rewrite process_frame_coll, Hdets, <- Hdets, Hfr. exact Hflag'.
      * rewrite process_frame_coll, Hdets, <- Hdets, Hfr. exact Hstreak'.
      * exact Hj.
      * intros k sk Hk Hsk. apply (Hraw (S k) sk); [lia |].
        rewrite trace_cons. exact Hsk.
Qed.

Lemma trace_drop (frames : list (FrameInput Frame)) :
  forall st i si m,
    nth_error (trace_of st frames) i = Some si ->
    nth_error (trace_of st frames) (S i + m) =
    nth_error (trace_of (post si) (skipn (S i) frames)) m.
Proof.
  induction frames as [| fr rest IH]; intros st i si m Hi.
  - destruct i; discriminate.
  - rewrite trace_cons in *. destruct i as [| i]; cbn in Hi.
    + injection Hi as <-. reflexivity.
    + cbn [plus nth_error skipn]. apply (IH _ i si m Hi).
Qed.

(** On frames that all have a posed face, the flags of a trace are those of
    the confirmation block fed with the frames' raw tests. *)
Lemma trace_fired_confirmation_run (frames : list (FrameInput Frame)) :
  forall st,
    (forall fr, In fr frames -> dets_of fr <> []) ->
    map (fun s => fired (output s)) (trace_of st frames) =
    confirmation_run (coll st) (map (fun fr => is_collision_now (dets_of fr)) frames).
Proof.
  induction frames as [| fr rest IH]; intros st Hposed.
  - reflexivity.
  - rewrite trace_cons. cbn [map confirmation_run output].
    assert (Hfr : dets_of fr <> []) by (apply Hposed; left; reflexivity).
    rewrite process_frame_fired.
    rewrite IH by (intros fr' Hin; apply Hposed; right; exact Hin).
    rewrite process_frame_coll.
    destruct (dets_of fr) as [| d ds] eqn:Hdets; [contradiction |].
    destruct (temporal_confirmation (is_collision_now (d :: ds)) (coll st))
      as [cs' fires].
    reflexivity.
Qed.


(** Along every sequence of frames from the initial state, the
    confirmation (count increment and clip trigger) fires exactly on the
    frames where the confirmed flag goes from false to true; it never fires
    again on a later frame of the same unbroken run of true raw tests; and
    [FRAMES_CONFIRM] true raw tests in a row leave the flag true.  Nothing
    here makes the flag fall: see [streak_reset_with_detections] and
    [collision_state_kept_without_detections]. *)
Lemma confirmation_follows_the_flag :
  forall (t0 : R) (frames : list (FrameInput Frame)),
    let tr := trace w h Rodrigues arctan2 (initial_state t0) frames in
    (forall k s, nth_error tr k = Some s ->
       (fired (output s) = true <->
        currently_overlapping (coll (pre s)) = false /\
        currently_overlapping (coll (post s)) = true) /\
       collision_count (coll (post s)) =
         (collision_count (coll (pre s)) + if fired (output s) then 1 else 0)%Z /\
       (fired (output s) = true <-> clip_attempt (output s) <> None)) /\
    (forall k s s', nth_error tr k = Some s -> nth_error tr (S k) = Some s' ->
       pre s' = post s) /\
    (forall i j si sj, (i < j)%nat ->
       nth_error tr i = Some si -> nth_error tr j = Some sj ->
       fired (output si) = true ->
       (forall k sk, (i < k <= j)%nat -> nth_error tr k = Some sk ->
          is_collision_now (detections_of w h Rodrigues arctan2 (input sk)) = true) ->
       fired (output sj) = false) /\
    (forall i si sj,
       nth_error tr i = Some si -> nth_error tr (S i) = Some sj ->
       is_collision_now (detections_of w h Rodrigues arctan2 (input si)) = true ->
       is_collision_now (detections_of w h Rodrigues arctan2 (input sj)) = true ->
       currently_overlapping (coll (post sj)) = true).
Proof.
  intros t0 frames tr.
  pose proof (trace_nth _ loop_invariant_step frames (initial_state t0)) as Hnth.
  assert (Hstepk : forall k s, nth_error tr k = Some s ->
            (recorder_idle (clip (pre s)) /\ (0 <= overlap_streak (coll (pre s)))%Z) /\
            output s = snd (step (pre s) (input s)) /\
            post s = fst (step (pre s) (input s))).
  { intros k s Hk.
    destruct (Hnth k s (loop_invariant_initial t0) Hk) as (Hinv & _ & Hout & Hpost).
    auto. }
  split; [| split; [| split]].
  - intros k s Hk. destruct (Hstepk k s Hk) as ((Hidle & _) & Hout & Hpost).
    destruct (process_frame_clip (pre s) (input s) Hidle) as [_ Hattempt].
    rewrite Hout, Hpost, Hattempt, process_frame_coll, process_frame_fired.
    destruct (dets_of (input s)) as [| d ds].
    + repeat split; try discriminate; try lia.
      * intros [Hf Ht]. congruence.
      * intros Hne. exfalso. apply Hne. reflexivity.
    + split; [apply temporal_confirmation_edge |].
      split; [apply temporal_confirmation_count |].
      destruct (snd (temporal_confirmation _ _)); split; intros; try discriminate;
        auto; congruence.
  - intros k s s' Hk HSk. eapply trace_succ; eassumption.
  - intros i j si sj Hij Hi Hj Hfired Hraw.
    destruct (Hstepk i si Hi) as (_ & Hout & Hpost).
    rewrite Hout, process_frame_fired in Hfired.
    destruct (dets_of (input si)) as [| d ds] eqn:Hdets; [discriminate |].
    apply temporal_confirmation_edge in Hfired as [_ Hflag].
    pose proof (temporal_confirmation_flag (is_collision_now (d :: ds)) (coll (pre si)))
      as Hconf.
    rewrite Hflag in Hconf. symmetry in Hconf. apply Z.leb_le in Hconf.
    assert (Hcoll : coll (post si) =
                    fst (temporal_confirmation (is_collision_now (d :: ds)) (coll (pre si)))).
    { rewrite Hpost, process_frame_coll, Hdets. reflexivity. }
    replace j with (S i + (j - S i))%nat in Hj by lia.
    unfold tr in Hj. rewrite (trace_drop _ _ i si _ Hi) in Hj.
    apply (held_no_refire (skipn (S i) frames) (post si) (j - S i)%nat sj).
    + rewrite Hcoll. exact Hflag.
    + rewrite Hcoll. exact Hconf.
    + exact Hj.
    + intros k sk Hk Hsk. apply (Hraw (S i + k)%nat sk); [lia |].
      unfold tr. rewrite (trace_drop _ _ i si _ Hi). exact Hsk.
  - intros i si sj Hi HSi Hrawi Hrawj.
    destruct (Hstepk i si Hi) as ((_ & Hstreak) & _ & Hposti).
    destruct (Hstepk (S i) sj HSi) as (_ & _ & Hpostj).
    pose proof (trace_succ _ _ _ _ _ Hi HSi) as Hchain.
    destruct (raw_true_has_detections _ Hrawi) as (d & ds & Hdi).
    destruct (raw_true_has_detections _ Hrawj) as (d' & ds' & Hdj).
    rewrite Hpostj, process_frame_coll, Hdj, <- Hdj, Hrawj.
    rewrite temporal_confirmation_flag, temporal_confirmation_streak.
    rewrite Hchain, Hposti, process_frame_coll, Hdi, <- Hdi, Hrawi.
    rewrite temporal_confirmation_streak.
    apply Z.leb_le. unfold FRAMES_CONFIRM. lia.
Qed.

(** *** The raw test of a frame *)

(** The raw test of a frame in terms of what [compute_iou] returns. *)
Lemma raw_test_iff_best_pair :
  forall (st : State Frame) (fr : FrameInput Frame),
    raw_test (snd (process_frame w h Rodrigues arctan2 st fr)) = Some true <->
    exists a b da db,
      (a < b)%nat /\
      nth_error (detections_of w h Rodrigues arctan2 fr) a = Some da /\
      nth_error (detections_of w h Rodrigues arctan2 fr) b = Some db /\
      (forall i j di dj,
          (i < j)%nat ->
          nth_error (detections_of w h Rodrigues arctan2 fr) i = Some di ->
          nth_error (detections_of w h Rodrigues arctan2 fr) j = Some dj ->
          compute_iou (bbox di) (bbox dj) <= compute_iou (bbox da) (bbox db)) /\
      (forall i j di dj,
          (i < j)%nat ->
          nth_error (detections_of w h Rodrigues arctan2 fr) i = Some di ->
          nth_error (detections_of w h Rodrigues arctan2 fr) j = Some dj ->
          visited_before (i, j) (a, b) ->
          compute_iou (bbox di) (bbox dj) < compute_iou (bbox da) (bbox db)) /\
      COLLISION_IOU_THRESHOLD <= compute_iou (bbox da) (bbox db) /\
      Rabs (vz (tvec da) - vz (tvec db)) < DEPTH_DIFF_MAX /\
      norm (vsub (tvec da) (tvec db)) < DIST_3D_MAX.
Proof.
  intros st fr. rewrite <- is_collision_now_iff, process_frame_raw_test.
  destruct (dets_of fr) as [| d ds] eqn:Hdets.
  - split; discriminate.
  - split; intros Hraw.
    + injection Hraw as Hraw. exact Hraw.
    + rewrite Hraw. reflexivity.
Qed.

(** *** The streak with and without posed faces *)

Lemma streak_reset_with_detections (st : State Frame) (fr : FrameInput Frame) :
  dets_of fr <> [] ->
  is_collision_now (dets_of fr) = false ->
  overlap_streak (coll (fst (step st fr))) = 0%Z.
Proof.
  intros Hne Hraw. rewrite process_frame_coll.
  destruct (dets_of fr) as [| d ds] eqn:Hdets; [contradiction |].
  rewrite temporal_confirmation_streak, Hraw. reflexivity.
Qed.

Lemma collision_state_kept_without_detections (st : State Frame) (fr : FrameInput Frame) :
  dets_of fr = [] -> coll (fst (step st fr)) = coll st.
Proof.
  intros Hnil. rewrite process_frame_coll, Hnil. reflexivity.
Qed.

(** *** The clip of a confirmation *)

Lemma run_idle (t0 : R) (frames : list (FrameInput Frame)) :
  recorder_idle (clip (run_of (initial_state t0) frames)).
Proof.
  apply (run_invariant (fun st => recorder_idle (clip st))).
  - intros st fr. apply process_frame_idle.
  - split; reflexivity.
Qed.

(** An iteration that completes, at time [t], and confirms a collision,
    from a state reached from the initial one: the count goes up by one and
    the clip writer is called.  If the sink opens, one more sink is released
    (closed), named after [t], holding the frames of exactly those buffer
    entries whose timestamp lies in [[t - CLIP_PRE_SECONDS, t]], in buffer
    order.  If the sink does not open, the call returns [False], nothing is
    released, and the count has been incremented all the same.  Either way
    no sink stays open. *)
Lemma clip_of_a_confirmation :
  forall (t0 : R) (frames : list (FrameInput Frame)) (fr : FrameInput Frame),
    let st := run w h Rodrigues arctan2 (initial_state t0) frames in
    let res := process_frame w h Rodrigues arctan2 st fr in
    fired (snd res) = true ->
    collision_count (coll (fst res)) = (collision_count (coll st) + 1)%Z /\
    clip_attempt (snd res) = Some (writer_opens fr) /\
    clip_active (clip (fst res)) = false /\
    clip_writer (clip (fst res)) = None /\
    (writer_opens fr = true ->
     exists keep : R * Frame -> bool,
       (forall e, keep e = true <->
                  now fr - CLIP_PRE_SECONDS <= fst e /\ fst e <= now fr) /\
       released (clip (fst res)) =
       released (clip st) ++
         [mkVideoWriter (now fr) (w, h)
            (map snd (filter keep (prebuffer (clip st))))]) /\
    (writer_opens fr = false ->
     released (clip (fst res)) = released (clip st)).
Proof.
  intros t0 frames fr st res Hfired. unfold res in *.
  pose proof (run_idle t0 frames) as Hidle. fold st in Hidle.
  destruct (process_frame_clip st fr Hidle) as [Hclip Hattempt].
  rewrite Hfired in Hclip, Hattempt.
  split.
  { rewrite process_frame_fired in Hfired. rewrite process_frame_coll.
    destruct (dets_of fr) as [| d ds]; [discriminate |].
    rewrite temporal_confirmation_count, Hfired. reflexivity. }
  split; [exact Hattempt |].
  rewrite Hclip. cbn [clip_active clip_writer released].
  split; [reflexivity |]. split; [reflexivity |]. split; intros Hopens.
  - exists (in_window (now fr - CLIP_PRE_SECONDS) (now fr)). split.
    + intros e. unfold in_window.
      rewrite andb_true_iff, !Rleb_true_iff. reflexivity.
    + rewrite Hopens. reflexivity.
  - rewrite Hopens. cbn [andb]. apply app_nil_r.
Qed.


(** *** The ring buffer *)

Lemma evict_spec (buf : list (R * Frame)) :
  fst (evict buf) ++ snd (evict buf) = buf /\
  length (snd (evict buf)) = Nat.min (length buf) 100.
Proof.
  induction buf as [| e tl IH]; cbn [evict].
  - split; reflexivity.
  - rewrite max_pre_frames_value.
    destruct (100 <? Z.of_nat (length (e :: tl)))%Z eqn:Hfull.
    + apply Z.ltb_lt in Hfull. cbn [length] in Hfull.
      destruct (evict tl) as [popped kept]. cbn [fst snd] in *.
      destruct IH as [Happ Hlen]. split.
      * cbn. rewrite Happ. reflexivity.
      * rewrite Hlen. cbn [length]. lia.
    + apply Z.ltb_ge in Hfull. cbn [fst snd]. split; [reflexivity | lia].
Qed.

(** The same, for whatever number of frames the window comes to: only
    [1 <= max_pre_frames] is used. *)
Lemma evict_bounded (buf : list (R * Frame)) :
  fst (evict buf) ++ snd (evict buf) = buf /\
  length (snd (evict buf)) = Nat.min (length buf) (Z.to_nat max_pre_frames) /\
  (Z.of_nat (length (snd (evict buf))) <= max_pre_frames)%Z.
Proof.
  assert (Hone : (1 <= max_pre_frames)%Z) by (unfold max_pre_frames; lia).
  induction buf as [| e tl IH]; cbn [evict].
  - cbn. repeat split; lia.
  - destruct (max_pre_frames <? Z.of_nat (length (e :: tl)))%Z eqn:Hfull.
    + apply Z.ltb_lt in Hfull. cbn [length] in Hfull.
      destruct (evict tl) as [popped kept]. cbn [fst snd] in *.
      destruct IH as (Happ & Hlen & Hle). split; [| split].
      * cbn. rewrite Happ. reflexivity.
      * rewrite Hlen. cbn [length]. lia.
      * exact Hle.
    + apply Z.ltb_ge in Hfull. cbn [fst snd]. split; [reflexivity |].
      split; lia.
Qed.

Lemma run_prebuffer_snoc (t0 : R) (frames : list (FrameInput Frame))
    (fr : FrameInput Frame) :
  prebuffer (clip (run_of (initial_state t0) (frames ++ [fr]))) =
  snd (push (prebuffer (clip (run_of (initial_state t0) frames)))
         (now fr) (rendered fr)).
Proof.
  rewrite run_app, run_cons.
  change (run_of (fst (step (run_of (initial_state t0) frames) fr)) [])
    with (fst (step (run_of (initial_state t0) frames) fr)).
  destruct (process_frame_clip _ fr (run_idle t0 frames)) as [Hclip _].
  rewrite Hclip. reflexivity.
Qed.

Lemma push_short (buf : list (R * Frame)) (ts : R) (fr : Frame) :
  (length buf < 100)%nat -> snd (push buf ts fr) = buf ++ [(ts, fr)].
Proof.
  intros Hlen. unfold push.
  assert (Hshort : (length (buf ++ [(ts, fr)]) <= 100)%nat)
    by (rewrite length_app; cbn; lia).
  destruct (buf ++ [(ts, fr)]) as [| e tl]; [reflexivity |].
  cbn [evict]. rewrite max_pre_frames_value.
  destruct (100 <? Z.of_nat (length (e :: tl)))%Z eqn:Hfull; [| reflexivity].
  apply Z.ltb_lt in Hfull. lia.
Qed.

(** C4 (as the code behaves). A push appends the new entry and pops from the
    front until at most [max_pre_frames] entries are left, the window as the
    number of frames [max (1, int (CLIP_PRE_SECONDS * clip_fps))]: the popped
    entries followed by the kept ones are the old buffer followed by the new
    entry (first in, first out), and exactly the newest
    [min (n + 1, max_pre_frames)] entries stay.  The bound is on the number
    of entries, not on the span of their timestamps.  After every iteration
    from the initial state the buffer is the kept part of such a push. *)
Theorem push_keeps_newest_entries :
  max_pre_frames = Z.max 1 (python_int (CLIP_PRE_SECONDS * clip_fps)) /\
  (forall (buf : list (R * Frame)) (ts : R) (fr : Frame),
      fst (push buf ts fr) ++ snd (push buf ts fr) = buf ++ [(ts, fr)] /\
      length (snd (push buf ts fr)) =
        Nat.min (length buf + 1) (Z.to_nat max_pre_frames) /\
      (Z.of_nat (length (snd (push buf ts fr))) <= max_pre_frames)%Z) /\
  (forall (t0 : R) (frames : list (FrameInput Frame)) (fr : FrameInput Frame),
      prebuffer (clip (fst (process_frame w h Rodrigues arctan2
                              (run w h Rodrigues arctan2 (initial_state t0) frames) fr))) =
      snd (push (prebuffer (clip (run w h Rodrigues arctan2 (initial_state t0) frames)))
             (now fr) (rendered fr))).
Proof.
  split; [reflexivity |]. split.
  - intros buf ts fr. unfold push.
    destruct (evict_bounded (buf ++ [(ts, fr)])) as (Happ & Hlen & Hle).
    rewrite length_app in Hlen. cbn [length] in Hlen.
    split; [exact Happ |]. split; [exact Hlen | exact Hle].
  - intros t0 frames fr.
    destruct (process_frame_clip _ fr (run_idle t0 frames)) as [Hclip _].
    rewrite Hclip. reflexivity.
Qed.


End PipelineFacts.

(** ** Closed scenarios on the sample stream *)

Ltac open_sample :=
  unfold sample_step, sample_run, sample_detections in *.

Lemma sample_raw_true (t : R) :
  is_collision_now (sample_detections (frame_two_faces t)) = true.
Proof.
  unfold sample_detections, detections_of, frame_two_faces.
  cbn [multi_face_landmarks first_pass face_near face_side pnp_success negb
       pnp_rvec pnp_tvec face_landmarks].
  apply sample_pair_collides. apply sample_hitbox.
Qed.

Lemma sample_raw_true_locked (t : R) :
  is_collision_now (sample_detections (frame_two_faces_locked t)) = true.
Proof. exact (sample_raw_true t). Qed.

Lemma sample_two_faces_posed (t : R) :
  exists d ds, sample_detections (frame_two_faces t) = d :: ds.
Proof.
  unfold sample_detections, detections_of, frame_two_faces.
  cbn [multi_face_landmarks first_pass face_near face_side pnp_success negb].
  eauto.
Qed.

(** The collision state after one and after two colliding frames. *)
Lemma sample_coll_after_one (t0 t : R) :
  coll (sample_run (initial_state t0) [frame_two_faces t]) =
  mkCollisionState 0 false 1.
Proof.
  open_sample. rewrite run_cons. cbn [run fold_left].
  rewrite process_frame_coll.
  pose proof (sample_raw_true t) as Hraw. open_sample.
  destruct (sample_two_faces_posed t) as (d & ds & Hd). open_sample.
  rewrite Hd, <- Hd, Hraw. reflexivity.
Qed.

Lemma sample_fires_on_second (t0 t t' : R) :
  fired (snd (sample_step (sample_run (initial_state t0) [frame_two_faces t])
                (frame_two_faces t'))) = true.
Proof.
  pose proof (sample_coll_after_one t0 t) as Hcoll. open_sample.
  rewrite process_frame_fired, Hcoll.
  pose proof (sample_raw_true t') as Hraw. open_sample.
  destruct (sample_two_faces_posed t') as (d & ds & Hd). open_sample.
  rewrite Hd, <- Hd, Hraw. reflexivity.
Qed.

Lemma sample_run_snoc (st : State unit) (frames : list (FrameInput unit))
    (fr : FrameInput unit) :
  sample_run st (frames ++ [fr]) = fst (sample_step (sample_run st frames) fr).
Proof.
  unfold sample_run, sample_step. rewrite run_app. reflexivity.
Qed.

Lemma sample_coll_after_gap (t0 t t' : R) :
  coll (sample_run (initial_state t0) [frame_two_faces t; frame_no_face t']) =
  mkCollisionState 0 false 1.
Proof.
  change [frame_two_faces t; frame_no_face t']
    with ([frame_two_faces t] ++ [frame_no_face t']).
  rewrite sample_run_snoc. unfold sample_step.
  rewrite collision_state_kept_without_detections by reflexivity.
  apply sample_coll_after_one.
Qed.

(** C3 on the sample stream: two colliding faces at t = 1, no face at all
    at t = 2.  The raw test of the second frame is false (it is not even
    evaluated), yet the streak is still 1 after it; the colliding frame at
    t = 3 then confirms a collision although no two consecutive frames had a
    true raw test. *)
Theorem streak_survives_frame_without_faces :
  is_collision_now (sample_detections (frame_no_face 2)) = false /\
  raw_test (snd (sample_step (sample_run (initial_state 0) [frame_two_faces 1])
                   (frame_no_face 2))) = None /\
  overlap_streak
    (coll (sample_run (initial_state 0) [frame_two_faces 1; frame_no_face 2])) = 1%Z /\
  fired (snd (sample_step
                (sample_run (initial_state 0) [frame_two_faces 1; frame_no_face 2])
                (frame_two_faces 3))) = true.
Proof.
  split; [reflexivity |].
  split.
  { unfold sample_step. rewrite process_frame_raw_test. reflexivity. }
  split.
  { rewrite sample_coll_after_gap. reflexivity. }
  pose proof (sample_coll_after_gap 0 1 2) as Hcoll.
  pose proof (sample_raw_true 3) as Hraw.
  destruct (sample_two_faces_posed 3) as (d & ds & Hd).
  open_sample. rewrite process_frame_fired, Hcoll, Hd, <- Hd, Hraw. reflexivity.
Qed.

(** C4 (as stated) fails: two frames ten seconds apart are both kept, and
    the buffer then spans more than the five-second window. *)
Lemma prebuffer_outlasts_window :
  prebuffer (clip (sample_run (initial_state 0) [frame_no_face 0; frame_no_face 10])) =
  [(0, tt); (10, tt)] /\
  ~ duration (prebuffer (clip (sample_run (initial_state 0)
                                 [frame_no_face 0; frame_no_face 10])))
    <= CLIP_PRE_SECONDS.
Proof.
  assert (Hbuf : prebuffer (clip (sample_run (initial_state 0)
                                    [frame_no_face 0; frame_no_face 10])) =
                 [(0, tt); (10, tt)]).
  { change [frame_no_face 0; frame_no_face 10]
      with (([] ++ [frame_no_face 0]) ++ [frame_no_face 10]).
    unfold sample_run. rewrite !run_prebuffer_snoc.
    cbn [run fold_left initial_state clip prebuffer].
    rewrite (push_short unit []) by (cbn; lia).
    rewrite push_short by (cbn; lia). reflexivity. }
  rewrite Hbuf. split; [reflexivity |].
  unfold duration, CLIP_PRE_SECONDS. cbn [last fst]. lra.
Qed.

Lemma sample_fires_on_second_locked (t0 t t' : R) :
  fired (snd (sample_step (sample_run (initial_state t0) [frame_two_faces t])
                (frame_two_faces_locked t'))) = true.
Proof.
  pose proof (sample_coll_after_one t0 t) as Hcoll. open_sample.
  rewrite process_frame_fired, Hcoll.
  pose proof (sample_raw_true_locked t') as Hraw. open_sample.
  destruct (sample_two_faces_posed t') as (d & ds & Hd). open_sample.
  change (detections_of 640 480 Rodrigues_fixed half_angle_arctan2
            (frame_two_faces_locked t'))
    with (detections_of 640 480 Rodrigues_fixed half_angle_arctan2
            (frame_two_faces t')).
  rewrite Hd, <- Hd.
  change (detections_of 640 480 Rodrigues_fixed half_angle_arctan2
            (frame_two_faces_locked t'))
    with (detections_of 640 480 Rodrigues_fixed half_angle_arctan2
            (frame_two_faces t')) in Hraw.
  rewrite Hraw. reflexivity.
Qed.

(** On the sample stream: the second colliding frame confirms; with a
    sink that opens the call returns [True], with one that does not it
    returns [False] and releases nothing; the count goes up both times. *)
Lemma clip_of_a_confirmation_example :
  (collision_count
     (coll (fst (sample_step (sample_run (initial_state 0) [frame_two_faces 1])
                   (frame_two_faces 2)))) =
   (collision_count (coll (sample_run (initial_state 0) [frame_two_faces 1])) + 1)%Z /\
   clip_attempt
     (snd (sample_step (sample_run (initial_state 0) [frame_two_faces 1])
             (frame_two_faces 2))) = Some true) /\
  (collision_count
     (coll (fst (sample_step (sample_run (initial_state 0) [frame_two_faces 1])
                   (frame_two_faces_locked 2)))) =
   (collision_count (coll (sample_run (initial_state 0) [frame_two_faces 1])) + 1)%Z /\
   clip_attempt
     (snd (sample_step (sample_run (initial_state 0) [frame_two_faces 1])
             (frame_two_faces_locked 2))) = Some false /\
   released
     (clip (fst (sample_step (sample_run (initial_state 0) [frame_two_faces 1])
                   (frame_two_faces_locked 2)))) =
   released (clip (sample_run (initial_state 0) [frame_two_faces 1]))).
Proof.
  split.
  - destruct (clip_of_a_confirmation unit 640 480 Rodrigues_fixed
                half_angle_arctan2 0 [frame_two_faces 1] (frame_two_faces 2)
                (sample_fires_on_second 0 1 2))
      as (Hcount & Hattempt & _).
    split; [exact Hcount | exact Hattempt].
  - destruct (clip_of_a_confirmation unit 640 480 Rodrigues_fixed
                half_angle_arctan2 0 [frame_two_faces 1] (frame_two_faces_locked 2)
                (sample_fires_on_second_locked 0 1 2))
      as (Hcount & Hattempt & _ & _ & _ & Hclosed).
    split; [exact Hcount |]. split; [exact Hattempt |].
    apply Hclosed. reflexivity.
Defined.

(** The pose history along the sample stream. *)
Lemma sample_hist_after_two_faces (t0 t : R) :
  hist (sample_run (initial_state t0) [frame_two_faces t]) =
  mkPoseHistory [Some (mkVec3 0 0 0); Some (mkVec3 0 0 0)]
                [Some (mkVec3 0 0 500); Some (mkVec3 100 0 600)] t.
Proof.
  change [frame_two_faces t] with ([] ++ [frame_two_faces t]).
  rewrite sample_run_snoc. unfold sample_step.
  rewrite process_frame_hist. reflexivity.
Qed.

Lemma sample_hist_after_one_face (t0 t t' : R) :
  hist (sample_run (initial_state t0) [frame_two_faces t; frame_one_face t']) =
  mkPoseHistory [Some (mkVec3 0 0 0); Some (mkVec3 0 0 0)]
                [Some (mkVec3 0 0 500); Some (mkVec3 100 0 600)] t'.
Proof.
  change [frame_two_faces t; frame_one_face t']
    with ([frame_two_faces t] ++ [frame_one_face t']).
  rewrite sample_run_snoc. unfold sample_step.
  rewrite process_frame_hist, sample_hist_after_two_faces. reflexivity.
Qed.

Lemma norm_along_depth (z : R) : 0 <= z -> norm (mkVec3 0 0 z) = z.
Proof.
  intros Hz. unfold norm. cbn [vx vy vz].
  replace (0 * 0 + 0 * 0 + z * z) with (z * z) by ring.
  apply sqrt_square, Hz.
Qed.

(** C7 on the sample stream: both slots are posed at t = 1, only slot 0 at
    t = 2, both again at t = 3 with slot 1 moved by 300 mm.  Slot 1's stored
    pose is still the one of t = 1, but [prev_time] is 2: the velocity
    reported for slot 1 at t = 3 is 300 / (3 - 2) = 300 mm/s, not
    300 / (3 - 1) = 150 mm/s. *)
Theorem slot_velocity_uses_shared_prev_time :
  (nth 1 (prev_tvecs (hist (sample_run (initial_state 0) [frame_two_faces 1]))) None
     = Some (mkVec3 100 0 600) /\
   prev_time (hist (sample_run (initial_state 0) [frame_two_faces 1])) = 1) /\
  (nth 1 (prev_tvecs (hist (sample_run (initial_state 0)
                              [frame_two_faces 1; frame_one_face 2]))) None
     = Some (mkVec3 100 0 600) /\
   prev_time (hist (sample_run (initial_state 0)
                      [frame_two_faces 1; frame_one_face 2])) = 2) /\
  map trans_vel
    (kinematics
       (snd (sample_step
               (sample_run (initial_state 0) [frame_two_faces 1; frame_one_face 2])
               (frame_two_faces_later 3))))
  = [Some 0; Some 300] /\
  norm (vsub (mkVec3 100 0 900) (mkVec3 100 0 600)) / (3 - 1) = 150.
Proof.
  assert (Hnorm : norm (vsub (mkVec3 100 0 900) (mkVec3 100 0 600)) = 300).
  { unfold vsub. cbn [vx vy vz].
    replace (100 - 100) with 0 by ring. replace (0 - 0) with 0 by ring.
    replace (900 - 600) with 300 by ring. apply norm_along_depth. lra. }
  assert (Hnorm0 : norm (vsub (mkVec3 0 0 500) (mkVec3 0 0 500)) = 0).
  { unfold vsub. cbn [vx vy vz].
    replace (0 - 0) with 0 by ring. replace (500 - 500) with 0 by ring.
    apply norm_along_depth. lra. }
  split; [rewrite sample_hist_after_two_faces; split; reflexivity |].
  split; [rewrite sample_hist_after_one_face; split; reflexivity |].
  split; [| rewrite Hnorm; lra].
  unfold sample_step. rewrite process_frame_kinematics, sample_hist_after_one_face.
  unfold detections_of, frame_two_faces_later.
  cbn [multi_face_landmarks first_pass face_near face_side_later pnp_success negb
       pnp_rvec pnp_tvec face_landmarks map now prev_time].
  unfold slot_kinematics, trans_vel_of.
  cbn [trans_vel fi tvec prev_tvecs nth].
  assert (Hdt : Rltb 1e-6 (3 - 2) = true) by (apply Rltb_true_iff; lra).
  rewrite Hdt, Hnorm, Hnorm0.
  replace (0 / (3 - 2)) with 0 by lra.
  replace (300 / (3 - 2)) with 300 by lra.
  reflexivity.
Qed.

(** * Further properties of the detector *)

(** ** Intersection over union (lines 245-267) *)

Lemma intersect_area_sym (a b : Box) :
  _intersect_area_xyxy a b = _intersect_area_xyxy b a.
Proof.
  destruct a as [[[ax1 ay1] ax2] ay2], b as [[[bx1 by1] bx2] by2].
  unfold _intersect_area_xyxy.
  rewrite (Z.max_comm ax1 bx1), (Z.max_comm ay1 by1),
    (Z.min_comm ax2 bx2), (Z.min_comm ay2 by2). reflexivity.
Qed.

Lemma intersect_area_bounds (ax1 ay1 ax2 ay2 bx1 by1 bx2 by2 : Z) :
  (0 <= _intersect_area_xyxy (ax1, ay1, ax2, ay2) (bx1, by1, bx2, by2)
     <= Z.max 0 (ax2 - ax1) * Z.max 0 (ay2 - ay1))%Z.
Proof.
  unfold _intersect_area_xyxy. split.
  - apply Z.mul_nonneg_nonneg; lia.
  - apply Z.mul_le_mono_nonneg; lia.
Qed.

(** X1. The intersection area of two boxes is never negative and never
    larger than the area of either box, whatever the corner order of the
    boxes; the ratio [compute_iou] returns always lies between 0 and 1. *)
Theorem compute_iou_between_0_and_1 :
  forall a b : Box,
    (0 <= _intersect_area_xyxy a b)%Z /\
    (_intersect_area_xyxy a b <= _intersect_area_xyxy a a)%Z /\
    (_intersect_area_xyxy a b <= _intersect_area_xyxy b b)%Z /\
    0 <= compute_iou a b <= 1.
Proof.
  intros [[[ax1 ay1] ax2] ay2] [[[bx1 by1] bx2] by2].
  pose proof (intersect_area_bounds ax1 ay1 ax2 ay2 bx1 by1 bx2 by2) as [H0 Ha].
  pose proof (intersect_area_bounds bx1 by1 bx2 by2 ax1 ay1 ax2 ay2) as [_ Hb].
  rewrite (intersect_area_sym (bx1, by1, bx2, by2)) in Hb.
  assert (Haa : _intersect_area_xyxy (ax1, ay1, ax2, ay2) (ax1, ay1, ax2, ay2) =
                (Z.max 0 (ax2 - ax1) * Z.max 0 (ay2 - ay1))%Z).
  { unfold _intersect_area_xyxy. rewrite !Z.max_id, !Z.min_id. reflexivity. }
  assert (Hbb : _intersect_area_xyxy (bx1, by1, bx2, by2) (bx1, by1, bx2, by2) =
                (Z.max 0 (bx2 - bx1) * Z.max 0 (by2 - by1))%Z).
  { unfold _intersect_area_xyxy. rewrite !Z.max_id, !Z.min_id. reflexivity. }
  split; [exact H0 |]. split; [rewrite Haa; exact Ha |].
  split; [rewrite Hbb; exact Hb |].
  unfold compute_iou.
  set (inter := _intersect_area_xyxy (ax1, ay1, ax2, ay2) (bx1, by1, bx2, by2)) in *.
  destruct (inter <=? 0)%Z eqn:Hinter; [lra |].
  apply Z.leb_gt in Hinter.
  set (union := (Z.max 0 (ax2 - ax1) * Z.max 0 (ay2 - ay1) +
                 Z.max 0 (bx2 - bx1) * Z.max 0 (by2 - by1) - inter)%Z).
  destruct (union <=? 0)%Z eqn:Hunion; [lra |].
  apply Z.leb_gt in Hunion.
  assert (Hle : (inter <= union)%Z) by (unfold union; lia).
  apply IZR_lt in Hinter, Hunion. apply IZR_le in Hle.
  split.
  - apply Rlt_le, Rdiv_lt_0_compat; assumption.
  - apply Rmult_le_reg_r with (r := IZR union); [exact Hunion |].
    unfold Rdiv. rewrite Rmult_assoc, Rinv_l by lra. lra.
Qed.

Lemma compute_iou_sym_aux (a b : Box) : compute_iou a b = compute_iou b a.
Proof.
  destruct a as [[[ax1 ay1] ax2] ay2], b as [[[bx1 by1] bx2] by2].
  unfold compute_iou.
  rewrite (intersect_area_sym (bx1, by1, bx2, by2) (ax1, ay1, ax2, ay2)).
  set (inter := _intersect_area_xyxy (ax1, ay1, ax2, ay2) (bx1, by1, bx2, by2)).
  replace (Z.max 0 (bx2 - bx1) * Z.max 0 (by2 - by1) +
           Z.max 0 (ax2 - ax1) * Z.max 0 (ay2 - ay1) - inter)%Z
    with (Z.max 0 (ax2 - ax1) * Z.max 0 (ay2 - ay1) +
          Z.max 0 (bx2 - bx1) * Z.max 0 (by2 - by1) - inter)%Z by ring.
  reflexivity.
Qed.

(** X2. The order of the two boxes does not matter. *)
Theorem compute_iou_symmetric :
  forall a b : Box, compute_iou a b = compute_iou b a.
Proof.
  intros a b. apply compute_iou_sym_aux.
Qed.

Lemma compute_iou_cases (ax1 ay1 ax2 ay2 bx1 by1 bx2 by2 : Z) :
  let inter := _intersect_area_xyxy (ax1, ay1, ax2, ay2) (bx1, by1, bx2, by2) in
  let overlap :=
    (Z.max ax1 bx1 < Z.min ax2 bx2 /\ Z.max ay1 by1 < Z.min ay2 by2)%Z in
  ((0 < inter)%Z <-> overlap) /\
  (overlap ->
   compute_iou (ax1, ay1, ax2, ay2) (bx1, by1, bx2, by2) =
   IZR inter /
   IZR ((ax2 - ax1) * (ay2 - ay1) + (bx2 - bx1) * (by2 - by1) - inter) /\
   0 < compute_iou (ax1, ay1, ax2, ay2) (bx1, by1, bx2, by2)) /\
  (~ overlap -> compute_iou (ax1, ay1, ax2, ay2) (bx1, by1, bx2, by2) = 0).
Proof.
  intros inter overlap.
  pose proof (intersect_area_bounds ax1 ay1 ax2 ay2 bx1 by1 bx2 by2) as [H0 Ha].
  pose proof (intersect_area_bounds bx1 by1 bx2 by2 ax1 ay1 ax2 ay2) as [_ Hb].
  rewrite (intersect_area_sym (bx1, by1, bx2, by2)) in Hb.
  fold inter in H0, Ha, Hb.
  assert (Hpos : (0 < inter)%Z <-> overlap).
  { unfold inter, overlap, _intersect_area_xyxy. split.
    - intros Hlt. split.
      + destruct (Z_lt_le_dec (Z.max ax1 bx1) (Z.min ax2 bx2)) as [Hx | Hx]; [exact Hx |].
        rewrite (Z.max_l 0 (Z.min ax2 bx2 - Z.max ax1 bx1)) in Hlt by lia. lia.
      + destruct (Z_lt_le_dec (Z.max ay1 by1) (Z.min ay2 by2)) as [Hy | Hy]; [exact Hy |].
        rewrite (Z.max_l 0 (Z.min ay2 by2 - Z.max ay1 by1)) in Hlt by lia. lia.
    - intros [Hx Hy]. apply Z.mul_pos_pos; lia. }
  split; [exact Hpos |]. split.
  - intros Hov. pose proof Hov as [Hx Hy]. apply Hpos in Hov.
    unfold compute_iou. fold inter.
    assert (Hi : (inter <=? 0)%Z = false) by (apply Z.leb_gt; exact Hov).
    rewrite Hi.
    rewrite (Z.max_r 0 (ax2 - ax1)), (Z.max_r 0 (ay2 - ay1)),
      (Z.max_r 0 (bx2 - bx1)), (Z.max_r 0 (by2 - by1)) in * by lia.
    assert (Hu : ((ax2 - ax1) * (ay2 - ay1) + (bx2 - bx1) * (by2 - by1) - inter <=? 0)%Z
                 = false) by (apply Z.leb_gt; lia).
    rewrite Hu. split; [reflexivity |].
    apply Rdiv_lt_0_compat; apply IZR_lt; lia.
  - intros Hn. unfold compute_iou. fold inter.
    assert (Hi : (inter <=? 0)%Z = true).
    { apply Z.leb_le. destruct (Z_lt_le_dec 0 inter) as [Hlt | Hle]; [| exact Hle].
      exfalso. apply Hn, Hpos, Hlt. }
    rewrite Hi. reflexivity.
Qed.

(** X3. The ratio is positive exactly when the two boxes share a region of
    positive area on both axes; then it is the intersection area over the
    sum of the two areas minus the intersection, and the guard
    [union <= 0] is never what returns.  Boxes that are apart or only touch
    along an edge give 0. *)
Theorem compute_iou_positive_iff_overlap :
  forall ax1 ay1 ax2 ay2 bx1 by1 bx2 by2 : Z,
    (0 < compute_iou (ax1, ay1, ax2, ay2) (bx1, by1, bx2, by2) <->
     (Z.max ax1 bx1 < Z.min ax2 bx2 /\ Z.max ay1 by1 < Z.min ay2 by2)%Z) /\
    ((Z.max ax1 bx1 < Z.min ax2 bx2 /\ Z.max ay1 by1 < Z.min ay2 by2)%Z ->
     compute_iou (ax1, ay1, ax2, ay2) (bx1, by1, bx2, by2) =
     IZR (_intersect_area_xyxy (ax1, ay1, ax2, ay2) (bx1, by1, bx2, by2)) /
     IZR ((ax2 - ax1) * (ay2 - ay1) + (bx2 - bx1) * (by2 - by1)
          - _intersect_area_xyxy (ax1, ay1, ax2, ay2) (bx1, by1, bx2, by2))) /\
    (~ (Z.max ax1 bx1 < Z.min ax2 bx2 /\ Z.max ay1 by1 < Z.min ay2 by2)%Z ->
     compute_iou (ax1, ay1, ax2, ay2) (bx1, by1, bx2, by2) = 0).
Proof.
  intros ax1 ay1 ax2 ay2 bx1 by1 bx2 by2.
  destruct (compute_iou_cases ax1 ay1 ax2 ay2 bx1 by1 bx2 by2)
    as (Hpos & Hvalue & Hzero).
  split; [| split].
  - split.
    + intros Hiou.
      destruct (Z_lt_le_dec (Z.max ax1 bx1) (Z.min ax2 bx2)) as [Hx | Hx];
        destruct (Z_lt_le_dec (Z.max ay1 by1) (Z.min ay2 by2)) as [Hy | Hy];
        try (split; assumption);
        rewrite Hzero in Hiou by lia; lra.
    + intros Hov. apply Hvalue, Hov.
  - intros Hov. apply Hvalue, Hov.
  - exact Hzero.
Qed.

(** X4. A box compared with itself gives 1 when it has positive width and
    height, and 0 when it is empty or has its corners out of order. *)
Theorem compute_iou_of_a_box_with_itself :
  forall x1 y1 x2 y2 : Z,
    compute_iou (x1, y1, x2, y2) (x1, y1, x2, y2) =
    if ((x1 <? x2) && (y1 <? y2))%Z then 1 else 0.
Proof.
  intros x1 y1 x2 y2.
  destruct (compute_iou_cases x1 y1 x2 y2 x1 y1 x2 y2) as (_ & Hvalue & Hzero).
  rewrite !Z.max_id, !Z.min_id in Hvalue, Hzero.
  destruct ((x1 <? x2) && (y1 <? y2))%Z eqn:Hbox.
  - apply andb_true_iff in Hbox as [Hx Hy]. apply Z.ltb_lt in Hx, Hy.
    destruct (Hvalue (conj Hx Hy)) as [-> _].
    unfold _intersect_area_xyxy. rewrite !Z.max_id, !Z.min_id.
    rewrite !Z.max_r by lia.
    replace ((x2 - x1) * (y2 - y1) + (x2 - x1) * (y2 - y1) - (x2 - x1) * (y2 - y1))%Z
      with ((x2 - x1) * (y2 - y1))%Z by ring.
    apply Rdiv_diag. apply not_0_IZR.
    assert (0 < (x2 - x1) * (y2 - y1))%Z by (apply Z.mul_pos_pos; lia). lia.
  - apply Hzero. intros [Hx Hy].
    apply Z.ltb_lt in Hx, Hy. rewrite Hx, Hy in Hbox. discriminate.
Qed.

(** ** Hit boxes and the landmarks they come from (lines 330-349) *)

Lemma column_bounds (zs : list Z) :
  forall z0 z, In z (z0 :: zs) ->
    (fold_left Z.min zs z0 <= z <= fold_left Z.max zs z0)%Z.
Proof.
  induction zs as [| y zs IH]; intros z0 z Hin; cbn [fold_left].
  - destruct Hin as [<- | []]. lia.
  - assert (Hlo : (fold_left Z.min zs (Z.min z0 y) <= Z.min z0 y)%Z)
      by (apply (IH (Z.min z0 y) (Z.min z0 y)); left; reflexivity).
    assert (Hhi : (Z.max z0 y <= fold_left Z.max zs (Z.max z0 y))%Z)
      by (apply (IH (Z.max z0 y) (Z.max z0 y)); left; reflexivity).
    destruct Hin as [<- | [<- | Hin]].
    + lia.
    + lia.
    + split.
      * apply (IH (Z.min z0 y) z). right. exact Hin.
      * apply (IH (Z.max z0 y) z). right. exact Hin.
Qed.

(** One axis: a pixel between the extrema that is inside the frame stays
    between the two clamped ends. *)
Lemma clipped_axis_covers (n lo hi p : Z) :
  (lo <= p <= hi)%Z -> (0 <= p <= n - 1)%Z ->
  let a := IZR (lo - BOX_PADDING) in
  let b := IZR (hi + BOX_PADDING) in
  (python_int (np_clip (0.5 * (a + b) - 0.5 * (b - a) * HITBOX_SCALE) 0 (IZR (n - 1)))
   <= p <=
   python_int (np_clip (0.5 * (a + b) + 0.5 * (b - a) * HITBOX_SCALE) 0 (IZR (n - 1))))%Z.
Proof.
  intros Hp Hframe a b.
  assert (Ha : a <= IZR p - 20)
    by (unfold a, BOX_PADDING; rewrite minus_IZR; apply Rplus_le_compat_r, IZR_le; lia).
  assert (Hb : IZR p + 20 <= b)
    by (unfold b, BOX_PADDING; rewrite plus_IZR; apply Rplus_le_compat_r, IZR_le; lia).
  assert (Hp0 : 0 <= IZR p) by (apply IZR_le; lia).
  assert (Hpn : IZR p <= IZR (n - 1)) by (apply IZR_le; lia).
  assert (Hhi : 0 <= IZR (n - 1)) by lra.
  pose proof (np_clip_bounds (0.5 * (a + b) - 0.5 * (b - a) * HITBOX_SCALE) 0 (IZR (n - 1)) Hhi)
    as [Hl0 _].
  pose proof (np_clip_bounds (0.5 * (a + b) + 0.5 * (b - a) * HITBOX_SCALE) 0 (IZR (n - 1)) Hhi)
    as [Hh0 _].
  rewrite !python_int_nonneg by assumption.
  split.
  - apply le_IZR.
    apply Rle_trans with (np_clip (0.5 * (a + b) - 0.5 * (b - a) * HITBOX_SCALE) 0 (IZR (n - 1))).
    + apply Zfloor_bound.
    + unfold np_clip, Rmin, Rmax, HITBOX_SCALE.
      destruct (Rle_dec (0.5 * (a + b) - 0.5 * (b - a) * 1.2) 0);
        destruct (Rle_dec _ (IZR (n - 1))); lra.
  - apply Zfloor_lub.
    unfold np_clip, Rmin, Rmax, HITBOX_SCALE.
    destruct (Rle_dec (0.5 * (a + b) + 0.5 * (b - a) * 1.2) 0);
      destruct (Rle_dec _ (IZR (n - 1))); lra.
Qed.

(** X5. The hit box of a face contains every one of its landmarks whose
    pixel lies inside the frame: padding and scaling only widen the box,
    and clamping to the frame cannot cut such a pixel off. *)
Theorem hitbox_covers_landmarks_in_frame :
  forall (w h : Z) (ls : LandmarkSet) (lm : Landmark),
    In lm (landmark ls) ->
    (0 <= x_px w lm <= w - 1)%Z ->
    (0 <= y_px h lm <= h - 1)%Z ->
    box_contains (hitbox w h ls) (x_px w lm) (y_px h lm).
Proof.
  intros w h ls lm Hin Hx Hy. unfold box_contains, hitbox.
  assert (Hxs : In (x_px w lm) (x_px w (lm_first ls) :: map (x_px w) (lm_others ls)))
    by (change (In (x_px w lm) (map (x_px w) (landmark ls))); apply in_map, Hin).
  assert (Hys : In (y_px h lm) (y_px h (lm_first ls) :: map (y_px h) (lm_others ls)))
    by (change (In (y_px h lm) (map (y_px h) (landmark ls))); apply in_map, Hin).
  apply column_bounds in Hxs. apply column_bounds in Hys.
  cbv zeta. split.
  - apply (clipped_axis_covers w _ _ _ Hxs Hx).
  - apply (clipped_axis_covers h _ _ _ Hys Hy).
Qed.

Lemma sample_landmark_pixel :
  x_px 640 (mkLandmark 0.5 0.5) = 320%Z /\ y_px 480 (mkLandmark 0.5 0.5) = 240%Z.
Proof.
  unfold x_px, y_px. cbn [lm_x lm_y].
  replace (0.5 * IZR 640) with (IZR 320) by lra.
  replace (0.5 * IZR 480) with (IZR 240) by lra.
  rewrite !python_int_IZR. split; reflexivity.
Qed.

(** X5 at the landmark of the sample face in a 640 by 480 frame. *)
Lemma hitbox_covers_landmarks_in_frame_witness :
  box_contains (hitbox 640 480 sample_landmarks)
    (x_px 640 (mkLandmark 0.5 0.5)) (y_px 480 (mkLandmark 0.5 0.5)).
Proof.
  apply (hitbox_covers_landmarks_in_frame 640 480 sample_landmarks (mkLandmark 0.5 0.5)).
  - left. reflexivity.
  - destruct sample_landmark_pixel as [-> _]. lia.
  - destruct sample_landmark_pixel as [_ ->]. lia.
Defined.

(** ** The debounce on its own (lines 473-488) *)

Lemma confirmation_run_held (n : nat) :
  forall cs,
    currently_overlapping cs = true ->
    (FRAMES_CONFIRM <= overlap_streak cs)%Z ->
    confirmation_run cs (repeat true n) = repeat false n.
Proof.
  induction n as [| n IH]; intros cs Hflag Hstreak; cbn [repeat confirmation_run].
  - reflexivity.
  - destruct (temporal_confirmation_held cs Hflag Hstreak) as (Hno & Hflag' & Hstreak').
    destruct (temporal_confirmation true cs) as [cs' fires]. cbn [fst snd] in *.
    rewrite Hno. f_equal. apply IH; assumption.
Qed.

(** X6. However long an unbroken run of true raw tests lasts, it is
    confirmed once: from the initial state the branch is taken at the test
    of index [FRAMES_CONFIRM - 1 = 1] and at no other. *)
Theorem unbroken_run_confirms_once :
  forall n : nat,
    true_indices 0 (confirmation_run initial_collision_state (repeat true n)) =
    if (n <? 2)%nat then [] else [1%nat].
Proof.
  intros [| [| n]]; [reflexivity | reflexivity |].
  change (S (S n) <? 2)%nat with false. cbv iota.
  change (repeat true (S (S n))) with (true :: true :: repeat true n).
  unfold initial_collision_state. cbn [confirmation_run].
  cbn [temporal_confirmation overlap_streak currently_overlapping collision_count
       fst snd].
  change (FRAMES_CONFIRM <=? 0 + 1)%Z with false.
  change (FRAMES_CONFIRM <=? 0 + 1 + 1)%Z with true.
  cbn [andb negb true_indices app].
  rewrite confirmation_run_held; [| reflexivity | cbn; unfold FRAMES_CONFIRM; lia].
  f_equal. generalize 2%nat.
  induction n as [| n IH]; intros i; cbn [repeat true_indices app].
  - reflexivity.
  - apply IH.
Qed.

Lemma isolated_tests_never_confirm_from (raw : list bool) :
  forall cs,
    currently_overlapping cs = false ->
    (overlap_streak cs = 0%Z \/ (overlap_streak cs = 1%Z /\ hd false raw = false)) ->
    (forall i, nth i raw false = true -> nth (S i) raw false = false) ->
    ~ In true (confirmation_run cs raw).
Proof.
  induction raw as [| b rest IH]; intros cs Hflag Hstreak Hiso; cbn [confirmation_run].
  - intros [].
  - assert (Hrest : forall i, nth i rest false = true -> nth (S i) rest false = false)
      by (intros i Hi; apply (Hiso (S i)); exact Hi).
    unfold temporal_confirmation. rewrite Hflag.
    destruct b.
    + destruct Hstreak as [H0 | [_ Hhd]]; [| discriminate].
      rewrite H0. change (FRAMES_CONFIRM <=? 0 + 1)%Z with false.
      cbn [andb negb]. intros [Habs | Hin]; [discriminate |].
      revert Hin. apply IH; cbn; auto.
      right. split; [reflexivity |].
      specialize (Hiso 0%nat eq_refl). destruct rest; [reflexivity | exact Hiso].
    + change (FRAMES_CONFIRM <=? 0)%Z with false.
      cbn [andb negb]. intros [Habs | Hin]; [discriminate |].
      revert Hin. apply IH; cbn; auto.
Qed.

(** ** What the main loop keeps true (lines 308-502) *)

Section LoopInvariants.

Variable Frame : Type.
Variables w h : Z.
Variable Rodrigues : Vec3 -> Mat3.
Variable arctan2 : R -> R -> R.

Local Abbreviation step := (process_frame (Frame:=Frame) w h Rodrigues arctan2).
Local Abbreviation dets_of := (detections_of (Frame:=Frame) w h Rodrigues arctan2).
Local Abbreviation trace_of := (trace (Frame:=Frame) w h Rodrigues arctan2).
Local Abbreviation run_of := (run (Frame:=Frame) w h Rodrigues arctan2).

Lemma coll_step_invariant (st : State Frame) (fr : FrameInput Frame) :
  (0 <= overlap_streak (coll st))%Z ->
  currently_overlapping (coll st) = (FRAMES_CONFIRM <=? overlap_streak (coll st))%Z ->
  (0 <= overlap_streak (coll (fst (step st fr))))%Z /\
  currently_overlapping (coll (fst (step st fr))) =
    (FRAMES_CONFIRM <=? overlap_streak (coll (fst (step st fr))))%Z.
Proof.
  intros Hstreak Hflag. rewrite process_frame_coll.
  destruct (dets_of fr) as [| d ds]; [split; assumption |].
  split; [| apply temporal_confirmation_flag].
  rewrite temporal_confirmation_streak. destruct (is_collision_now _); lia.
Qed.

Lemma run_coll_invariant (t0 : R) (frames : list (FrameInput Frame)) :
  (0 <= overlap_streak (coll (run_of (initial_state t0) frames)))%Z /\
  currently_overlapping (coll (run_of (initial_state t0) frames)) =
    (FRAMES_CONFIRM <=? overlap_streak (coll (run_of (initial_state t0) frames)))%Z.
Proof.
  apply (run_invariant Frame w h Rodrigues arctan2
           (fun st => (0 <= overlap_streak (coll st))%Z /\
                      currently_overlapping (coll st) =
                      (FRAMES_CONFIRM <=? overlap_streak (coll st))%Z)).
  - intros st fr [H1 H2]. apply coll_step_invariant; assumption.
  - split; [cbn; lia | reflexivity].
Qed.

Lemma filter_conj_length {A : Type} (p q : A -> bool) (l : list A) :
  (length (filter (fun x => p x && q x) l) <= length (filter p l))%nat.
Proof.
  induction l as [| x l IH]; cbn [filter]; [apply Nat.le_refl |].
  destruct (p x); cbn [andb]; [| exact IH].
  destruct (q x); cbn [length]; lia.
Qed.

(** Counting along a run, from any state with no sink open. *)
Lemma run_counts (frames : list (FrameInput Frame)) :
  forall st,
    recorder_idle (clip st) ->
    collision_count (coll (run_of st frames)) =
      (collision_count (coll st) +
       Z.of_nat (length (filter (fun s => fired (output s)) (trace_of st frames))))%Z /\
    map named_at (released (clip (run_of st frames))) =
      map named_at (released (clip st)) ++
      map (fun s => now (input s))
          (filter (fun s => fired (output s) && writer_opens (input s))
                  (trace_of st frames)).
Proof.
  induction frames as [| fr rest IH]; intros st Hidle.
  - cbn. rewrite app_nil_r. split; [lia | reflexivity].
  - rewrite run_cons, trace_cons. cbn [filter output input].
    destruct (IH (fst (step st fr)) (process_frame_idle Frame w h Rodrigues arctan2 st fr Hidle))
      as [Hcount Hrel].
    destruct (process_frame_clip Frame w h Rodrigues arctan2 st fr Hidle) as [Hclip _].
    rewrite Hcount, Hrel, Hclip. cbn [released].
    assert (Hc : collision_count (coll (fst (step st fr))) =
                 (collision_count (coll st) + if fired (snd (step st fr)) then 1 else 0)%Z).
    { rewrite process_frame_coll, process_frame_fired.
      destruct (dets_of fr) as [| d ds]; [lia |].
      apply temporal_confirmation_count. }
    rewrite Hc. destruct (fired (snd (step st fr))); cbn [andb].
    + split; [cbn [length]; lia |].
      destruct (writer_opens fr); cbn [map app].
      * rewrite map_app, <- app_assoc. reflexivity.
      * rewrite app_nil_r. reflexivity.
    + split; [lia |]. rewrite app_nil_r. reflexivity.
Qed.

Lemma run_prebuffer_bounded (t0 : R) (frames : list (FrameInput Frame)) :
  (length (prebuffer (clip (run_of (initial_state t0) frames))) <= 100)%nat.
Proof.
  induction frames as [| fr frames' _] using rev_ind; [cbn; lia |].
  rewrite run_prebuffer_snoc. unfold push.
  destruct (evict_spec Frame (prebuffer (clip (run_of (initial_state t0) frames'))
                                ++ [(now fr, rendered fr)])) as [_ Hkept].
  rewrite Hkept. lia.
Qed.

(** X8. In every state the loop reaches: the streak is not negative, the
    flag is exactly [overlap_streak >= FRAMES_CONFIRM], no clip sink is
    open, both pose lists have the same length, the buffer holds at most
    100 entries, and no more clips were released than collisions counted. *)
Theorem loop_state_invariant :
  forall (t0 : R) (frames : list (FrameInput Frame)),
    let st := run w h Rodrigues arctan2 (initial_state t0) frames in
    (0 <= overlap_streak (coll st))%Z /\
    currently_overlapping (coll st) = (FRAMES_CONFIRM <=? overlap_streak (coll st))%Z /\
    clip_active (clip st) = false /\
    clip_writer (clip st) = None /\
    length (prev_rvecs (hist st)) = length (prev_tvecs (hist st)) /\
    (length (prebuffer (clip st)) <= 100)%nat /\
    (0 <= Z.of_nat (length (released (clip st))) <= collision_count (coll st))%Z.
Proof.
  intros t0 frames st.
  destruct (run_coll_invariant t0 frames) as [Hstreak Hflag].
  destruct (run_idle Frame w h Rodrigues arctan2 t0 frames) as [Hactive Hwriter].
  destruct (run_aligned Frame w h Rodrigues arctan2 t0 frames) as [Hlen _].
  split; [exact Hstreak |]. split; [exact Hflag |].
  split; [exact Hactive |]. split; [exact Hwriter |]. split; [exact Hlen |].
  split.
  - apply run_prebuffer_bounded.
  - destruct (run_counts frames (initial_state t0)) as [Hcount Hrel];
      [split; reflexivity |].
    fold st in Hcount, Hrel. rewrite Hcount.
    apply (f_equal (@length R)) in Hrel.
    cbn [initial_state clip released map app] in Hrel.
    rewrite !length_map in Hrel.
    rewrite Hrel. cbn [initial_state coll initial_collision_state collision_count].
    split; [lia |].
    rewrite Z.add_0_l. apply inj_le, filter_conj_length.
Qed.

(** X9. The counter is the number of iterations that took the confirmation
    branch, and the released clips are, in order, one per such iteration
    whose sink opened, each named after that iteration's time. *)
Theorem count_and_clips_follow_confirmations :
  forall (t0 : R) (frames : list (FrameInput Frame)),
    let st := run w h Rodrigues arctan2 (initial_state t0) frames in
    let tr := trace w h Rodrigues arctan2 (initial_state t0) frames in
    collision_count (coll st) =
      Z.of_nat (length (filter (fun s => fired (output s)) tr)) /\
    map named_at (released (clip st)) =
      map (fun s => now (input s))
          (filter (fun s => fired (output s) && writer_opens (input s)) tr).
Proof.
  intros t0 frames st tr. unfold st, tr.
  destruct (run_counts frames (initial_state t0)) as [Hcount Hrel];
    [split; reflexivity |].
  split; [rewrite Hcount; reflexivity | exact Hrel].
Qed.

Lemma raw_true_two_detections (dets : list Detection) :
  is_collision_now dets = true -> (2 <= length dets)%nat.
Proof.
  destruct dets as [| d [| d' ds]]; try discriminate. cbn. lia.
Qed.

Lemma trace_step_facts (t0 : R) (frames : list (FrameInput Frame)) (s : Step Frame) :
  In s (trace_of (initial_state t0) frames) ->
  (0 <= overlap_streak (coll (pre s)))%Z /\
  currently_overlapping (coll (pre s)) =
    (FRAMES_CONFIRM <=? overlap_streak (coll (pre s)))%Z /\
  output s = snd (step (pre s) (input s)) /\
  post s = fst (step (pre s) (input s)).
Proof.
  intros Hin. apply In_nth_error in Hin as [k Hk].
  destruct (trace_nth Frame w h Rodrigues arctan2
              (fun st => (0 <= overlap_streak (coll st))%Z /\
                         currently_overlapping (coll st) =
                         (FRAMES_CONFIRM <=? overlap_streak (coll st))%Z)
              (fun st fr H => coll_step_invariant st fr (proj1 H) (proj2 H))
              frames (initial_state t0) k s)
    as ([Hs Hf] & _ & Hout & Hpost).
  - split; [cbn; lia | reflexivity].
  - exact Hk.
  - auto.
Qed.

(** X10. A collision is only ever confirmed on a frame that has at least
    two posed faces and a true raw test, when the flag was false and the
    streak stood at 1: the confirming frame is the second true test of its
    streak, and frames with fewer than two posed faces never confirm. *)
Theorem confirmation_needs_colliding_pair :
  forall (t0 : R) (frames : list (FrameInput Frame)),
    Forall
      (fun s =>
         fired (output s) = true ->
         (2 <= length (detections_of w h Rodrigues arctan2 (input s)))%nat /\
         is_collision_now (detections_of w h Rodrigues arctan2 (input s)) = true /\
         currently_overlapping (coll (pre s)) = false /\
         overlap_streak (coll (pre s)) = 1%Z /\
         overlap_streak (coll (post s)) = FRAMES_CONFIRM)
      (trace w h Rodrigues arctan2 (initial_state t0) frames).
Proof.
  intros t0 frames. apply Forall_forall. intros s Hin Hfired.
  destruct (trace_step_facts t0 frames s Hin) as (Hs & Hf & Hout & Hpost).
  rewrite Hout, process_frame_fired in Hfired.
  rewrite Hpost, process_frame_coll.
  destruct (dets_of (input s)) as [| d ds] eqn:Hdets; [discriminate |].
  rewrite temporal_confirmation_streak.
  unfold temporal_confirmation in Hfired. cbn [snd] in Hfired.
  apply andb_true_iff in Hfired as [Hconf Hnot].
  apply negb_true_iff in Hnot. rewrite Hnot in Hf. symmetry in Hf.
  apply Z.leb_gt in Hf. apply Z.leb_le in Hconf.
  destruct (is_collision_now (d :: ds)) eqn:Hraw;
    [| unfold FRAMES_CONFIRM in Hconf; lia].
  split; [apply raw_true_two_detections, Hraw |].
  split; [reflexivity |]. split; [exact Hnot |].
  unfold FRAMES_CONFIRM in *. split; lia.
Qed.

(** From a confirmed state, the flag can only be found false again after a
    frame with a posed face and a false raw test. *)
Lemma drop_needs_reset (frames : list (FrameInput Frame)) :
  forall st m sm,
    currently_overlapping (coll st) = true ->
    (FRAMES_CONFIRM <= overlap_streak (coll st))%Z ->
    nth_error (trace_of st frames) m = Some sm ->
    currently_overlapping (coll (pre sm)) = false ->
    exists k sk,
      (k < m)%nat /\ nth_error (trace_of st frames) k = Some sk /\
      dets_of (input sk) <> [] /\
      is_collision_now (dets_of (input sk)) = false.
Proof.
  induction frames as [| fr rest IH]; intros st m sm Hflag Hstreak Hm Hdrop.
  - destruct m; discriminate.
  - rewrite trace_cons in Hm. destruct m as [| m]; cbn [nth_error] in Hm.
    + injection Hm as <-. cbn [pre] in Hdrop. congruence.
    + destruct (dets_of fr) as [| d ds] eqn:Hdets.
      * destruct (IH (fst (step st fr)) m sm) as (k & sk & Hk & Hsk & Hne & Hraw);
          try assumption;
          try (rewrite process_frame_coll, Hdets; assumption).
        exists (S k), sk. rewrite trace_cons. cbn [nth_error].
        repeat split; auto. lia.
      * destruct (is_collision_now (d :: ds)) eqn:Hraw.
        -- destruct (temporal_confirmation_held (coll st) Hflag Hstreak)
             as (_ & Hflag' & Hstreak').
           destruct (IH (fst (step st fr)) m sm) as (k & sk & Hk & Hsk & Hne & Hraw');
             try assumption;
             try (rewrite process_frame_coll, Hdets, Hraw; assumption).
           exists (S k), sk. rewrite trace_cons. cbn [nth_error].
           repeat split; auto. lia.
        -- exists 0%nat, (mkStep st fr (snd (step st fr)) (fst (step st fr))).
           rewrite trace_cons. cbn [nth_error input].
           split; [lia |]. split; [reflexivity |].
           rewrite Hdets. split; [discriminate | exact Hraw].
Qed.

(** X11. Between two confirmations there is always a frame with a posed
    face whose raw test is false: the streak has to be reset before the
    counter can go up again. *)
Theorem confirmations_are_separated_by_a_reset :
  forall (t0 : R) (frames : list (FrameInput Frame)) (i j : nat) (si sj : Step Frame),
    (i < j)%nat ->
    nth_error (trace w h Rodrigues arctan2 (initial_state t0) frames) i = Some si ->
    nth_error (trace w h Rodrigues arctan2 (initial_state t0) frames) j = Some sj ->
    fired (output si) = true ->
    fired (output sj) = true ->
    exists k sk,
      (i < k < j)%nat /\
      nth_error (trace w h Rodrigues arctan2 (initial_state t0) frames) k = Some sk /\
      detections_of w h Rodrigues arctan2 (input sk) <> [] /\
      is_collision_now (detections_of w h Rodrigues arctan2 (input sk)) = false.
Proof.
  intros t0 frames i j si sj Hij Hi Hj Hfi Hfj.
  assert (Hini : In si (trace_of (initial_state t0) frames))
    by (eapply nth_error_In; exact Hi).
  assert (Hinj : In sj (trace_of (initial_state t0) frames))
    by (eapply nth_error_In; exact Hj).
  destruct (trace_step_facts t0 frames si Hini) as (_ & _ & Houti & Hposti).
  destruct (trace_step_facts t0 frames sj Hinj) as (_ & Hfj' & Houtj & _).
  (* the state after the first confirmation is confirmed *)
  rewrite Houti, process_frame_fired in Hfi.
  destruct (dets_of (input si)) as [| d ds] eqn:Hdi; [discriminate |].
  apply temporal_confirmation_edge in Hfi as [_ Hflag].
  pose proof (temporal_confirmation_flag (is_collision_now (d :: ds)) (coll (pre si)))
    as Hconf.
  rewrite Hflag in Hconf. symmetry in Hconf. apply Z.leb_le in Hconf.
  assert (Hcoll : coll (post si) =
                  fst (temporal_confirmation (is_collision_now (d :: ds)) (coll (pre si))))
    by (rewrite Hposti, process_frame_coll, Hdi; reflexivity).
  (* the second confirmation finds the flag false *)
  rewrite Houtj, process_frame_fired in Hfj.
  destruct (dets_of (input sj)) as [| d' ds'] eqn:Hdj; [discriminate |].
  apply temporal_confirmation_edge in Hfj as [Hdrop _].
  replace j with (S i + (j - S i))%nat in Hj by lia.
  rewrite (trace_drop Frame w h Rodrigues arctan2 frames _ i si _ Hi) in Hj.
  destruct (drop_needs_reset (skipn (S i) frames) (post si) (j - S i)%nat sj)
    as (k & sk & Hk & Hsk & Hne & Hraw).
  - rewrite Hcoll. exact Hflag.
  - rewrite Hcoll. exact Hconf.
  - exact Hj.
  - exact Hdrop.
  - exists (S i + k)%nat, sk. split; [lia |].
    rewrite (trace_drop Frame w h Rodrigues arctan2 frames _ i si _ Hi).
    auto.
Qed.


(** *** The pose history *)

Lemma fold_store_prev_time (now_ : R) (dets : list Detection) :
  forall hs,
    prev_time (fold_left (store_pose now_) dets hs) =
    match dets with [] => prev_time hs | _ :: _ => now_ end.
Proof.
  induction dets as [| d ds IH]; intros hs; cbn [fold_left]; [reflexivity |].
  rewrite IH. destruct ds; reflexivity.
Qed.

Lemma process_frame_prev_time (st : State Frame) (fr : FrameInput Frame) :
  prev_time (hist (fst (step st fr))) =
  match dets_of fr with
  | [] => prev_time (hist st)
  | _ :: _ => now fr
  end.
Proof.
  rewrite process_frame_hist. unfold detections_of.
  destruct (multi_face_landmarks fr) as [| f fs]; [reflexivity |].
  rewrite fold_store_prev_time. reflexivity.
Qed.

(** X12. [prev_time] is the time of the last frame in which some face was
    posed, or the start time when there was none: frames without a posed
    face leave it alone, and it is shared by all slots.  The [dt] of the
    next frame is measured from there. *)
Theorem prev_time_is_time_of_last_posed_frame :
  forall (t0 : R) (frames : list (FrameInput Frame)),
    let st := run w h Rodrigues arctan2 (initial_state t0) frames in
    ((forall fr, In fr frames -> detections_of w h Rodrigues arctan2 fr = []) /\
     prev_time (hist st) = t0) \/
    (exists before fr after,
        frames = before ++ fr :: after /\
        detections_of w h Rodrigues arctan2 fr <> [] /\
        (forall f, In f after -> detections_of w h Rodrigues arctan2 f = []) /\
        prev_time (hist st) = now fr).
Proof.
  intros t0 frames. cbv zeta.
  induction frames as [| fr frames' IH] using rev_ind.
  - left. split; [intros fr [] | reflexivity].
  - rewrite run_app, run_cons.
    change (run_of (fst (step (run_of (initial_state t0) frames') fr)) [])
      with (fst (step (run_of (initial_state t0) frames') fr)).
    rewrite process_frame_prev_time.
    destruct (dets_of fr) as [| d ds] eqn:Hdets.
    + destruct IH as [[Hnone Ht] | (before & fr' & after & Hsplit & Hposed & Hafter & Ht)].
      * left. split; [| exact Ht].
        intros f Hin. apply in_app_or in Hin as [Hin | [<- | []]];
          [apply Hnone, Hin | exact Hdets].
      * right. exists before, fr', (after ++ [fr]).
        split; [rewrite Hsplit, <- app_assoc; reflexivity |].
        split; [exact Hposed |]. split; [| exact Ht].
        intros f Hin. apply in_app_or in Hin as [Hin | [<- | []]];
          [apply Hafter, Hin | exact Hdets].
    + right. exists frames', fr, []. split; [reflexivity |].
      split; [rewrite Hdets; discriminate |].
      split; [intros f [] | reflexivity].
Qed.

Lemma first_pass_slots_distinct (faces : list Face) :
  forall idx, NoDup (map fi (first_pass w h Rodrigues arctan2 idx faces)).
Proof.
  induction faces as [| face rest IH]; intros idx; cbn [first_pass].
  - constructor.
  - destruct (pnp_success face); cbn [negb map]; [| apply IH].
    constructor; [| apply IH].
    cbn [fi]. intros Hin. apply in_map_iff in Hin as (d' & Hfi & Hd).
    apply first_pass_fi_range in Hd. lia.
Qed.

Lemma fold_store_lookup (now_ : R) (dets : list Detection) :
  forall hs,
    NoDup (map fi dets) ->
    (forall d, In d dets ->
       (fi d < length (prev_rvecs hs))%nat /\ (fi d < length (prev_tvecs hs))%nat) ->
    let hs' := fold_left (store_pose now_) dets hs in
    (forall d, In d dets ->
       nth (fi d) (prev_rvecs hs') None = Some (rvec d) /\
       nth (fi d) (prev_tvecs hs') None = Some (tvec d)) /\
    (forall i, ~ In i (map fi dets) ->
       nth i (prev_rvecs hs') None = nth i (prev_rvecs hs) None /\
       nth i (prev_tvecs hs') None = nth i (prev_tvecs hs) None) /\
    length (prev_rvecs hs') = length (prev_rvecs hs) /\
    length (prev_tvecs hs') = length (prev_tvecs hs).
Proof.
  induction dets as [| d ds IH]; intros hs Hnodup Hrange; cbn [fold_left].
  - cbv zeta. split; [intros d0 [] |].
    split; [intros i _; split; reflexivity | split; reflexivity].
  - apply NoDup_cons_iff in Hnodup as [Hfresh Hnodup]. cbn [map] in *.
    destruct (Hrange d (or_introl eq_refl)) as [Hr Ht].
    destruct (IH (store_pose now_ hs d) Hnodup) as (Hstored & Hother & Hlr & Hlt).
    { intros d' Hd'. unfold store_pose. cbn [prev_rvecs prev_tvecs].
      rewrite !list_assign_length. apply Hrange. right. exact Hd'. }
    cbv zeta in *.
    split; [| split].
    + intros d' [<- | Hd']; [| apply Hstored, Hd'].
      destruct (Hother (fi d) Hfresh) as [Hor Hot].
      rewrite Hor, Hot. unfold store_pose. cbn [prev_rvecs prev_tvecs].
      rewrite !nth_list_assign_same by assumption. split; reflexivity.
    + intros i Hi.
      destruct (Hother i) as [Hor Hot]; [intros Hin; apply Hi; right; exact Hin |].
      rewrite Hor, Hot. unfold store_pose. cbn [prev_rvecs prev_tvecs].
      rewrite !nth_list_assign_other by (intros Heq; apply Hi; left; exact Heq).
      split; reflexivity.
    + rewrite Hlr, Hlt. unfold store_pose. cbn [prev_rvecs prev_tvecs].
      rewrite !list_assign_length. split; reflexivity.
Qed.

(** X13. After a frame, every slot posed in it holds exactly that frame's
    rotation and translation vectors, every other slot holds what it held
    before (a slot never loses its pose), and both lists have grown to the
    larger of their old length and the number of faces in the frame. *)
Theorem pose_history_after_frame :
  forall (st : State Frame) (fr : FrameInput Frame),
    let st' := fst (process_frame w h Rodrigues arctan2 st fr) in
    (forall d, In d (detections_of w h Rodrigues arctan2 fr) ->
       nth (fi d) (prev_rvecs (hist st')) None = Some (rvec d) /\
       nth (fi d) (prev_tvecs (hist st')) None = Some (tvec d)) /\
    (forall i, ~ In i (map fi (detections_of w h Rodrigues arctan2 fr)) ->
       nth i (prev_rvecs (hist st')) None = nth i (prev_rvecs (hist st)) None /\
       nth i (prev_tvecs (hist st')) None = nth i (prev_tvecs (hist st)) None) /\
    length (prev_rvecs (hist st')) =
      Nat.max (length (prev_rvecs (hist st))) (length (multi_face_landmarks fr)) /\
    length (prev_tvecs (hist st')) =
      Nat.max (length (prev_tvecs (hist st))) (length (multi_face_landmarks fr)).
Proof.
  intros st fr. cbv zeta. rewrite process_frame_hist. unfold detections_of.
  destruct (multi_face_landmarks fr) as [| f fs] eqn:Hfaces.
  - cbn [first_pass map length]. rewrite !Nat.max_0_r.
    split; [intros d [] |].
    split; [intros i _; split; reflexivity | split; reflexivity].
  - destruct (fold_store_lookup (now fr) (first_pass w h Rodrigues arctan2 0 (f :: fs))
                (pad_history (hist st) (length (f :: fs))))
      as (Hstored & Hother & Hlr & Hlt).
    + apply first_pass_slots_distinct.
    + intros d Hd. apply first_pass_fi_lt in Hd.
      unfold pad_history. cbn [prev_rvecs prev_tvecs].
      rewrite !pad_none_length. lia.
    + cbv zeta in *. split; [exact Hstored |]. split.
      * intros i Hi. destruct (Hother i Hi) as [Hor Hot].
        rewrite Hor, Hot. unfold pad_history. cbn [prev_rvecs prev_tvecs].
        rewrite !nth_pad_none. split; reflexivity.
      * rewrite Hlr, Hlt. unfold pad_history. cbn [prev_rvecs prev_tvecs].
        rewrite !pad_none_length. split; reflexivity.
Qed.


(** *** The buffer and the clips, end to end *)

Lemma app_then_skipn {A : Type} (l1 l2 l : list A) :
  l1 ++ l2 = l -> l2 = skipn (length l1) l.
Proof.
  intros <-. rewrite skipn_app, skipn_all, Nat.sub_diag. reflexivity.
Qed.

Lemma evict_skipn (buf : list (R * Frame)) :
  snd (evict buf) = skipn (length buf - 100) buf.
Proof.
  destruct (evict_spec Frame buf) as [Happ Hlen].
  assert (Hpop : length (fst (evict buf)) = (length buf - 100)%nat).
  { apply (f_equal (@length (R * Frame))) in Happ.
    rewrite length_app in Happ. lia. }
  rewrite <- Hpop. apply app_then_skipn, Happ.
Qed.

Lemma run_prebuffer_latest (t0 : R) (frames : list (FrameInput Frame)) :
  prebuffer (clip (run_of (initial_state t0) frames)) =
  skipn (length frames - 100) (map (fun fr => (now fr, rendered fr)) frames).
Proof.
  induction frames as [| fr frames' IH] using rev_ind; [reflexivity |].
  rewrite run_prebuffer_snoc, IH. unfold push. rewrite evict_skipn.
  set (entries := map (fun fr => (now fr, rendered fr)) frames').
  assert (Hn : length entries = length frames') by (unfold entries; apply length_map).
  rewrite map_app. fold entries. cbn [map].
  rewrite !length_app, length_skipn, Hn. cbn [length].
  rewrite (skipn_app (length frames' + 1 - 100) entries).
  rewrite skipn_app, skipn_skipn, length_skipn, Hn.
  replace (length frames' - (length frames' - 100) + 1 - 100 + (length frames' - 100))%nat
    with (length frames' + 1 - 100)%nat by lia.
  replace (length frames' - (length frames' - 100) + 1 - 100
           - (length frames' - (length frames' - 100)))%nat with 0%nat by lia.
  replace (length frames' + 1 - 100 - length frames')%nat with 0%nat by lia.
  reflexivity.
Qed.

(** X14. The buffer always holds the time and picture of the last
    [min (n, 100)] frames processed, oldest first, whether or not they
    showed a face. *)
Theorem prebuffer_holds_latest_frames :
  forall (t0 : R) (frames : list (FrameInput Frame)),
    prebuffer (clip (run w h Rodrigues arctan2 (initial_state t0) frames)) =
    skipn (length frames - 100) (map (fun fr => (now fr, rendered fr)) frames) /\
    length (prebuffer (clip (run w h Rodrigues arctan2 (initial_state t0) frames))) =
    Nat.min (length frames) 100.
Proof.
  intros t0 frames. rewrite run_prebuffer_latest. split; [reflexivity |].
  rewrite length_skipn, length_map. lia.
Qed.

(** X15. A confirmation whose sink opens releases a clip made of pictures
    of earlier frames only: those among the last 100 processed frames whose
    time lies within [CLIP_PRE_SECONDS] before the confirming frame's time,
    in order.  The confirming frame itself is pushed to the buffer after the
    clip is closed and is not in it; a clip never has more than 100
    pictures. *)
Theorem clip_holds_recent_earlier_frames :
  forall (t0 : R) (frames : list (FrameInput Frame)) (fr : FrameInput Frame),
    let st := run w h Rodrigues arctan2 (initial_state t0) frames in
    let st' := fst (process_frame w h Rodrigues arctan2 st fr) in
    fired (snd (process_frame w h Rodrigues arctan2 st fr)) = true ->
    writer_opens fr = true ->
    exists clip_,
      released (clip st') = released (clip st) ++ [clip_] /\
      named_at clip_ = now fr /\
      frame_size clip_ = (w, h) /\
      written clip_ =
        map rendered
          (filter (fun f => Rleb (now fr - CLIP_PRE_SECONDS) (now f) && Rleb (now f) (now fr))
                  (skipn (length frames - 100) frames)) /\
      (length (written clip_) <= 100)%nat.
Proof.
  intros t0 frames fr st st' Hfired Hopens. unfold st', st in *.
  destruct (process_frame_clip Frame w h Rodrigues arctan2 _ fr
              (run_idle Frame w h Rodrigues arctan2 t0 frames)) as [Hclip _].
  rewrite Hclip, Hfired, Hopens. cbn [released andb].
  eexists. split; [reflexivity |].
  unfold clip_of. cbn [named_at frame_size written].
  split; [reflexivity |]. split; [reflexivity |].
  rewrite run_prebuffer_latest, skipn_map.
  assert (Hfilter : forall l : list (FrameInput Frame),
            map snd (filter (in_window (now fr - CLIP_PRE_SECONDS) (now fr))
                       (map (fun f => (now f, rendered f)) l)) =
            map rendered
              (filter (fun f => Rleb (now fr - CLIP_PRE_SECONDS) (now f)
                                && Rleb (now f) (now fr)) l)).
  { induction l as [| f l IH]; cbn [map filter]; [reflexivity |].
    unfold in_window at 1. cbn [fst].
    destruct (Rleb (now fr - CLIP_PRE_SECONDS) (now f) && Rleb (now f) (now fr));
      cbn [map]; rewrite IH; reflexivity. }
  rewrite Hfilter. split; [reflexivity |].
  rewrite length_map.
  apply Nat.le_trans with (length (skipn (length frames - 100) frames)).
  - apply filter_length_le.
  - rewrite length_skipn. lia.
Qed.


(** *** Velocities and alerts *)

Lemma norm_nonneg (v : Vec3) : 0 <= norm v.
Proof. unfold norm. apply sqrt_pos. Qed.

Lemma norm_gt (v : Vec3) (c : R) :
  0 <= c ->
  (c < norm v <-> c * c < vx v * vx v + vy v * vy v + vz v * vz v).
Proof.
  intros Hc. unfold norm.
  set (q := vx v * vx v + vy v * vy v + vz v * vz v).
  assert (Hq : 0 <= q) by (unfold q; nra).
  rewrite <- (sqrt_square c Hc) at 1.
  split; intros Hlt.
  - apply sqrt_lt_0_alt. exact Hlt.
  - apply sqrt_lt_1_alt. nra.
Qed.

Lemma lt_div_iff (c x dt : R) : 0 < dt -> (c < x / dt <-> c * dt < x).
Proof.
  intros Hdt. split; intros Hlt.
  - replace x with (x / dt * dt) by (field; lra). apply Rmult_lt_compat_r; assumption.
  - apply Rmult_lt_reg_r with dt; [exact Hdt |].
    replace (x / dt * dt) with x by (field; lra). exact Hlt.
Qed.

Lemma lt_Rmax3 (c x y z : R) :
  c < Rmax x (Rmax y z) <-> c < x \/ c < y \/ c < z.
Proof.
  unfold Rmax. destruct (Rle_dec y z); destruct (Rle_dec x _); lra.
Qed.

(** X16. The velocities reported for a detection are never negative, and a
    slot whose translation vector did not change since its stored pose has
    translational velocity exactly 0 (when [dt > 1e-6]). *)
Theorem velocities_are_nonnegative :
  forall (st : State Frame) (fr : FrameInput Frame),
    Forall2
      (fun (dd : Detection) (k : Kinematics) =>
         (forall a b c, ang_vel k = Some (a, b, c) -> 0 <= a /\ 0 <= b /\ 0 <= c) /\
         (forall v, trans_vel k = Some v -> 0 <= v) /\
         (nth (fi dd) (prev_tvecs (hist st)) None = Some (tvec dd) ->
          1e-6 < now fr - prev_time (hist st) ->
          trans_vel k = Some 0))
      (detections_of w h Rodrigues arctan2 fr)
      (kinematics (snd (process_frame w h Rodrigues arctan2 st fr))).
Proof.
  intros st fr. rewrite process_frame_kinematics.
  set (dt := now fr - prev_time (hist st)).
  induction (dets_of fr) as [| dd ds IH]; cbn [map]; constructor; [| exact IH].
  unfold slot_kinematics. cbn [ang_vel trans_vel].
  unfold ang_vel_of, trans_vel_of.
  destruct (Rltb 1e-6 dt) eqn:Hdt.
  - apply Rltb_true_iff in Hdt.
    assert (Hinv : 0 < / dt) by (apply Rinv_0_lt_compat; lra).
    split; [| split].
    + destruct (nth (fi dd) (prev_rvecs (hist st)) None) as [pr |]; [| discriminate].
      intros a b c Heq. injection Heq as <- <- <-.
      unfold Rdiv. repeat split; apply Rmult_le_pos; try apply Rabs_pos; lra.
    + destruct (nth (fi dd) (prev_tvecs (hist st)) None) as [pt |]; [| discriminate].
      intros v Heq. injection Heq as <-.
      unfold Rdiv. apply Rmult_le_pos; [apply norm_nonneg | lra].
    + intros Hsame _. rewrite Hsame. f_equal.
      unfold norm, vsub. cbn [vx vy vz].
      replace ((vx (tvec dd) - vx (tvec dd)) * (vx (tvec dd) - vx (tvec dd)) +
               (vy (tvec dd) - vy (tvec dd)) * (vy (tvec dd) - vy (tvec dd)) +
               (vz (tvec dd) - vz (tvec dd)) * (vz (tvec dd) - vz (tvec dd)))
        with 0 by ring.
      rewrite sqrt_0. unfold Rdiv. apply Rmult_0_l.
  - apply Rltb_false_iff in Hdt.
    split; [| split].
    + destruct (nth (fi dd) (prev_rvecs (hist st)) None); discriminate.
    + destruct (nth (fi dd) (prev_tvecs (hist st)) None); discriminate.
    + intros _ Hlt. lra.
Qed.

(** X17. From a reachable state, a detection raises no alert when its slot
    has no stored pose or [dt <= 1e-6].  The translation alert is raised
    exactly when the slot has a stored pose, [dt > 1e-6], and the squared
    displacement exceeds [(TRANSLATION_THRESHOLD * dt)^2]; the rotation
    alert exactly when, under the same conditions, some raw angle
    difference exceeds [ANGULAR_VEL_THRESHOLD * dt]. *)
Theorem alerts_need_a_previous_pose :
  forall (t0 : R) (frames : list (FrameInput Frame)) (fr : FrameInput Frame),
    let st := run w h Rodrigues arctan2 (initial_state t0) frames in
    let dt := now fr - prev_time (hist st) in
    Forall2
      (fun (dd : Detection) (k : Kinematics) =>
         (no_previous_pose (hist st) (fi dd) \/ dt <= 1e-6 -> alert k = false) /\
         (translation_alert k = true <->
          exists prev_t,
            nth (fi dd) (prev_tvecs (hist st)) None = Some prev_t /\
            1e-6 < dt /\
            (TRANSLATION_THRESHOLD * dt) * (TRANSLATION_THRESHOLD * dt) <
            (vx (tvec dd) - vx prev_t) * (vx (tvec dd) - vx prev_t) +
            (vy (tvec dd) - vy prev_t) * (vy (tvec dd) - vy prev_t) +
            (vz (tvec dd) - vz prev_t) * (vz (tvec dd) - vz prev_t)) /\
         (rotation_alert k = true <->
          exists prev_r,
            nth (fi dd) (prev_rvecs (hist st)) None = Some prev_r /\
            1e-6 < dt /\
            (ANGULAR_VEL_THRESHOLD * dt
               < Rabs (pitch dd - fst (fst (rotationVectorToEuler Rodrigues arctan2 prev_r))) \/
             ANGULAR_VEL_THRESHOLD * dt
               < Rabs (yaw dd - snd (fst (rotationVectorToEuler Rodrigues arctan2 prev_r))) \/
             ANGULAR_VEL_THRESHOLD * dt
               < Rabs (roll dd - snd (rotationVectorToEuler Rodrigues arctan2 prev_r)))))
      (detections_of w h Rodrigues arctan2 fr)
      (kinematics (snd (process_frame w h Rodrigues arctan2 st fr))).
Proof.
  intros t0 frames fr st dt. rewrite process_frame_kinematics. fold dt.
  pose proof (run_aligned Frame w h Rodrigues arctan2 t0 frames) as [_ Hnone].
  fold st in Hnone.
  induction (dets_of fr) as [| dd ds IH]; cbn [map]; constructor; [| exact IH].
  unfold alert, rotation_alert, translation_alert, slot_kinematics, no_previous_pose.
  cbn [ang_vel trans_vel]. unfold ang_vel_of, trans_vel_of.
  specialize (Hnone (fi dd)).
  destruct (Rltb 1e-6 dt) eqn:Hdt.
  - apply Rltb_true_iff in Hdt. assert (Hpos : 0 < dt) by lra.
    split; [| split].
    + intros [Hno | Hle]; [| lra].
      rewrite Hno. rewrite (proj1 Hnone Hno). reflexivity.
    + destruct (nth (fi dd) (prev_tvecs (hist st)) None) as [pt |].
      * rewrite Rltb_true_iff, (lt_div_iff _ _ _ Hpos).
        rewrite norm_gt by (unfold TRANSLATION_THRESHOLD; nra).
        unfold vsub. cbn [vx vy vz]. split.
        -- intros Hlt. exists pt. auto.
        -- intros (pt' & Heq & _ & Hlt). injection Heq as <-. exact Hlt.
      * split; [discriminate | intros (pt' & Heq & _); discriminate].
    + destruct (nth (fi dd) (prev_rvecs (hist st)) None) as [pr |].
      * rewrite Rltb_true_iff, lt_Rmax3, !(lt_div_iff _ _ _ Hpos). split.
        -- intros Hlt. exists pr. auto.
        -- intros (pr' & Heq & _ & Hlt). injection Heq as <-. exact Hlt.
      * split; [discriminate | intros (pr' & Heq & _); discriminate].
  - apply Rltb_false_iff in Hdt.
    split; [| split].
    + intros _.
      destruct (nth (fi dd) (prev_rvecs (hist st)) None);
        destruct (nth (fi dd) (prev_tvecs (hist st)) None); reflexivity.
    + destruct (nth (fi dd) (prev_tvecs (hist st)) None);
        (split; [discriminate | intros (pt' & _ & Hlt & _); lra]).
    + destruct (nth (fi dd) (prev_rvecs (hist st)) None);
        (split; [discriminate | intros (pr' & _ & Hlt & _); lra]).
Qed.


(** *** Frames without a posed face *)

(** X21. The streak is the number of true raw tests at the end of the
    sequence of raw tests of the frames that had a posed face: frames
    without one are skipped by the count, they neither extend nor reset
    it. *)
Theorem streak_counts_trailing_true_tests :
  forall (t0 : R) (frames : list (FrameInput Frame)),
    exists (earlier : list bool) (n : nat),
      map (fun fr => is_collision_now (detections_of w h Rodrigues arctan2 fr))
          (filter (fun fr => match detections_of w h Rodrigues arctan2 fr with
                             | [] => false
                             | _ :: _ => true
                             end) frames)
      = earlier ++ repeat true n /\
      (earlier = [] \/ last earlier true = false) /\
      overlap_streak (coll (run w h Rodrigues arctan2 (initial_state t0) frames)) =
      Z.of_nat n.
Proof.
  intros t0 frames.
  induction frames as [| fr frames' IH] using rev_ind.
  - exists [], 0%nat. repeat split. left. reflexivity.
  - destruct IH as (earlier & n & Hraws & Hlast & Hstreak).
    rewrite run_app, run_cons.
    change (run_of (fst (step (run_of (initial_state t0) frames') fr)) [])
      with (fst (step (run_of (initial_state t0) frames') fr)).
    rewrite filter_app, map_app, Hraws, process_frame_coll. cbn [filter].
    destruct (dets_of fr) as [| d ds] eqn:Hdets.
    + exists earlier, n. cbn [map]. rewrite app_nil_r. auto.
    + cbn [map]. rewrite Hdets, temporal_confirmation_streak, Hstreak.
      destruct (is_collision_now (d :: ds)) eqn:Hraw.
      * exists earlier, (S n). split; [| split; [exact Hlast | lia]].
        rewrite <- app_assoc. f_equal.
        cbn [repeat]. symmetry. apply repeat_cons.
      * exists ((earlier ++ repeat true n) ++ [false]), 0%nat.
        split; [cbn [repeat]; rewrite app_nil_r; reflexivity |].
        split; [right; apply last_last | reflexivity].
Qed.

(** X22. A frame in which no face is posed (none detected, or no pose
    solved) changes nothing but the buffer: the collision state, the clips
    released, [prev_time] and every stored pose stay as they were, nothing
    is reported, and the frame is pushed to the buffer like any other. *)
Theorem frame_without_posed_face_only_feeds_buffer :
  forall (t0 : R) (frames : list (FrameInput Frame)) (fr : FrameInput Frame),
    let st := run w h Rodrigues arctan2 (initial_state t0) frames in
    let res := process_frame w h Rodrigues arctan2 st fr in
    detections_of w h Rodrigues arctan2 fr = [] ->
    coll (fst res) = coll st /\
    released (clip (fst res)) = released (clip st) /\
    prev_time (hist (fst res)) = prev_time (hist st) /\
    (forall i, nth i (prev_rvecs (hist (fst res))) None = nth i (prev_rvecs (hist st)) None /\
               nth i (prev_tvecs (hist (fst res))) None = nth i (prev_tvecs (hist st)) None) /\
    fired (snd res) = false /\
    raw_test (snd res) = None /\
    kinematics (snd res) = [] /\
    prebuffer (clip (fst res)) =
      snd (push (prebuffer (clip st)) (now fr) (rendered fr)).
Proof.
  intros t0 frames fr st res Hnone. unfold res.
  assert (Hfired : fired (snd (step st fr)) = false)
    by (rewrite process_frame_fired, Hnone; reflexivity).
  destruct (process_frame_clip Frame w h Rodrigues arctan2 st fr
              (run_idle Frame w h Rodrigues arctan2 t0 frames)) as [Hclip _].
  rewrite Hfired in Hclip.
  split; [rewrite process_frame_coll, Hnone; reflexivity |].
  split; [rewrite Hclip; cbn [released andb]; apply app_nil_r |].
  split; [rewrite process_frame_prev_time, Hnone; reflexivity |].
  split.
  { intros i. rewrite process_frame_hist, Hnone.
    destruct (multi_face_landmarks fr) as [| f fs]; [split; reflexivity |].
    cbn [fold_left].
    unfold pad_history. cbn [prev_rvecs prev_tvecs].
    rewrite !nth_pad_none. split; reflexivity. }
  split; [exact Hfired |].
  split; [rewrite process_frame_raw_test, Hnone; reflexivity |].
  split; [rewrite process_frame_kinematics, Hnone; reflexivity |].
  rewrite Hclip. reflexivity.
Qed.


End LoopInvariants.

(** ** The helmet overlay (lines 181-243 and 364-385) *)

(** X18. Whenever [draw_helmet] blends, the rectangle it writes is a
    non-empty part of the image and the slice it reads from the resized
    helmet lies inside that helmet image, so both have the same shape; the
    helmet was resized to the given target size when there is one. *)
Theorem draw_helmet_stays_in_bounds :
  forall (img_w img_h : Z) (bb : Box) (helm_loaded : bool)
         (target_size : option (Z * Z)) (b : HelmetBlend),
    draw_helmet img_w img_h bb helm_loaded target_size = Some b ->
    blend_in_bounds img_w img_h b /\
    helm_loaded = true /\
    (forall ts, target_size = Some ts -> resized_to b = ts).
Proof.
  intros img_w img_h [[[x_min y_min] x_max] y_max] helm_loaded target_size b.
  unfold draw_helmet.
  destruct helm_loaded; [| discriminate].
  set (target := match target_size with Some ts => ts | None => _ end).
  set (tlx := python_int (_ - IZR (fst target) / 2)).
  set (tly := python_int (_ - IZR (snd target) / 2)).
  destruct ((0 <? Z.min img_w (tlx + fst target) - Z.max 0 tlx)%Z &&
            (0 <? Z.min img_h (tly + snd target) - Z.max 0 tly)%Z) eqn:Hroi;
    [| discriminate].
  apply andb_true_iff in Hroi as [Hw Hh]. apply Z.ltb_lt in Hw, Hh.
  intros Heq. injection Heq as <-.
  split; [| split].
  - unfold blend_in_bounds. cbn [roi crop_corner resized_to fst snd]. lia.
  - reflexivity.
  - intros ts Hts. cbn [resized_to]. unfold target. rewrite Hts.
    destruct ts. reflexivity.
Qed.

Lemma sample_helmet_blend :
  draw_helmet 640 480 (0, 0, 100, 100)%Z true (Some (180, 120)%Z) =
  Some (mkHelmetBlend (180, 120)%Z (0, 0, 140, 77)%Z (40, 43)%Z).
Proof.
  unfold draw_helmet, HELMET_Y_OFFSET. cbn [fst snd].
  change (0 + 100)%Z with 100%Z. change (100 - 0)%Z with 100%Z.
  replace (IZR 100 / 2) with (IZR 50) by lra.
  replace (IZR 0 + IZR 100 * (0.05 + 0.12)) with (IZR 17) by lra.
  rewrite !python_int_IZR.
  replace (IZR 50 - IZR 180 / 2) with (IZR (-40)) by lra.
  replace (IZR 17 - IZR 120 / 2) with (IZR (-43)) by lra.
  rewrite !python_int_IZR. reflexivity.
Qed.

(** X18 for a face box in the top left corner of a 640 by 480 frame: the
    helmet, 180 by 120, sticks out of the frame and is cut to 140 by 77. *)
Lemma draw_helmet_stays_in_bounds_witness :
  blend_in_bounds 640 480 (mkHelmetBlend (180, 120)%Z (0, 0, 140, 77)%Z (40, 43)%Z).
Proof.
  apply (draw_helmet_stays_in_bounds 640 480 (0, 0, 100, 100)%Z true
           (Some (180, 120)%Z) _ sample_helmet_blend).
Defined.

Lemma fold_max_bounds (zs : list Z) :
  forall z0,
    (z0 <= fold_left Z.max zs z0)%Z /\
    (forall z, In z zs -> (z <= fold_left Z.max zs z0)%Z) /\
    In (fold_left Z.max zs z0) (z0 :: zs).
Proof.
  induction zs as [| y zs IH]; intros z0; cbn [fold_left].
  - split; [lia |]. split; [intros z [] | left; reflexivity].
  - destruct (IH (Z.max z0 y)) as (Hge & Hall & Hin).
    split; [lia |]. split.
    + intros z [<- | Hz]; [lia | apply Hall, Hz].
    + destruct Hin as [Heq | Hin]; [| right; right; exact Hin].
      rewrite <- Heq. destruct (Z.max_spec z0 y) as [[_ ->] | [_ ->]];
        [right; left; reflexivity | left; reflexivity].
Qed.

(** X19. The size every helmet of a frame is drawn at is at least 1 by 1
    (so the resize is never asked for an empty image), at least the
    tentative size of every detection of the frame in both dimensions, and
    each of its dimensions is the tentative one of some detection. *)
Theorem common_size_is_largest_tentative_size :
  forall (d0 : Detection) (ds : list Detection),
    (1 <= fst (common_size d0 ds))%Z /\
    (1 <= snd (common_size d0 ds))%Z /\
    (forall d, In d (d0 :: ds) ->
       (1 <= fst (tentative_size (bbox d)) <= fst (common_size d0 ds))%Z /\
       (1 <= snd (tentative_size (bbox d)) <= snd (common_size d0 ds))%Z) /\
    (exists d, In d (d0 :: ds) /\
               fst (common_size d0 ds) = fst (tentative_size (bbox d))) /\
    (exists d, In d (d0 :: ds) /\
               snd (common_size d0 ds) = snd (tentative_size (bbox d))).
Proof.
  intros d0 ds.
  assert (Hpos : forall d, (1 <= fst (tentative_size (bbox d)))%Z /\
                           (1 <= snd (tentative_size (bbox d)))%Z).
  { intros d. destruct (bbox d) as [[[x_min y_min] x_max] y_max].
    unfold tentative_size. cbn [fst snd]. lia. }
  unfold common_size. cbn [fst snd].
  destruct (fold_max_bounds (map (fun x => fst (tentative_size (bbox x))) ds)
              (fst (tentative_size (bbox d0)))) as (Hw0 & Hwall & Hwin).
  destruct (fold_max_bounds (map (fun x => snd (tentative_size (bbox x))) ds)
              (snd (tentative_size (bbox d0)))) as (Hh0 & Hhall & Hhin).
  destruct (Hpos d0) as [Hp0w Hp0h].
  split; [lia |]. split; [lia |]. split; [| split].
  - intros d [<- | Hd].
    + split; lia.
    + destruct (Hpos d) as [Hpw Hph]. split; split; try assumption.
      * apply Hwall. apply in_map_iff. exists d. auto.
      * apply Hhall. apply in_map_iff. exists d. auto.
  - destruct Hwin as [Heq | Hin].
    + exists d0. split; [left; reflexivity | symmetry; exact Heq].
    + apply in_map_iff in Hin as (d & Heq & Hd).
      exists d. split; [right; exact Hd | symmetry; exact Heq].
  - destruct Hhin as [Heq | Hin].
    + exists d0. split; [left; reflexivity | symmetry; exact Heq].
    + apply in_map_iff in Hin as (d & Heq & Hd).
      exists d. split; [right; exact Hd | symmetry; exact Heq].
Qed.

(** ** The raw test on a pair (lines 452-471) *)

Lemma is_close3d_sym (t1 t2 : Vec3) : is_close3d t1 t2 = is_close3d t2 t1.
Proof.
  unfold is_close3d, zdiff, d3, norm, vsub. cbn [vx vy vz].
  rewrite (Rabs_minus_sym (vz t1) (vz t2)).
  replace ((vx t1 - vx t2) * (vx t1 - vx t2) + (vy t1 - vy t2) * (vy t1 - vy t2) +
           (vz t1 - vz t2) * (vz t1 - vz t2))
    with ((vx t2 - vx t1) * (vx t2 - vx t1) + (vy t2 - vy t1) * (vy t2 - vy t1) +
          (vz t2 - vz t1) * (vz t2 - vz t1)) by ring.
  reflexivity.
Qed.

(** X20. With two posed faces the raw test does not depend on which face
    the detector lists first, and it is false whenever the two hit boxes
    share no area, however close the heads are in space. *)
Theorem raw_test_of_two_faces :
  forall d0 d1 : Detection,
    is_collision_now [d0; d1] = is_collision_now [d1; d0] /\
    (compute_iou (bbox d0) (bbox d1) = 0 -> is_collision_now [d0; d1] = false) /\
    (is_collision_now [d0; d1] = true ->
     COLLISION_IOU_THRESHOLD <= compute_iou (bbox d0) (bbox d1) /\
     Rabs (vz (tvec d0) - vz (tvec d1)) < DEPTH_DIFF_MAX /\
     norm (vsub (tvec d0) (tvec d1)) < DIST_3D_MAX).
Proof.
  intros d0 d1. rewrite !is_collision_now_two.
  split; [| split].
  - rewrite (compute_iou_sym_aux (bbox d1) (bbox d0)), (is_close3d_sym (tvec d1) (tvec d0)).
    reflexivity.
  - intros ->. assert (H0 : Rltb 0 0 = false) by (apply Rltb_false_iff; lra).
    rewrite H0. reflexivity.
  - intros Hraw. apply andb_true_iff in Hraw as [Hraw Hclose].
    apply andb_true_iff in Hraw as [_ Hthr].
    apply Rleb_true_iff in Hthr. apply is_close3d_true in Hclose.
    split; [exact Hthr | exact Hclose].
Qed.

(** ** More closed scenarios on the sample stream *)

Lemma sample_one_face_posed (t : R) :
  exists d, sample_detections (frame_one_face t) = [d].
Proof.
  unfold sample_detections, detections_of, frame_one_face.
  cbn [multi_face_landmarks first_pass face_near pnp_success negb].
  eauto.
Qed.

Lemma sample_coll_two_faces (st : State unit) (t : R) :
  coll (fst (sample_step st (frame_two_faces t))) =
  fst (temporal_confirmation true (coll st)).
Proof.
  pose proof (sample_raw_true t) as Hraw.
  destruct (sample_two_faces_posed t) as (d & ds & Hd).
  open_sample. rewrite process_frame_coll, Hd, <- Hd, Hraw. reflexivity.
Qed.

Lemma sample_fired_two_faces (st : State unit) (t : R) :
  fired (snd (sample_step st (frame_two_faces t))) =
  snd (temporal_confirmation true (coll st)).
Proof.
  pose proof (sample_raw_true t) as Hraw.
  destruct (sample_two_faces_posed t) as (d & ds & Hd).
  open_sample. rewrite process_frame_fired, Hd, <- Hd, Hraw. reflexivity.
Qed.

Lemma sample_coll_one_face (st : State unit) (t : R) :
  coll (fst (sample_step st (frame_one_face t))) =
  fst (temporal_confirmation false (coll st)).
Proof.
  destruct (sample_one_face_posed t) as (d & Hd).
  open_sample. rewrite process_frame_coll, Hd. reflexivity.
Qed.

(** The stream of the next example: contact, contact, one face only,
    contact, contact. *)
Lemma sample_two_episodes_fire :
  fired (snd (sample_step
                (fst (sample_step (initial_state 0) (frame_two_faces 1)))
                (frame_two_faces 2))) = true /\
  fired (snd (sample_step
                (fst (sample_step
                   (fst (sample_step
                      (fst (sample_step
                         (fst (sample_step (initial_state 0) (frame_two_faces 1)))
                         (frame_two_faces 2)))
                      (frame_one_face 3)))
                   (frame_two_faces 4)))
                (frame_two_faces 5))) = true.
Proof.
  rewrite !sample_fired_two_faces, !sample_coll_two_faces, sample_coll_one_face,
    !sample_coll_two_faces.
  split; reflexivity.
Qed.

(** X11 on the sample stream: the confirmations of the second and of the
    fifth frame are separated by the frame with one face only. *)
Lemma confirmations_are_separated_by_a_reset_witness :
  exists k sk,
    (1 < k < 4)%nat /\
    nth_error
      (trace 640 480 Rodrigues_fixed half_angle_arctan2 (initial_state 0)
         [frame_two_faces 1; frame_two_faces 2; frame_one_face 3;
          frame_two_faces 4; frame_two_faces 5]) k = Some sk /\
    detections_of 640 480 Rodrigues_fixed half_angle_arctan2 (input sk) <> [] /\
    is_collision_now
      (detections_of 640 480 Rodrigues_fixed half_angle_arctan2 (input sk)) = false.
Proof.
  eapply (confirmations_are_separated_by_a_reset unit 640 480 Rodrigues_fixed
            half_angle_arctan2 0
            [frame_two_faces 1; frame_two_faces 2; frame_one_face 3;
             frame_two_faces 4; frame_two_faces 5] 1 4).
  - lia.
  - rewrite !trace_cons. cbn [nth_error]. reflexivity.
  - rewrite !trace_cons. cbn [nth_error]. reflexivity.
  - cbn [output]. exact (proj1 sample_two_episodes_fire).
  - cbn [output]. exact (proj2 sample_two_episodes_fire).
Defined.

(** X15 on the sample stream: the second colliding frame confirms and its
    clip is released under the time of that frame. *)
Lemma clip_holds_recent_earlier_frames_witness :
  exists clip_,
    released
      (clip (fst (sample_step (sample_run (initial_state 0) [frame_two_faces 1])
                    (frame_two_faces 2)))) =
    released (clip (sample_run (initial_state 0) [frame_two_faces 1])) ++ [clip_] /\
    named_at clip_ = 2 /\
    written clip_ =
      map rendered
        (filter (fun f => Rleb (2 - CLIP_PRE_SECONDS) (now f) && Rleb (now f) 2)
           [frame_two_faces 1]).
Proof.
  destruct (clip_holds_recent_earlier_frames unit 640 480 Rodrigues_fixed
              half_angle_arctan2 0 [frame_two_faces 1] (frame_two_faces 2)
              (sample_fires_on_second 0 1 2) eq_refl)
    as (c & Hrel & Hname & _ & Hwritten & _).
  exists c. split; [exact Hrel |]. split; [exact Hname | exact Hwritten].
Defined.

(** X22 on the sample stream: a frame without any face after a colliding
    frame leaves the collision state alone and reports nothing. *)
Lemma frame_without_posed_face_only_feeds_buffer_witness :
  coll (fst (sample_step (sample_run (initial_state 0) [frame_two_faces 1])
               (frame_no_face 2))) =
  coll (sample_run (initial_state 0) [frame_two_faces 1]) /\
  fired (snd (sample_step (sample_run (initial_state 0) [frame_two_faces 1])
                (frame_no_face 2))) = false.
Proof.
  destruct (frame_without_posed_face_only_feeds_buffer unit 640 480 Rodrigues_fixed
              half_angle_arctan2 0 [frame_two_faces 1] (frame_no_face 2) eq_refl)
    as (Hcoll & _ & _ & _ & Hfired & _).
  split; [exact Hcoll | exact Hfired].
Defined.

(** * The loop as a whole: frames, slots and raised exceptions *)

(** ** Intersection over union *)

Lemma rect_area_max (x1 y1 x2 y2 : Z) :
  rect_area (x1, y1, x2, y2) = (Z.max 0 (x2 - x1) * Z.max 0 (y2 - y1))%Z.
Proof.
  unfold rect_area.
  destruct (x1 <? x2)%Z eqn:Hx; destruct (y1 <? y2)%Z eqn:Hy; cbn [andb];
    try apply Z.ltb_lt in Hx; try apply Z.ltb_ge in Hx;
    try apply Z.ltb_lt in Hy; try apply Z.ltb_ge in Hy.
  - rewrite !Z.max_r by lia. reflexivity.
  - rewrite (Z.max_l 0 (y2 - y1)) by lia. lia.
  - rewrite (Z.max_l 0 (x2 - x1)) by lia. lia.
  - rewrite (Z.max_l 0 (x2 - x1)) by lia. lia.
Qed.

(** What [compute_iou] returns is the shared area over the covered area. *)
Lemma compute_iou_is_intersection_over_union (box_a box_b : Box) :
  compute_iou box_a box_b = intersection_over_union box_a box_b.
Proof.
  destruct box_a as [[[ax1 ay1] ax2] ay2], box_b as [[[bx1 by1] bx2] by2].
  pose proof (intersect_area_bounds ax1 ay1 ax2 ay2 bx1 by1 bx2 by2) as [H0 Ha].
  pose proof (intersect_area_bounds bx1 by1 bx2 by2 ax1 ay1 ax2 ay2) as [_ Hb].
  rewrite (intersect_area_sym (bx1, by1, bx2, by2)) in Hb.
  unfold intersection_over_union, rect_meet. rewrite !rect_area_max.
  unfold compute_iou.
  change (Z.max 0 (Z.min ax2 bx2 - Z.max ax1 bx1) *
          Z.max 0 (Z.min ay2 by2 - Z.max ay1 by1))%Z
    with (_intersect_area_xyxy (ax1, ay1, ax2, ay2) (bx1, by1, bx2, by2)).
  set (inter := _intersect_area_xyxy (ax1, ay1, ax2, ay2) (bx1, by1, bx2, by2)) in *.
  destruct (inter =? 0)%Z eqn:Hz.
  - apply Z.eqb_eq in Hz.
    assert (Hle : (inter <=? 0)%Z = true) by (apply Z.leb_le; lia).
    rewrite Hle. reflexivity.
  - apply Z.eqb_neq in Hz.
    assert (Hle : (inter <=? 0)%Z = false) by (apply Z.leb_gt; lia).
    rewrite Hle.
    assert (Hu : (Z.max 0 (ax2 - ax1) * Z.max 0 (ay2 - ay1) +
                  Z.max 0 (bx2 - bx1) * Z.max 0 (by2 - by1) - inter <=? 0)%Z = false)
      by (apply Z.leb_gt; lia).
    rewrite Hu. reflexivity.
Qed.

Section LoopClaims.

Variable Frame : Type.
Variables w h : Z.
Variable Rodrigues : Vec3 -> Mat3.
Variable arctan2 : R -> R -> R.

Local Abbreviation step := (process_frame (Frame:=Frame) w h Rodrigues arctan2).
Local Abbreviation dets_of := (detections_of (Frame:=Frame) w h Rodrigues arctan2).
Local Abbreviation trace_of := (trace (Frame:=Frame) w h Rodrigues arctan2).
Local Abbreviation run_of := (run (Frame:=Frame) w h Rodrigues arctan2).
Local Abbreviation unposed := (never_posed (Frame:=Frame) w h Rodrigues arctan2).

(** ** The stored pose of a slot along a run *)

(** The angles of a detection are those of its rotation vector. *)
Lemma first_pass_angles (faces : list Face) :
  forall idx d,
    In d (first_pass w h Rodrigues arctan2 idx faces) ->
    pitch d = fst (fst (rotationVectorToEuler Rodrigues arctan2 (rvec d))) /\
    yaw d = snd (fst (rotationVectorToEuler Rodrigues arctan2 (rvec d))) /\
    roll d = snd (rotationVectorToEuler Rodrigues arctan2 (rvec d)).
Proof.
  induction faces as [| face rest IH]; intros idx d Hin; cbn [first_pass] in Hin.
  - contradiction.
  - destruct (pnp_success face); cbn [negb] in Hin.
    + destruct Hin as [<- | Hin]; [| exact (IH _ _ Hin)].
      cbn [pitch yaw roll rvec]. repeat split.
    + exact (IH _ _ Hin).
Qed.

(** One iteration stores the vectors of the slots it posed and leaves the
    other slots as they were. *)
Lemma process_frame_slots (st : State Frame) (fr : FrameInput Frame) :
  (forall d, In d (dets_of fr) ->
     nth (fi d) (prev_rvecs (hist (fst (step st fr)))) None = Some (rvec d) /\
     nth (fi d) (prev_tvecs (hist (fst (step st fr)))) None = Some (tvec d)) /\
  (forall i, (forall d, In d (dets_of fr) -> fi d <> i) ->
     nth i (prev_rvecs (hist (fst (step st fr)))) None =
       nth i (prev_rvecs (hist st)) None /\
     nth i (prev_tvecs (hist (fst (step st fr)))) None =
       nth i (prev_tvecs (hist st)) None).
Proof.
  rewrite process_frame_hist. unfold detections_of.
  destruct (multi_face_landmarks fr) as [| f fs] eqn:Hfaces.
  - cbn [first_pass]. split; [intros d [] |]. intros i _. split; reflexivity.
  - destruct (fold_store_lookup (now fr) (first_pass w h Rodrigues arctan2 0 (f :: fs))
                (pad_history (hist st) (length (f :: fs))))
      as (Hstored & Hother & _).
    + apply first_pass_slots_distinct.
    + intros d Hd. apply first_pass_fi_lt in Hd.
      unfold pad_history. cbn [prev_rvecs prev_tvecs].
      rewrite !pad_none_length. lia.
    + cbv zeta in *. split; [exact Hstored |].
      intros i Hi.
      assert (Hnot : ~ In i (map fi (first_pass w h Rodrigues arctan2 0 (f :: fs)))).
      { intros Hin. apply in_map_iff in Hin as (d & Hfi & Hd).
        exact (Hi d Hd Hfi). }
      destruct (Hother i Hnot) as [Hor Hot].
      rewrite Hor, Hot. unfold pad_history. cbn [prev_rvecs prev_tvecs].
      rewrite !nth_pad_none. split; reflexivity.
Qed.

Lemma run_slot_untouched (frames : list (FrameInput Frame)) :
  forall st i,
    unposed frames i ->
    nth i (prev_rvecs (hist (run_of st frames))) None =
      nth i (prev_rvecs (hist st)) None /\
    nth i (prev_tvecs (hist (run_of st frames))) None =
      nth i (prev_tvecs (hist st)) None.
Proof.
  induction frames as [| fr rest IH]; intros st i Hnever.
  - split; reflexivity.
  - rewrite run_cons.
    destruct (IH (fst (step st fr)) i) as [Hr Ht].
    { intros f d Hf Hd. apply (Hnever f d); [right; exact Hf | exact Hd]. }
    rewrite Hr, Ht.
    apply (proj2 (process_frame_slots st fr)).
    intros d Hd. apply (Hnever fr d); [left; reflexivity | exact Hd].
Qed.

(** A slot no frame has posed yet holds no pose. *)
Lemma run_slot_first_sighting (t0 : R) (frames : list (FrameInput Frame)) (i : nat) :
  unposed frames i ->
  nth i (prev_rvecs (hist (run_of (initial_state t0) frames))) None = None /\
  nth i (prev_tvecs (hist (run_of (initial_state t0) frames))) None = None.
Proof.
  intros Hnever.
  destruct (run_slot_untouched frames (initial_state t0) i Hnever) as [Hr Ht].
  rewrite Hr, Ht. cbn. destruct i; split; reflexivity.
Qed.

(** A slot holds the vectors of the last frame that posed it. *)
Lemma run_slot_last_pose (t0 : R) (earlier later : list (FrameInput Frame))
    (f : FrameInput Frame) (prev : Detection) :
  In prev (dets_of f) ->
  unposed later (fi prev) ->
  nth (fi prev)
    (prev_rvecs (hist (run_of (initial_state t0) (earlier ++ f :: later)))) None
    = Some (rvec prev) /\
  nth (fi prev)
    (prev_tvecs (hist (run_of (initial_state t0) (earlier ++ f :: later)))) None
    = Some (tvec prev).
Proof.
  intros Hprev Hnever. rewrite run_app, run_cons.
  destruct (run_slot_untouched later
              (fst (step (run_of (initial_state t0) earlier) f)) (fi prev) Hnever)
    as [Hr Ht].
  rewrite Hr, Ht.
  apply (proj1 (process_frame_slots (run_of (initial_state t0) earlier) f)), Hprev.
Qed.

(** Either no frame posed the slot, or some frame was the last to. *)
Lemma last_pose_or_never (frames : list (FrameInput Frame)) (i : nat) :
  unposed frames i \/
  exists earlier f later prev,
    frames = earlier ++ f :: later /\ In prev (dets_of f) /\ fi prev = i /\
    unposed later i.
Proof.
  induction frames as [| fr rest IH].
  - left. intros f d [].
  - destruct IH as [Hnever | (earlier & f & later & prev & -> & Hprev & Hfi & Hlater)].
    + destruct (in_dec Nat.eq_dec i (map fi (dets_of fr))) as [Hin | Hnot].
      * right. apply in_map_iff in Hin as (prev & Hfi & Hprev).
        exists [], fr, rest, prev. repeat split; auto.
      * left. intros f d [<- | Hf] Hd.
        -- intros Hfi. apply Hnot, in_map_iff. exists d. split; auto.
        -- exact (Hnever f d Hf Hd).
    + right. exists (fr :: earlier), f, later, prev. repeat split; auto.
Qed.

(** C6. For every frame processed after a run from the initial state and
    every face slot posed in it, with [dt] the difference between the
    frame's time and [prev_time]: the slot has no stored pose exactly when
    no earlier frame posed it (first sighting); both velocities are absent
    exactly then or when [dt <= 1e-6]; otherwise, with [prev] the pose of
    the slot in the last earlier frame that posed it, the stored vectors are
    those of [prev], the angular velocity is, per axis,
    [abs (current - previous) / dt] on the raw angles, and the translational
    velocity is the Euclidean norm of [(tvec - previous tvec) / dt]. *)
Theorem kinematic_estimator_contract :
  forall (t0 : R) (frames : list (FrameInput Frame)) (fr : FrameInput Frame),
    let st := run w h Rodrigues arctan2 (initial_state t0) frames in
    let dt := now fr - prev_time (hist st) in
    Forall2
      (fun (dd : Detection) (k : Kinematics) =>
         k_fi k = fi dd /\
         (no_previous_pose (hist st) (fi dd) <->
          never_posed w h Rodrigues arctan2 frames (fi dd)) /\
         (nth (fi dd) (prev_tvecs (hist st)) None = None <->
          never_posed w h Rodrigues arctan2 frames (fi dd)) /\
         (ang_vel k = None <->
          never_posed w h Rodrigues arctan2 frames (fi dd) \/ dt <= 1e-6) /\
         (trans_vel k = None <->
          never_posed w h Rodrigues arctan2 frames (fi dd) \/ dt <= 1e-6) /\
         (forall earlier f later prev,
             frames = earlier ++ f :: later ->
             In prev (detections_of w h Rodrigues arctan2 f) ->
             fi prev = fi dd ->
             never_posed w h Rodrigues arctan2 later (fi dd) ->
             nth (fi dd) (prev_rvecs (hist st)) None = Some (rvec prev) /\
             nth (fi dd) (prev_tvecs (hist st)) None = Some (tvec prev) /\
             (1e-6 < dt ->
              ang_vel k =
                Some (Rabs (pitch dd - pitch prev) / dt,
                      Rabs (yaw dd - yaw prev) / dt,
                      Rabs (roll dd - roll prev) / dt) /\
              trans_vel k =
                Some (norm (vscale (/ dt) (vsub (tvec dd) (tvec prev)))))))
      (detections_of w h Rodrigues arctan2 fr)
      (kinematics (snd (process_frame w h Rodrigues arctan2 st fr))).
Proof.
  intros t0 frames fr st dt.
  pose proof (slot_velocities_from_history Frame w h Rodrigues arctan2 t0 frames fr)
    as Hall.
  cbv zeta in Hall. fold st in Hall. fold dt in Hall.
  induction Hall as [| dd k ds ks Hhead _ IH]; constructor; [| exact IH].
  destruct Hhead as (Hfi & Hagree & Hang & Htrans & Hform).
  assert (Hfirst : no_previous_pose (hist st) (fi dd) <-> unposed frames (fi dd)).
  { split.
    - intros Hnone.
      destruct (last_pose_or_never frames (fi dd))
        as [Hnever | (earlier & f & later & prev & Heq & Hprev & Hslot & Hlater)];
        [exact Hnever |].
      exfalso. rewrite <- Hslot in Hlater.
      destruct (run_slot_last_pose t0 earlier later f prev Hprev Hlater) as [Hr _].
      rewrite <- Heq, Hslot in Hr. fold st in Hr.
      unfold no_previous_pose in Hnone. congruence.
    - intros Hnever. apply (run_slot_first_sighting t0 frames (fi dd) Hnever). }
  split; [exact Hfi |]. split; [exact Hfirst |].
  split; [rewrite <- Hagree; exact Hfirst |].
  split; [rewrite Hang, Hfirst; reflexivity |].
  split; [rewrite Htrans, Hfirst; reflexivity |].
  intros earlier f later prev Heq Hprev Hslot Hlater.
  rewrite <- Hslot in Hlater.
  destruct (run_slot_last_pose t0 earlier later f prev Hprev Hlater) as [Hr Ht].
  rewrite <- Heq, Hslot in Hr, Ht. fold st in Hr, Ht.
  split; [exact Hr |]. split; [exact Ht |].
  intros Hdt. destruct (Hform (rvec prev) (tvec prev) Hr Ht Hdt) as [Ha Hv].
  destruct (first_pass_angles _ _ _ Hprev) as (Hp & Hy & Hro).
  rewrite Hp, Hy, Hro. split; [exact Ha | exact Hv].
Qed.

(** ** The raw test *)

(** C8. The intersection over union the loop compares is the area the two
    hit boxes share over the area they cover together.  The raw test of a
    frame is true exactly when some pair of posed faces [a < b] has the
    largest such ratio of all pairs (the first such pair in the order the
    loops visit them), that ratio is at least [COLLISION_IOU_THRESHOLD], the
    depth components of the two translation vectors differ by less than
    [DEPTH_DIFF_MAX], and the vectors are less than [DIST_3D_MAX] apart.
    With fewer than two posed faces no such pair exists and the test is not
    true. *)
Theorem raw_test_is_overlap_and_proximity :
  (forall box_a box_b : Box,
      compute_iou box_a box_b = intersection_over_union box_a box_b) /\
  forall (st : State Frame) (fr : FrameInput Frame),
    raw_test (snd (process_frame w h Rodrigues arctan2 st fr)) = Some true <->
    exists a b da db,
      (a < b)%nat /\
      nth_error (detections_of w h Rodrigues arctan2 fr) a = Some da /\
      nth_error (detections_of w h Rodrigues arctan2 fr) b = Some db /\
      (forall i j di dj,
          (i < j)%nat ->
          nth_error (detections_of w h Rodrigues arctan2 fr) i = Some di ->
          nth_error (detections_of w h Rodrigues arctan2 fr) j = Some dj ->
          intersection_over_union (bbox di) (bbox dj) <=
          intersection_over_union (bbox da) (bbox db)) /\
      (forall i j di dj,
          (i < j)%nat ->
          nth_error (detections_of w h Rodrigues arctan2 fr) i = Some di ->
          nth_error (detections_of w h Rodrigues arctan2 fr) j = Some dj ->
          visited_before (i, j) (a, b) ->
          intersection_over_union (bbox di) (bbox dj) <
          intersection_over_union (bbox da) (bbox db)) /\
      COLLISION_IOU_THRESHOLD <= intersection_over_union (bbox da) (bbox db) /\
      Rabs (vz (tvec da) - vz (tvec db)) < DEPTH_DIFF_MAX /\
      norm (vsub (tvec da) (tvec db)) < DIST_3D_MAX.
Proof.
  split; [exact compute_iou_is_intersection_over_union |].
  intros st fr. rewrite (raw_test_iff_best_pair Frame w h Rodrigues arctan2 st fr).
  split; intros (a & b & da & db & Hab & Ha & Hb & Hmax & Hfirst & Hthr & Hz & Hd);
    exists a, b, da, db;
    (split; [exact Hab |]); (split; [exact Ha |]); (split; [exact Hb |]).
  - rewrite <- !compute_iou_is_intersection_over_union.
    split; [| split; [| auto]].
    + intros i j di dj Hij Hi Hj.
      rewrite <- !compute_iou_is_intersection_over_union. eapply Hmax; eassumption.
    + intros i j di dj Hij Hi Hj Hv.
      rewrite <- !compute_iou_is_intersection_over_union. eapply Hfirst; eassumption.
  - rewrite !compute_iou_is_intersection_over_union.
    split; [| split; [| auto]].
    + intros i j di dj Hij Hi Hj.
      rewrite !compute_iou_is_intersection_over_union. eapply Hmax; eassumption.
    + intros i j di dj Hij Hi Hj Hv.
      rewrite !compute_iou_is_intersection_over_union. eapply Hfirst; eassumption.
Qed.

(** ** Confirmations on frames that all have a posed face *)

(** C2 (as the code behaves). On seven frames that each have a posed face
    and whose raw tests are [false, true, true, false, true, true, true],
    processed from the initial state with [FRAMES_CONFIRM = 2], the
    confirmation branch is taken exactly twice: at index 2 and, the streak
    being 2 again after the two true tests that follow the false one, at
    index 5. *)
Theorem confirmation_fires_at_2_and_5 :
  forall (t0 : R) (frames : list (FrameInput Frame)),
    (forall fr, In fr frames -> detections_of w h Rodrigues arctan2 fr <> []) ->
    map (fun fr => is_collision_now (detections_of w h Rodrigues arctan2 fr)) frames
      = [false; true; true; false; true; true; true] ->
    FRAMES_CONFIRM = 2%Z /\
    true_indices 0
      (map (fun s => fired (output s))
         (trace w h Rodrigues arctan2 (initial_state t0) frames))
    = [2; 5]%nat.
Proof.
  intros t0 frames Hposed Hraw. split; [reflexivity |].
  rewrite (trace_fired_confirmation_run Frame w h Rodrigues arctan2 frames
             (initial_state t0) Hposed).
  rewrite Hraw.
  change (coll (initial_state (Frame:=Frame) t0)) with initial_collision_state.
  rewrite confirmation_run_sample. reflexivity.
Qed.

(** X7. Overlaps that never last two frames in a row are never confirmed:
    on frames that each have a posed face, if no two consecutive raw tests
    are true, the branch is not taken at all, however many isolated true
    tests there are. *)
Theorem isolated_true_tests_never_confirm :
  forall (t0 : R) (frames : list (FrameInput Frame)),
    (forall fr, In fr frames -> detections_of w h Rodrigues arctan2 fr <> []) ->
    (forall i,
        nth i (map (fun fr => is_collision_now (detections_of w h Rodrigues arctan2 fr))
                 frames) false = true ->
        nth (S i) (map (fun fr => is_collision_now (detections_of w h Rodrigues arctan2 fr))
                     frames) false = false) ->
    forall s,
      In s (trace w h Rodrigues arctan2 (initial_state t0) frames) ->
      fired (output s) = false.
Proof.
  intros t0 frames Hposed Hiso s Hs.
  destruct (fired (output s)) eqn:Hfired; [| reflexivity].
  exfalso.
  apply (isolated_tests_never_confirm_from
           (map (fun fr => is_collision_now (dets_of fr)) frames)
           initial_collision_state eq_refl (or_introl eq_refl) Hiso).
  change initial_collision_state with (coll (initial_state (Frame:=Frame) t0)).
  rewrite <- (trace_fired_confirmation_run Frame w h Rodrigues arctan2 frames
                (initial_state t0) Hposed).
  rewrite <- Hfired. apply (in_map (fun s => fired (output s))), Hs.
Qed.

End LoopClaims.

(** ** The claims on the sample streams *)

Lemma sample_raw_false (t : R) :
  is_collision_now (sample_detections (frame_one_face t)) = false.
Proof.
  destruct (sample_one_face_posed t) as (d & Hd). rewrite Hd. reflexivity.
Qed.

Lemma stream_of_seven_posed :
  forall fr, In fr stream_of_seven -> sample_detections fr <> [].
Proof.
  intros fr Hin Hnil.
  assert (Hone : forall t, sample_detections (frame_one_face t) <> []).
  { intros t H. destruct (sample_one_face_posed t) as (d & Hd). congruence. }
  assert (Htwo : forall t, sample_detections (frame_two_faces t) <> []).
  { intros t H. destruct (sample_two_faces_posed t) as (d & ds & Hd). congruence. }
  unfold stream_of_seven in Hin. cbn [In] in Hin.
  repeat (destruct Hin as [<- | Hin]; [first [exact (Hone _ Hnil) | exact (Htwo _ Hnil)] |]).
  exact Hin.
Qed.

Lemma stream_of_seven_raw :
  map (fun fr => is_collision_now (sample_detections fr)) stream_of_seven =
  [false; true; true; false; true; true; true].
Proof.
  unfold stream_of_seven. cbn [map].
  rewrite !sample_raw_false, !sample_raw_true. reflexivity.
Qed.

(** C2 on seven sample frames. *)
Lemma confirmation_fires_at_2_and_5_witness :
  FRAMES_CONFIRM = 2%Z /\
  true_indices 0
    (map (fun s => fired (output s))
       (trace 640 480 Rodrigues_fixed half_angle_arctan2 (initial_state 0)
          stream_of_seven))
  = [2; 5]%nat.
Proof.
  exact (confirmation_fires_at_2_and_5 unit 640 480 Rodrigues_fixed
           half_angle_arctan2 0 stream_of_seven
           stream_of_seven_posed stream_of_seven_raw).
Defined.

(** C2 (as stated) fails: on seven frames with a posed face each and the
    raw tests of the example, the second confirmation is not at index 6. *)
Lemma confirmation_not_at_2_and_6 :
  (forall fr, In fr stream_of_seven -> sample_detections fr <> []) /\
  map (fun fr => is_collision_now (sample_detections fr)) stream_of_seven =
    [false; true; true; false; true; true; true] /\
  true_indices 0
    (map (fun s => fired (output s))
       (trace 640 480 Rodrigues_fixed half_angle_arctan2 (initial_state 0)
          stream_of_seven))
  <> [2; 6]%nat.
Proof.
  split; [exact stream_of_seven_posed |].
  split; [exact stream_of_seven_raw |].
  rewrite (trace_fired_confirmation_run unit 640 480 Rodrigues_fixed
             half_angle_arctan2 stream_of_seven (initial_state 0)
             stream_of_seven_posed).
  pose proof stream_of_seven_raw as Hraw. unfold sample_detections in Hraw.
  rewrite Hraw.
  change (coll (initial_state (Frame:=unit) 0)) with initial_collision_state.
  rewrite confirmation_run_sample. cbn. discriminate.
Qed.

(** X7 on three sample frames: contact, one face, contact. *)
Lemma isolated_true_tests_never_confirm_witness :
  Forall (fun s => fired (output s) = false)
    (trace 640 480 Rodrigues_fixed half_angle_arctan2 (initial_state 0)
       [frame_two_faces 1; frame_one_face 2; frame_two_faces 3]).
Proof.
  apply Forall_forall.
  apply (isolated_true_tests_never_confirm unit 640 480 Rodrigues_fixed
           half_angle_arctan2 0
           [frame_two_faces 1; frame_one_face 2; frame_two_faces 3]).
  - intros fr [<- | [<- | [<- | []]]] Hnil.
    + destruct (sample_two_faces_posed 1) as (d & ds & Hd).
      unfold sample_detections in Hd. congruence.
    + destruct (sample_one_face_posed 2) as (d & Hd).
      unfold sample_detections in Hd. congruence.
    + destruct (sample_two_faces_posed 3) as (d & ds & Hd).
      unfold sample_detections in Hd. congruence.
  - pose proof (sample_raw_true 1) as H1. pose proof (sample_raw_false 2) as H2.
    pose proof (sample_raw_true 3) as H3. unfold sample_detections in H1, H2, H3.
    cbn [map]. rewrite H1, H2, H3.
    intros [| [| [| [| i]]]]; cbn; intros Hi; try reflexivity; discriminate.
Defined.

Lemma sample_fired_one_face (st : State unit) (t : R) :
  fired (snd (sample_step st (frame_one_face t))) =
  snd (temporal_confirmation false (coll st)).
Proof.
  destruct (sample_one_face_posed t) as (d & Hd).
  open_sample. rewrite process_frame_fired, Hd. reflexivity.
Qed.

(** A frame without faces on the sample stream. *)
Lemma sample_coll_no_face (st : State unit) (t : R) :
  coll (fst (sample_step st (frame_no_face t))) = coll st.
Proof. unfold sample_step. rewrite process_frame_coll. reflexivity. Qed.

Lemma sample_fired_no_face (st : State unit) (t : R) :
  fired (snd (sample_step st (frame_no_face t))) = false.
Proof. unfold sample_step. rewrite process_frame_fired. reflexivity. Qed.

Lemma sample_raw_test_no_face (st : State unit) (t : R) :
  raw_test (snd (sample_step st (frame_no_face t))) = None.
Proof. unfold sample_step. rewrite process_frame_raw_test. reflexivity. Qed.

Lemma sample_raw_test_two_faces (st : State unit) (t : R) :
  raw_test (snd (sample_step st (frame_two_faces t))) = Some true.
Proof.
  pose proof (sample_raw_true t) as Hraw.
  destruct (sample_two_faces_posed t) as (d & ds & Hd).
  open_sample. rewrite process_frame_raw_test, Hd, <- Hd, Hraw. reflexivity.
Qed.

(** C1 on the sample stream: two colliding faces at t = 1 and t = 2, nobody
    in view at t = 3, the two faces colliding again at t = 4 and t = 5.  The
    first contact is confirmed at t = 2.  The frame without faces runs
    neither the raw test nor the confirmation block, so the flag stays set
    and the streak goes on: the second contact is never confirmed, and the
    count is 1 after two contacts.  With one face in view at t = 3 instead,
    the block runs, the flag falls, and the second contact is confirmed at
    t = 5. *)
Theorem second_contact_after_empty_frame_is_not_confirmed :
  map (fun s => raw_test (output s))
    (trace 640 480 Rodrigues_fixed half_angle_arctan2 (initial_state 0)
       stream_with_empty_frame)
  = [Some true; Some true; None; Some true; Some true] /\
  map (fun s => fired (output s))
    (trace 640 480 Rodrigues_fixed half_angle_arctan2 (initial_state 0)
       stream_with_empty_frame)
  = [false; true; false; false; false] /\
  map (fun s => currently_overlapping (coll (post s)))
    (trace 640 480 Rodrigues_fixed half_angle_arctan2 (initial_state 0)
       stream_with_empty_frame)
  = [false; true; true; true; true] /\
  collision_count (coll (sample_run (initial_state 0) stream_with_empty_frame)) = 1%Z /\
  map (fun s => fired (output s))
    (trace 640 480 Rodrigues_fixed half_angle_arctan2 (initial_state 0)
       [frame_two_faces 1; frame_two_faces 2; frame_one_face 3;
        frame_two_faces 4; frame_two_faces 5])
  = [false; true; false; false; true].
Proof.
  unfold stream_with_empty_frame, sample_run.
  rewrite !trace_cons, !run_cons. cbn [trace map output post run fold_left].
  change (process_frame 640 480 Rodrigues_fixed half_angle_arctan2) with sample_step.
  rewrite !sample_raw_test_two_faces, !sample_raw_test_no_face.
  rewrite !sample_fired_two_faces, !sample_fired_one_face.
  rewrite !sample_coll_two_faces, !sample_fired_no_face, !sample_coll_no_face,
    !sample_coll_one_face, !sample_coll_two_faces.
  repeat split.
Qed.

(** C9 on the sample stream: the second colliding frame confirms a
    collision.  In an iteration where [os.makedirs] raises, the call of
    [_start_collision_clip] does not return: the iteration raises and the
    main loop ends, the frame after it is never read.  With the directory
    in place and a writer that does not open, the same iteration completes
    and the call returns [False]. *)
Theorem clip_directory_failure_ends_the_loop :
  fired (snd (sample_step (sample_run (initial_state 0) [frame_two_faces 1])
                (frame_two_faces 2))) = true /\
  _start_collision_clip 2 (640%Z, 480%Z) false true
    (clip (sample_run (initial_state 0) [frame_two_faces 1])) = Raised /\
  loop_iteration 640 480 Rodrigues_fixed half_angle_arctan2 false
    (sample_run (initial_state 0) [frame_two_faces 1]) (frame_two_faces 2)
  = Raised /\
  main_loop 640 480 Rodrigues_fixed half_angle_arctan2 (initial_state 0)
    [(true, frame_two_faces 1); (false, frame_two_faces 2); (true, frame_two_faces 3)]
  = Raised /\
  loop_iteration 640 480 Rodrigues_fixed half_angle_arctan2 true
    (sample_run (initial_state 0) [frame_two_faces 1]) (frame_two_faces_locked 2)
  = Done (sample_step (sample_run (initial_state 0) [frame_two_faces 1])
            (frame_two_faces_locked 2)) /\
  clip_attempt
    (snd (sample_step (sample_run (initial_state 0) [frame_two_faces 1])
            (frame_two_faces_locked 2))) = Some false.
Proof.
  pose proof (sample_fires_on_second 0 1 2) as Hfired.
  pose proof (run_idle unit 640 480 Rodrigues_fixed half_angle_arctan2 0
                [frame_two_faces 1]) as [Hactive _].
  assert (Hraise :
            loop_iteration 640 480 Rodrigues_fixed half_angle_arctan2 false
              (sample_run (initial_state 0) [frame_two_faces 1]) (frame_two_faces 2)
            = Raised).
  { rewrite loop_iteration_outcome.
    unfold sample_step, sample_run in *. rewrite Hfired, Hactive. reflexivity. }
  split; [exact Hfired |].
  split; [reflexivity |].
  split; [exact Hraise |].
  split.
  { cbn [main_loop]. rewrite loop_iteration_completes. cbn [fst].
    unfold sample_run in Hraise. rewrite run_cons in Hraise.
    cbn [run fold_left] in Hraise. rewrite Hraise. reflexivity. }
  split; [apply loop_iteration_completes |].
  pose proof (sample_fires_on_second_locked 0 1 2) as Hlocked.
  destruct (process_frame_clip unit 640 480 Rodrigues_fixed half_angle_arctan2
              (sample_run (initial_state 0) [frame_two_faces 1])
              (frame_two_faces_locked 2)
              (run_idle unit 640 480 Rodrigues_fixed half_angle_arctan2 0
                 [frame_two_faces 1])) as [_ Hattempt].
  unfold sample_step, sample_run in *. rewrite Hattempt, Hlocked. reflexivity.
Qed.
